(** * Ring-relay task auction: the relay fabric and the vehicle agents

    A shallow embedding of [src/agents/mesh_simulator.py] (class
    [MeshSimulator]) and [src/agents/vehicle_agent.py] (class
    [VehicleAgent]), and the properties of the bidding protocol they
    implement.

    Conventions of the embedding.
    - Python [float] and [int] values are exact rationals ([Q]); rounding
      is not modelled, comparisons are [Qle_bool] and friends.  A number
      stands for a float or for an int that [float()] converts: an int
      beyond the range of the floats, on which [float()] raises
      [OverflowError], has no counterpart in [py_float].  Where a
      statement says that no call raises, that range is a hypothesis
      ([float_range]).
    - Messages are Python dicts with [str] keys: [gmap string pyval].
    - A function returns [option] when the Python code can leave it by an
      exception ([TypeError], [AttributeError], [KeyError]): [None] is the
      raised exception.  Two conversions are narrower than Python's and
      also answer [None]: [float(s)] of a [str] (no parsing of numerals)
      and membership or indexing in a [str] used where a list of agent ids
      is expected. *)

From Stdlib Require Import QArith Qminmax Lqa.
From stdpp Require Import gmap strings list.

(** ** Python values *)

(** [None], [str] and numbers. *)
Inductive scalar :=
| SNone
| SStr (s : string)
| SNum (q : Q).

(** Field values of a message: a scalar, a list of agent ids ([path],
    [backtrace_route]) or a flat dict (the [best] record). *)
Inductive pyval :=
| PS (x : scalar)
| PList (l : list string)
| PDict (d : gmap string scalar).

(** What a caller can hand to [send] and [receive]: a dict, or anything
    else. *)
Inductive pyobj :=
| ODict (m : gmap string pyval)
| OScalar (x : scalar)
| OList (l : list string).

Abbreviation Message := (gmap string pyval).

Abbreviation PStr s := (PS (SStr s)).
Abbreviation PNum q := (PS (SNum q)).
Abbreviation PNone := (PS SNone).

(** [d.get(k, dflt)] on a message and on a flat dict. *)
Definition get (d : gmap string pyval) (k : string) (dflt : pyval) : pyval :=
  default dflt (d !! k).

Definition sget (d : gmap string scalar) (k : string) (dflt : scalar) : scalar :=
  default dflt (d !! k).

(** [float(v)], and a number used in arithmetic.  A number is a float
    or an int that [float()] converts; the [OverflowError] of [float()]
    on an int beyond the range of the floats is not modelled. *)
Definition py_float (v : pyval) : option Q :=
  match v with
  | PS (SNum q) => Some q
  | _ => None
  end.

Definition s_float (x : scalar) : option Q :=
  match x with
  | SNum q => Some q
  | _ => None
  end.

(** Truth value of a Python object ([if x], [if not x]). *)
Definition s_truthy (x : scalar) : bool :=
  match x with
  | SNone => false
  | SStr s => negb (String.eqb s "")
  | SNum q => negb (Qeq_bool q 0)
  end.

Definition truthy (v : pyval) : bool :=
  match v with
  | PS x => s_truthy x
  | PList l => negb (bool_decide (l = []))
  | PDict d => negb (bool_decide (d = ∅))
  end.

(** [x == y] on scalars and on values, and [v == s] for a [str] [s]. *)
Definition s_eq (x y : scalar) : bool :=
  match x, y with
  | SNone, SNone => true
  | SStr a, SStr b => String.eqb a b
  | SNum p, SNum q => Qeq_bool p q
  | _, _ => false
  end.

Definition dict_eq (d1 d2 : gmap string scalar) : bool :=
  bool_decide (map_relation (λ _ x y, s_eq x y = true)
                 (λ _ _, False) (λ _ _, False) d1 d2).

Definition py_eq (v w : pyval) : bool :=
  match v, w with
  | PS x, PS y => s_eq x y
  | PList a, PList b => bool_decide (a = b)
  | PDict a, PDict b => dict_eq a b
  | _, _ => false
  end.

Definition py_eq_str (v : pyval) (s : string) : bool := py_eq v (PStr s).

(** [s in c] for a [str] [s]: list membership, dict key membership. *)
Definition py_contains (c : pyval) (s : string) : option bool :=
  match c with
  | PList l => Some (bool_decide (s ∈ l))
  | PDict d => Some (bool_decide (is_Some (d !! s)))
  | PS _ => None
  end.

(** [l.index(x)]: position of the first occurrence. *)
Fixpoint list_index (x : string) (l : list string) : option nat :=
  match l with
  | [] => None
  | y :: l' => if String.eqb y x then Some 0 else S <$> list_index x l'
  end.

(** [a < b] on numbers. *)
Definition Qlt_bool (a b : Q) : bool := negb (Qle_bool b a).

(** [s.startswith(p)] *)
Definition startswith (s p : string) : bool := String.prefix p s.

(** ** class VehicleAgent *)

Module VehicleAgent.

Definition VERY_HIGH_BID : Q := 9999999999.

Record t := mk {
  id : string;
  position : Q * Q;
  capacity : Q;
  battery : Q;
  load : Q;
  inbox : list Message;
  assigned_tasks : list (pyval * pyval);
  completed_tasks : Z;
}.

Definition set_inbox (self : t) (l : list Message) : t :=
  mk self.(id) self.(position) self.(capacity) self.(battery) self.(load)
     l self.(assigned_tasks) self.(completed_tasks).

Definition set_assigned_tasks (self : t) (l : list (pyval * pyval)) : t :=
  mk self.(id) self.(position) self.(capacity) self.(battery) self.(load)
     self.(inbox) l self.(completed_tasks).

Definition __init__ (agent_id : string) (position : Q * Q)
    (capacity battery : Q) : t :=
  mk agent_id position capacity battery 0 [] [] 0.

Definition receive (self : t) (message : pyobj) : t :=
  match message with
  | ODict m =>
      if bool_decide (is_Some (m !! "message_type"))
      then set_inbox self (self.(inbox) ++ [m])
      else self
  | _ => self
  end.

Definition has_capacity (self : t) (task_weight : Q) : bool :=
  Qle_bool (self.(load) + task_weight) self.(capacity).

Definition _calculate_base_cost (self : t) (current_edge delivery_edge : pyval)
    (network_info : gmap string pyval) : Q :=
  100.

Definition _calculate_priority_multiplier (self : t) (weight : Q) : Q :=
  if Qle_bool 5 weight then 1 # 2
  else if Qle_bool 2 weight then 1
  else 3 # 2.

Definition _calculate_capacity_penalty (self : t) : Q :=
  if Qle_bool self.(capacity) 0 then 1
  else
    let load_ratio := (self.(load) / self.(capacity))%Q in
    (1 + load_ratio * 2)%Q.

Definition _calculate_time_penalty (self : t) (task_info : gmap string pyval)
    (base_cost : Q) (current_time : pyval) : option Q :=
  let deadline := get task_info "due_by" PNone in
  match deadline with
  | PNone => Some 1%Q
  | _ =>
      let travel_time_estimate := (base_cost / 10)%Q in
      now ← py_float current_time;
      let estimated_completion := (now + travel_time_estimate)%Q in
      due ← py_float deadline;
      let time_remaining := (due - estimated_completion)%Q in
      if Qle_bool time_remaining 0 then Some (3 * 2)%Q
      else if Qle_bool time_remaining 100 then Some 3%Q
      else if Qle_bool time_remaining 300 then Some (3 # 2)
      else Some 1%Q
  end.

Definition compute_bid (self : t) (task_info network_info : gmap string pyval)
    : option Q :=
  let task_id := get task_info "task_id" (PStr "") in
  let pickup := get task_info "pickup" (PStr "") in
  let delivery := get task_info "delivery" (PStr "") in
  weight ← py_float (get task_info "weight" (PNum 0));
  if negb (has_capacity self weight) then Some VERY_HIGH_BID
  else
    let current_edge := get network_info "current_edge" (PStr "warehouse") in
    let base_cost := _calculate_base_cost self current_edge delivery network_info in
    if Qle_bool VERY_HIGH_BID base_cost then Some VERY_HIGH_BID
    else
      let priority_mult := _calculate_priority_multiplier self weight in
      let capacity_penalty := _calculate_capacity_penalty self in
      time_penalty ← _calculate_time_penalty self task_info base_cost
                       (get network_info "current_time" (PNum 0));
      let bid := (base_cost * priority_mult * capacity_penalty * time_penalty)%Q in
      Some (Qmin bid VERY_HIGH_BID).

(** The handlers receive the fabric as [mesh] and only ever call its
    [send] method, so they are written over any state [M] with a
    [send]. *)
Section Handlers.
Context {M : Type} (send : M → string → pyobj → option Z → M).

Definition _handle_task_announcement (self : t) (msg : Message)
    (current_time : Z) (mesh : M) : M :=
  mesh.

(** The message [_handle_forward_announcement] builds (local
    [forward_msg]), up to the call of [mesh.send]. *)
Definition forward_msg (self : t) (msg : Message) (current_time : Z)
    : option Message :=
  let task_id := get msg "task_id" (PStr "") in
  let pickup := get msg "pickup" (PStr "") in
  let delivery := get msg "delivery" (PStr "") in
  weight ← py_float (get msg "weight" (PNum 0));
  let path := get msg "path" (PList []) in
  bid ← compute_bid self
           {[ "task_id" := task_id; "pickup" := pickup;
              "delivery" := delivery; "weight" := PNum weight ]}
           {[ "current_time" := PNum (inject_Z current_time) ]};
  let best := get msg "best"
                (PDict {[ "bid" := SNum VERY_HIGH_BID; "holder" := SNone ]}) in
  match best with
  | PDict b =>
      current_best ← s_float (sget b "bid" (SNum VERY_HIGH_BID));
      let best :=
        if Qlt_bool bid current_best
        then PDict {[ "bid" := SNum bid; "holder" := SStr self.(id) ]}
        else best in
      present ← py_contains path self.(id);
      path ← (if negb present
               then match path with
                    | PList p => Some (PList (p ++ [self.(id)]))
                    | _ => None
                    end
               else Some path);
      Some ({[ "message_type" := PStr "FORWARD_ANNOUNCEMENT";
               "task_id" := task_id; "pickup" := pickup;
               "delivery" := delivery; "weight" := PNum weight;
               "path" := path; "best" := best ]} : Message)
  | _ => None
  end.

Definition _handle_forward_announcement (self : t) (msg : Message)
    (current_time : Z) (mesh : M) : option M :=
  m ← forward_msg self msg current_time;
  Some (send mesh self.(id) (ODict m) (Some current_time)).

Definition _handle_winner_decision (self : t) (msg : Message) : t :=
  let winner := get msg "winner" (PStr "") in
  let task_id := get msg "task_id" (PStr "") in
  let delivery := get msg "delivery" (PStr "") in
  if py_eq_str winner self.(id) then
    if negb (existsb (λ t, py_eq t.1 task_id) self.(assigned_tasks))
    then set_assigned_tasks self (self.(assigned_tasks) ++ [(task_id, delivery)])
    else self
  else self.

Definition _handle_message (self : t) (msg : Message) (current_time : Z)
    (mesh : M) : option (t * M) :=
  let msg_type := get msg "message_type" PNone in
  if py_eq_str msg_type "TASK_ANNOUNCEMENT"
  then Some (self, _handle_task_announcement self msg current_time mesh)
  else if py_eq_str msg_type "FORWARD_ANNOUNCEMENT"
  then mesh' ← _handle_forward_announcement self msg current_time mesh;
       Some (self, mesh')
  else if py_eq_str msg_type "WINNER_DECISION"
  then Some (_handle_winner_decision self msg, mesh)
  else Some (self, mesh).

(** The [while self.inbox] loop: [pending] is the inbox at the top of
    the iteration; the handlers never touch the inbox. *)
Fixpoint process_inbox (pending : list Message) (self : t)
    (current_time : Z) (mesh : M) : option (t * M) :=
  match pending with
  | [] => Some (self, mesh)
  | msg :: rest =>
      '(self', mesh') ← _handle_message (set_inbox self rest) msg
                          current_time mesh;
      process_inbox rest self' current_time mesh'
  end.

Definition process_messages (self : t) (current_time : Z) (mesh : M)
    : option (t * M) :=
  process_inbox self.(inbox) self current_time mesh.

End Handlers.

End VehicleAgent.

(** ** class MeshSimulator *)

Module MeshSimulator.

Definition VERY_HIGH_BID : Q := 9999999999.

Record t := mk {
  agents : gmap string VehicleAgent.t;
  comm_range : Q;
  message_queue : list (string * Message * option Z);
  ring : list string;
  sod_assign_index : Z;
}.

Definition set_agents (self : t) (a : gmap string VehicleAgent.t) : t :=
  mk a self.(comm_range) self.(message_queue) self.(ring)
     self.(sod_assign_index).

Definition set_message_queue (self : t)
    (q : list (string * Message * option Z)) : t :=
  mk self.(agents) self.(comm_range) q self.(ring) self.(sod_assign_index).

Definition set_sod_assign_index (self : t) (i : Z) : t :=
  mk self.(agents) self.(comm_range) self.(message_queue) self.(ring) i.

(** [agents] is the dict given to the constructor, as its items in
    insertion order; the ring is its key order.  The warehouse object and
    the random seed of the constructor play no part in what the fabric
    does and are left out. *)
Definition __init__ (agents : list (string * VehicleAgent.t))
    (comm_range : Q) : t :=
  mk (list_to_map agents) comm_range [] agents.*1 0.

Definition send (self : t) (sender_id : string) (message : pyobj)
    (sim_time : option Z) : t :=
  match message with
  | ODict m =>
      if negb (bool_decide (is_Some (m !! "message_type")))
      then self
      else set_message_queue self
             (self.(message_queue) ++ [(sender_id, m, sim_time)])
  | _ => self
  end.

(** [if k in self.agents: self.agents[k].receive(m)] *)
Definition deliver_to (self : t) (k : string) (m : Message) : t :=
  match self.(agents) !! k with
  | Some a =>
      set_agents self (<[k := VehicleAgent.receive a (ODict m)]> self.(agents))
  | None => self
  end.

Definition _assign_sod_task (self : t) (msg : Message) (current_time : Z) : t :=
  match self.(ring) with
  | [] => self
  | _ :: _ =>
      let n := Z.of_nat (length self.(ring)) in
      match self.(ring) !! Z.to_nat (self.(sod_assign_index) mod n) with
      | Some winner =>
          let self := set_sod_assign_index self (self.(sod_assign_index) + 1) in
          let winner_msg : Message :=
            {[ "message_type" := PStr "WINNER_DECISION";
               "task_id" := get msg "task_id" PNone;
               "winner" := PStr winner;
               "pickup" := get msg "pickup" PNone;
               "delivery" := get msg "delivery" PNone;
               "weight" := get msg "weight" PNone;
               "best" := PDict {[ "bid" := SNum 0; "holder" := SStr winner ]} ]} in
          deliver_to self winner winner_msg
      | None => self
      end
  end.

Definition _forward_to_ring (self : t) (msg : Message) (current_time : Z) : t :=
  match self.(ring) with
  | [] => self
  | first_agent :: _ =>
      let task_id := get msg "task_id" (PStr "") in
      let pickup := get msg "pickup" (PStr "") in
      let delivery := get msg "delivery" (PStr "") in
      let weight := get msg "weight" (PNum 0) in
      let path := ["warehouse"] in
      let forward_msg : Message :=
        {[ "message_type" := PStr "FORWARD_ANNOUNCEMENT";
           "task_id" := task_id; "pickup" := pickup;
           "delivery" := delivery; "weight" := weight;
           "path" := PList (path ++ [first_agent]);
           "best" := PDict {[ "bid" := SNum VERY_HIGH_BID; "holder" := SNone ]} ]} in
      deliver_to self first_agent forward_msg
  end.

Definition _handle_warehouse_announcement (self : t) (msg : Message)
    (current_time : Z) : option t :=
  match get msg "task_id" (PStr "") with
  | PStr task_id =>
      if startswith task_id "SOD-"
      then Some (_assign_sod_task self msg current_time)
      else Some (_forward_to_ring self msg current_time)
  | _ => None
  end.

(** The [for offset in range(1, len(self.ring) + 1)] loop of
    [_find_next_in_ring]. *)
Fixpoint scan_ring (ring : list string) (idx : nat) (path : list string)
    (offsets : list nat) : option string :=
  match offsets with
  | [] => None
  | offset :: rest =>
      let next_idx := (idx + offset) mod length ring in
      match ring !! next_idx with
      | Some candidate =>
          if negb (bool_decide (candidate ∈ path)) then Some candidate
          else scan_ring ring idx path rest
      | None => None
      end
  end.

Definition _find_next_in_ring (self : t) (current : string)
    (path : list string) : option string :=
  if String.eqb current "warehouse" then
    find (λ agent, negb (bool_decide (agent ∈ path))) self.(ring)
  else if negb (bool_decide (current ∈ self.(ring))) then None
  else
    idx ← list_index current self.(ring);
    scan_ring self.(ring) idx path (seq 1 (length self.(ring))).

(** Local [backtrace_path] of [_start_backtrace]. *)
Definition backtrace_path (path : list string) (winner : string) : list string :=
  if bool_decide (winner ∈ path) then
    match list_index winner path with
    | Some idx => reverse (drop idx path)
    | None => [winner]
    end
  else [winner].

(** Local [winner_msg] of [_start_backtrace]. *)
Definition winner_msg (msg : Message) (winner : string) (best : pyval)
    (backtrace_path : list string) : Message :=
  {[ "message_type" := PStr "WINNER_DECISION";
     "task_id" := get msg "task_id" PNone;
     "winner" := PStr winner;
     "pickup" := get msg "pickup" PNone;
     "delivery" := get msg "delivery" PNone;
     "weight" := get msg "weight" PNone;
     "best" := best;
     "backtrace_route" := PList backtrace_path ]}.

(** The loop [for i in range(len(backtrace_path) - 1)]: the receivers
    are [backtrace_path[1:]], in order. *)
Definition relay (self : t) (backtrace_path : list string) (m : Message) : t :=
  foldl (λ s receiver, deliver_to s receiver m) self (drop 1 backtrace_path).

Definition _start_backtrace (self : t) (msg : Message) (current_time : Z)
    : option t :=
  let best := get msg "best"
                (PDict {[ "bid" := SNum VERY_HIGH_BID; "holder" := SNone ]}) in
  match best with
  | PDict b =>
      let winner := sget b "holder" SNone in
      if negb (s_truthy winner) then Some self
      else
        match winner, get msg "path" (PList []) with
        | SStr w, PList path =>
            let bp := backtrace_path path w in
            Some (relay self bp (winner_msg msg w best bp))
        | SStr w, PDict d =>
            (* [winner in path] is a key test, [path.index] does not exist *)
            if bool_decide (is_Some (d !! w)) then None
            else Some self
        | SStr w, PS _ => None
        | _, PList _ =>
            (* a number is no member of a list of ids: the route is
               [[winner]] and the relay loop has no iteration *)
            Some self
        | _, PDict _ => Some self
        | _, PS _ => None
        end
  | _ => None
  end.

Definition _handle_forward_announcement (self : t) (sender : string)
    (msg : Message) (current_time : Z) : option t :=
  let path := get msg "path" (PList []) in
  if negb (truthy path) then Some self
  else
    match path with
    | PList p =>
        last_agent ← last p;
        let next_agent := _find_next_in_ring self last_agent p in
        match next_agent with
        | Some next =>
            if String.eqb next "" then _start_backtrace self msg current_time
            else
              let forward_msg : Message := <["path" := PList (p ++ [next])]> msg in
              Some (deliver_to self next forward_msg)
        | None => _start_backtrace self msg current_time
        end
    | _ => None
    end.

Definition _handle_winner_decision (self : t) (msg : Message) : option t :=
  match get msg "winner" (PStr "") with
  | PStr winner => Some (deliver_to self winner msg)
  | PS _ => Some self
  | _ => None
  end.

Definition _process_message (self : t) (sender : string) (msg : Message)
    (current_time : Z) : option t :=
  let msg_type := get msg "message_type" PNone in
  if py_eq_str msg_type "TASK_ANNOUNCEMENT" && String.eqb sender "warehouse"
  then _handle_warehouse_announcement self msg current_time
  else if py_eq_str msg_type "FORWARD_ANNOUNCEMENT"
  then _handle_forward_announcement self sender msg current_time
  else if py_eq_str msg_type "WINNER_DECISION"
  then _handle_winner_decision self msg
  else Some self.

(** The [while self.message_queue] loop: [pending] is the queue at the
    top of the iteration; handling a message never enqueues. *)
Fixpoint deliver_queue (pending : list (string * Message * option Z))
    (self : t) (sim_time : Z) : option t :=
  match pending with
  | [] => Some self
  | (sender, msg, msg_time) :: rest =>
      let current_time := default sim_time msg_time in
      self' ← _process_message (set_message_queue self rest) sender msg
                current_time;
      deliver_queue rest self' sim_time
  end.

Definition deliver_messages (self : t) (sim_time : Z) : option t :=
  deliver_queue self.(message_queue) self sim_time.

End MeshSimulator.

(** ** The calls of a simulation loop

    No driver is part of the two classes: a run is a sequence of calls of
    their public methods.  [agent_turn] is
    [mesh.agents[k].process_messages(current_time, mesh)]: the agent is the
    object stored under [k], and what it sends goes to the queue of the
    same fabric. *)

Definition agent_turn (mesh : MeshSimulator.t) (k : string) (current_time : Z)
    : option MeshSimulator.t :=
  a ← MeshSimulator.agents mesh !! k;
  '(a', mesh') ← VehicleAgent.process_messages MeshSimulator.send a current_time mesh;
  Some (MeshSimulator.set_agents mesh' (<[k := a']> (MeshSimulator.agents mesh'))).

Inductive action :=
| Announce (sender : string) (task : Message) (sim_time : option Z)
| Deliver (sim_time : Z)
| AgentTurn (k : string) (current_time : Z).

(** [Announce] is the task source (or anybody else) sending a
    [TASK_ANNOUNCEMENT]. *)
Definition do_action (mesh : MeshSimulator.t) (act : action)
    : option MeshSimulator.t :=
  match act with
  | Announce sender task sim_time =>
      Some (MeshSimulator.send mesh sender
              (ODict (<["message_type" := PStr "TASK_ANNOUNCEMENT"]> task))
              sim_time)
  | Deliver sim_time => MeshSimulator.deliver_messages mesh sim_time
  | AgentTurn k current_time => agent_turn mesh k current_time
  end.

Fixpoint run (mesh : MeshSimulator.t) (trace : list action)
    : option MeshSimulator.t :=
  match trace with
  | [] => Some mesh
  | act :: rest => mesh' ← do_action mesh act; run mesh' rest
  end.

(** ** Well-formed messages, in the words of the data model

    The three variants and the fields each always carries ([due_by] and
    [backtrace_route] are optional). *)

Definition required_fields (message_type : string) : option (list string) :=
  if String.eqb message_type "TASK_ANNOUNCEMENT"
  then Some ["task_id"; "pickup"; "delivery"; "weight"]
  else if String.eqb message_type "FORWARD_ANNOUNCEMENT"
  then Some ["task_id"; "pickup"; "delivery"; "weight"; "path"; "best"]
  else if String.eqb message_type "WINNER_DECISION"
  then Some ["task_id"; "winner"; "pickup"; "delivery"; "weight"; "best"]
  else None.

Definition well_formed (message : pyobj) : bool :=
  match message with
  | ODict m =>
      match m !! "message_type" with
      | Some (PStr ty) =>
          match required_fields ty with
          | Some fields => forallb (λ f, bool_decide (is_Some (m !! f))) fields
          | None => false
          end
      | _ => false
      end
  | _ => false
  end.

(** ** Assigned tasks, keyed by task id

    [assigned_tasks] is unique by task id when no entry equals (Python
    [==]) the task id of a later one; [entries_for] are the entries the
    test [any(t[0] == task_id ...)] of the agent finds. *)

Fixpoint unique_by_task_id (l : list (pyval * pyval)) : bool :=
  match l with
  | [] => true
  | t :: rest =>
      negb (existsb (λ u, py_eq t.1 u.1) rest) && unique_by_task_id rest
  end.

Definition entries_for (task_id : pyval) (l : list (pyval * pyval))
    : list (pyval * pyval) :=
  List.filter (λ t, py_eq t.1 task_id) l.

(** ** Messages of one traversal *)

(** The running best bid and its holder, as [_handle_forward_announcement]
    of the agent reads them. *)
Definition default_best : pyval :=
  PDict {[ "bid" := SNum VehicleAgent.VERY_HIGH_BID; "holder" := SNone ]}.

Definition best_bid (m : Message) : option Q :=
  match get m "best" default_best with
  | PDict b => s_float (sget b "bid" (SNum VehicleAgent.VERY_HIGH_BID))
  | _ => None
  end.

Definition best_holder (m : Message) : option scalar :=
  match get m "best" default_best with
  | PDict b => Some (sget b "holder" SNone)
  | _ => None
  end.

(** The bid an agent computes for a FORWARD_ANNOUNCEMENT: the call of
    [compute_bid] in its handler. *)
Definition bid_for (self : VehicleAgent.t) (msg : Message) (current_time : Z)
    : option Q :=
  weight ← py_float (get msg "weight" (PNum 0));
  VehicleAgent.compute_bid self
    {[ "task_id" := get msg "task_id" (PStr "");
       "pickup" := get msg "pickup" (PStr "");
       "delivery" := get msg "delivery" (PStr "");
       "weight" := PNum weight ]}
    {[ "current_time" := PNum (inject_Z current_time) ]}.

(** One hop of a FORWARD_ANNOUNCEMENT around the ring: an agent handles it
    and sends its reply to the fabric, or the fabric passes it on to the
    next unvisited ring member. *)
Inductive hop (mesh : MeshSimulator.t) : Message → Message → Prop :=
| hop_bid (self : VehicleAgent.t) (t : Z) (m m' : Message) :
    VehicleAgent.forward_msg self m t = Some m' →
    hop mesh m m'
| hop_relay (p : list string) (last_agent next : string) (m : Message) :
    get m "path" (PList []) = PList p →
    last p = Some last_agent →
    MeshSimulator._find_next_in_ring mesh last_agent p = Some next →
    next ≠ "" →
    hop mesh m (<["path" := PList (p ++ [next])]> m).

(** ** Invariant of a run

    [fleet] and [ring0] are the agents and the ring the fabric was built
    with.  Every FORWARD_ANNOUNCEMENT in flight has a path made of the
    sentinel followed by distinct ring members, a best bid of at most
    VERY_HIGH_BID, and a holder, if any, that is on the path and can carry
    the load; every WINNER_DECISION names a ring member. *)

Definition static (a : VehicleAgent.t) : string * Q * Q :=
  (VehicleAgent.id a, VehicleAgent.load a, VehicleAgent.capacity a).

Definition is_forward (m : Message) : Prop :=
  get m "message_type" PNone = PStr "FORWARD_ANNOUNCEMENT".

Definition is_decision (m : Message) : Prop :=
  get m "message_type" PNone = PStr "WINNER_DECISION".

Section Invariant.
Variable fleet : gmap string VehicleAgent.t.
Variable ring0 : list string.

Definition can_carry (h : string) (weight : pyval) : Prop :=
  ∃ a, fleet !! h = Some a
       ∧ ∀ w, py_float weight = Some w → VehicleAgent.has_capacity a w = true.

Definition forward_ok (m : Message) : Prop :=
  ∃ (rest : list string) (b : gmap string scalar) (q : Q),
    m !! "path" = Some (PList ("warehouse" :: rest))
    ∧ NoDup rest
    ∧ (∀ k, k ∈ rest → k ∈ ring0)
    ∧ m !! "best" = Some (PDict b)
    ∧ b !! "bid" = Some (SNum q)
    ∧ (q <= VehicleAgent.VERY_HIGH_BID)%Q
    ∧ (b !! "holder" = Some SNone
       ∨ ∃ h, b !! "holder" = Some (SStr h) ∧ h ∈ rest
              ∧ can_carry h (get m "weight" (PNum 0))).

Definition decision_ok (m : Message) : Prop :=
  ∃ winner, m !! "winner" = Some (PStr winner) ∧ winner ∈ ring0.

Definition message_ok (m : Message) : Prop :=
  (is_forward m → forward_ok m) ∧ (is_decision m → decision_ok m).

(** A message in the inbox of the agent registered as [k]. *)
Definition delivered_ok (k : string) (m : Message) : Prop :=
  message_ok m
  ∧ (is_forward m → ∃ p, m !! "path" = Some (PList ("warehouse" :: p)) ∧ k ∈ p).

Record world_ok (w : MeshSimulator.t) : Prop := {
  ok_ring : MeshSimulator.ring w = ring0;
  ok_static : ∀ k, static <$> MeshSimulator.agents w !! k = static <$> fleet !! k;
  ok_queue : ∀ s m t, (s, m, t) ∈ MeshSimulator.message_queue w → message_ok m;
  ok_inbox : ∀ k a m, MeshSimulator.agents w !! k = Some a →
                      m ∈ VehicleAgent.inbox a → delivered_ok k m;
}.

End Invariant.

(** The messages in flight in a fabric: queued, or in an inbox. *)
Definition in_flight (w : MeshSimulator.t) (m : Message) : Prop :=
  (∃ s t, (s, m, t) ∈ MeshSimulator.message_queue w)
  ∨ (∃ k a, MeshSimulator.agents w !! k = Some a ∧ m ∈ VehicleAgent.inbox a).

(** A fleet as the constructor of the fabric gets it: every vehicle is
    registered under its own id and starts with an empty inbox. *)
Definition fresh_fleet (items : list (string * VehicleAgent.t)) : Prop :=
  ∀ k a, (k, a) ∈ items → VehicleAgent.id a = k ∧ VehicleAgent.inbox a = [].

(** ** What a test observes of a fabric

    Per ring member the messages waiting in its inbox and its assigned
    tasks, and the queued messages; a message is shown by its type, its
    path, the holder of its best bid and its winner. *)

Definition summary (m : Message) : pyval * pyval * option scalar * pyval :=
  (get m "message_type" PNone, get m "path" PNone, best_holder m,
   get m "winner" PNone).

Definition inboxes (w : MeshSimulator.t)
    : list (string * option (list (pyval * pyval * option scalar * pyval))) :=
  (λ k, (k, (λ a, summary <$> VehicleAgent.inbox a)
              <$> MeshSimulator.agents w !! k)) <$> MeshSimulator.ring w.

Definition assignments (w : MeshSimulator.t)
    : list (string * option (list (pyval * pyval))) :=
  (λ k, (k, VehicleAgent.assigned_tasks <$> MeshSimulator.agents w !! k))
    <$> MeshSimulator.ring w.

Definition queued (w : MeshSimulator.t)
    : list (string * (pyval * pyval * option scalar * pyval)) :=
  (λ '(sender, m, _), (sender, summary m)) <$> MeshSimulator.message_queue w.

(** ** Sample data *)

Module Sample.

Definition vehicle (name : string) (capacity : Q) : VehicleAgent.t :=
  VehicleAgent.__init__ name (0%Q, 0%Q) capacity 100.

Definition task (task_id : string) (weight : Q) : Message :=
  {[ "task_id" := PStr task_id; "pickup" := PStr "edge_warehouse";
     "delivery" := PStr "edge_7"; "weight" := PNum weight ]}.

Definition announcement (task_id : string) (weight : Q) : Message :=
  <["message_type" := PStr "TASK_ANNOUNCEMENT"]> (task task_id weight).

Definition fleet1 : MeshSimulator.t :=
  MeshSimulator.__init__ [("A", vehicle "A" 10)] 600.

Definition fleet2 : MeshSimulator.t :=
  MeshSimulator.__init__ [("A", vehicle "A" 10); ("B", vehicle "B" 10)] 600.

(** [A] and [B] bid, [C] cannot carry a load of 3. *)
Definition items3 : list (string * VehicleAgent.t) :=
  [("A", vehicle "A" 10); ("B", vehicle "B" 10); ("C", vehicle "C" 2)].

Definition fleet3 : MeshSimulator.t := MeshSimulator.__init__ items3 600.

(** A task on its way round the ring and a start-of-day task. *)
Definition trace3 : list action :=
  [Announce "warehouse" (task "T1" 3) (Some 0%Z);
   Announce "warehouse" (task "SOD-1" 1) (Some 0%Z);
   Deliver 0; AgentTurn "A" 0; Deliver 1].

(** The task has been round the whole ring; [C] has answered last. *)
Definition trace3_round : list action :=
  [Announce "warehouse" (task "T1" 3) (Some 0%Z);
   Deliver 0; AgentTurn "A" 0; Deliver 1; AgentTurn "B" 1; Deliver 2;
   AgentTurn "C" 2].

(** Only the last vehicle of the ring can carry a load of 3. *)
Definition fleet_last : MeshSimulator.t :=
  MeshSimulator.__init__ [("A", vehicle "A" 2); ("B", vehicle "B" 10)] 600.

End Sample.

(** ** What a call leaves alone

    [inbox_grows a a']: [a'] is [a] with messages appended to its inbox
    and nothing else changed.  [fabric_delivers w w']: the fabric [w'] is
    [w] with messages handed to agents: the same ring and range, the same
    agents with longer inboxes, a round-robin index that did not go back. *)

Definition inbox_grows (a a' : VehicleAgent.t) : Prop :=
  VehicleAgent.set_inbox a' (VehicleAgent.inbox a) = a
  ∧ VehicleAgent.inbox a `prefix_of` VehicleAgent.inbox a'.

Definition fabric_delivers (w w' : MeshSimulator.t) : Prop :=
  MeshSimulator.ring w' = MeshSimulator.ring w
  ∧ MeshSimulator.comm_range w' = MeshSimulator.comm_range w
  ∧ (MeshSimulator.sod_assign_index w ≤ MeshSimulator.sod_assign_index w')%Z
  ∧ ∀ k, option_Forall2 inbox_grows (MeshSimulator.agents w !! k)
                                    (MeshSimulator.agents w' !! k).

(** The decisions in an inbox that name the agent [name] as winner, as
    the pairs the agent would assign. *)
Definition decisions_for (name : string) (inbox : list Message)
    : list (pyval * pyval) :=
  (λ m, (get m "task_id" (PStr ""), get m "delivery" (PStr "")))
    <$> List.filter
          (λ m, py_eq_str (get m "message_type" PNone) "WINNER_DECISION"
                && py_eq_str (get m "winner" (PStr "")) name) inbox.

(** ** The bid of the protocol

    What an agent bids for a forwarded task of weight [wt]: it depends on
    the agent's load and capacity and on the weight alone. *)

Definition protocol_bid (self : VehicleAgent.t) (wt : Q) : Q :=
  if VehicleAgent.has_capacity self wt
  then Qmin (100 * VehicleAgent._calculate_priority_multiplier self wt
                 * VehicleAgent._calculate_capacity_penalty self * 1)
            VehicleAgent.VERY_HIGH_BID
  else VehicleAgent.VERY_HIGH_BID.

(** ** Start-of-day round robin

    [sod_winner ring i] is the ring member picked at round-robin index
    [i]; [sod_wins ring i n k] counts how often [k] is picked for [n]
    consecutive start-of-day tasks, the first at index [i]. *)

Definition sod_winner (ring : list string) (i : Z) : option string :=
  ring !! Z.to_nat (i mod Z.of_nat (length ring)).

Fixpoint sod_wins (ring : list string) (i : Z) (n : nat) (k : string) : nat :=
  match n with
  | O => 0
  | S n' =>
      (if decide (sod_winner ring i = Some k) then 1 else 0)
      + sod_wins ring (i + 1) n' k
  end.

(** A start-of-day announcement of the warehouse, as queued. *)
Definition is_sod_entry (entry : string * Message * option Z) : Prop :=
  let '(sender, msg, _) := entry in
  sender = "warehouse"
  ∧ get msg "message_type" PNone = PStr "TASK_ANNOUNCEMENT"
  ∧ ∃ task_id, get msg "task_id" (PStr "") = PStr task_id
               ∧ startswith task_id "SOD-" = true.

(** ** The best bid is the lowest bid

    [best_of answered q h wt]: among the agents [answered], in this order,
    [q] is the lowest bid for a load [wt] and [h] the first agent that bids
    it (no holder while the bid is still VERY_HIGH_BID).  A
    FORWARD_ANNOUNCEMENT that an agent has sent carries the best of all
    agents on its path; one that waits in the inbox of [k] carries the
    best of the agents before [k]; a decision with a [backtrace_route]
    carries the best of the whole ring.  Paths follow the ring order. *)

Section Optimality.
Variable fleet : gmap string VehicleAgent.t.
Variable ring0 : list string.

Definition best_of (answered : list string) (q : Q) (h : scalar) (wt : Q)
    : Prop :=
  (∀ k a, k ∈ answered → fleet !! k = Some a → (q <= protocol_bid a wt)%Q)
  ∧ match h with
    | SNone => q = VehicleAgent.VERY_HIGH_BID
    | SStr h =>
        (q < VehicleAgent.VERY_HIGH_BID)%Q
        ∧ ∃ pre suf a,
            answered = pre ++ h :: suf
            ∧ fleet !! h = Some a
            ∧ q = protocol_bid a wt
            ∧ ∀ k a', k ∈ pre → fleet !! k = Some a' →
                      (q < protocol_bid a' wt)%Q
    | SNum _ => False
    end.

Definition sent_best (m : Message) : Prop :=
  ∃ rest b q h wt,
    m !! "path" = Some (PList ("warehouse" :: rest))
    ∧ rest `prefix_of` ring0
    ∧ m !! "best" = Some (PDict b)
    ∧ b !! "bid" = Some (SNum q)
    ∧ b !! "holder" = Some h
    ∧ m !! "weight" = Some (PNum wt)
    ∧ best_of rest q h wt.

Definition waiting_best (k : string) (m : Message) : Prop :=
  ∃ before b q h,
    m !! "path" = Some (PList ("warehouse" :: before ++ [k]))
    ∧ (before ++ [k]) `prefix_of` ring0
    ∧ m !! "best" = Some (PDict b)
    ∧ b !! "bid" = Some (SNum q)
    ∧ b !! "holder" = Some h
    ∧ is_Some (m !! "weight")
    ∧ ∀ wt, py_float (get m "weight" (PNum 0)) = Some wt →
            best_of before q h wt.

Definition decision_best (m : Message) : Prop :=
  is_Some (m !! "backtrace_route") →
  ∃ b q h wt,
    m !! "winner" = Some (PStr h)
    ∧ m !! "best" = Some (PDict b)
    ∧ b !! "bid" = Some (SNum q)
    ∧ b !! "holder" = Some (SStr h)
    ∧ m !! "weight" = Some (PNum wt)
    ∧ best_of ring0 q (SStr h) wt.

Definition queued_best (m : Message) : Prop :=
  (is_forward m → sent_best m) ∧ (is_decision m → decision_best m).

Definition delivered_best (k : string) (m : Message) : Prop :=
  (is_forward m → waiting_best k m) ∧ (is_decision m → decision_best m).

Record world_best (w : MeshSimulator.t) : Prop := {
  best_queue : ∀ s m t, (s, m, t) ∈ MeshSimulator.message_queue w →
                 queued_best m;
  best_inbox : ∀ k a m, MeshSimulator.agents w !! k = Some a →
                 m ∈ VehicleAgent.inbox a → delivered_best k m;
}.

End Optimality.

(** ** Well-typed runs

    A task is well typed when its [task_id], if any, is a string and its
    [weight], if any, a number that [float()] converts: a float, or an
    int within the range of the floats (beyond it [float()] raises
    [OverflowError]).  An announcement of the warehouse must be well
    typed, and an agent that takes a turn must be registered.  Every
    FORWARD_ANNOUNCEMENT in flight then has such a number as its
    weight. *)



Definition is_task (m : Message) : Prop :=
  get m "message_type" PNone = PStr "TASK_ANNOUNCEMENT".






(** * Properties *)

(** ** Python values *)

Lemma py_eq_str_true (v : pyval) (s : string) :
  py_eq_str v s = true ↔ v = PStr s.
Proof.
  unfold py_eq_str, py_eq.
  destruct v as [[| z | q] | l | d]; simpl; split; try done.
  - intros H. apply String.eqb_eq in H. by subst.
  - intros [= ->]. apply String.eqb_refl.
Qed.

Lemma py_eq_str_ne (s1 s2 : string) :
  s1 ≠ s2 → py_eq_str (PStr s1) s2 = false.
Proof.
  intros Hne. destruct (py_eq_str (PStr s1) s2) eqn:E; [|done].
  apply py_eq_str_true in E. congruence.
Qed.

Lemma get_lookup (m : Message) (k : string) (v dflt : pyval) :
  m !! k = Some v → get m k dflt = v.
Proof. unfold get. by intros ->. Qed.

Lemma list_index_first (x : string) (pre suf : list string) :
  x ∉ pre → list_index x (pre ++ x :: suf) = Some (length pre).
Proof.
  induction pre as [|y pre IH]; simpl; intros Hx.
  - by rewrite String.eqb_refl.
  - apply not_elem_of_cons in Hx as [Hne Hx].
    destruct (String.eqb y x) eqn:E.
    + apply String.eqb_eq in E. congruence.
    + by rewrite IH.
Qed.

(** ** Dispatch in the fabric *)

Lemma process_message_foreign (self : MeshSimulator.t) (sender : string)
    (msg : Message) (t : Z) :
  msg !! "message_type" = Some (PStr "TASK_ANNOUNCEMENT") →
  sender ≠ "warehouse" →
  MeshSimulator._process_message self sender msg t = Some self.
Proof.
  intros Hty Hs. unfold MeshSimulator._process_message.
  rewrite (get_lookup _ _ _ _ Hty).
  assert (String.eqb sender "warehouse" = false) as ->
    by by apply String.eqb_neq.
  rewrite andb_false_r.
  rewrite !py_eq_str_ne by done. done.
Qed.

(** C10: a queued TASK_ANNOUNCEMENT whose sender is not the literal
    "warehouse" is ignored at dispatch: the fabric is left exactly as it
    was (no inbox, ring or round-robin index changes), and draining a queue
    with such an entry at its head is draining the rest of the queue. *)
Theorem C10_foreign_announcement_ignored (self : MeshSimulator.t)
    (sender : string) (msg : Message) (t : Z) :
  msg !! "message_type" = Some (PStr "TASK_ANNOUNCEMENT") →
  sender ≠ "warehouse" →
  MeshSimulator._process_message self sender msg t = Some self
  ∧ ∀ rest msg_time sim_time,
      MeshSimulator.message_queue self = (sender, msg, msg_time) :: rest →
      MeshSimulator.deliver_messages self sim_time
      = MeshSimulator.deliver_messages
          (MeshSimulator.set_message_queue self rest) sim_time.
Proof.
  intros Hty Hs. split; [by apply process_message_foreign|].
  intros rest msg_time sim_time Hq.
  unfold MeshSimulator.deliver_messages. rewrite Hq. simpl.
  by rewrite process_message_foreign.
Qed.

Lemma C10_foreign_announcement_ignored_witness :
  MeshSimulator._process_message Sample.fleet2 "A"
    (Sample.announcement "T1" 3) 0 = Some Sample.fleet2.
Proof.
  apply (C10_foreign_announcement_ignored Sample.fleet2 "A"
           (Sample.announcement "T1" 3) 0); [reflexivity | discriminate].
Defined.

(** ** [send] *)

(** C3, as stated, fails: a dict of an unknown variant, and a
    FORWARD_ANNOUNCEMENT without any of its fields, are both queued. *)
Lemma C3_malformed_message_is_queued :
  let bogus : Message := {[ "message_type" := PStr "BOGUS" ]} in
  let bare : Message := {[ "message_type" := PStr "FORWARD_ANNOUNCEMENT" ]} in
  well_formed (ODict bogus) = false
  ∧ well_formed (ODict bare) = false
  ∧ MeshSimulator.message_queue
      (MeshSimulator.send Sample.fleet1 "A" (ODict bogus) (Some 0%Z))
    = [("A", bogus, Some 0%Z)]
  ∧ MeshSimulator.message_queue
      (MeshSimulator.send Sample.fleet1 "A" (ODict bare) (Some 0%Z))
    = [("A", bare, Some 0%Z)].
Proof. repeat split; reflexivity. Qed.

(** C3, amended: [send] drops exactly what is not a dict or is a dict
    without the key "message_type"; every dict with that key, whatever its
    variant and other fields, is appended to the tail of the queue with its
    sender and time.  Nothing else of the fabric changes. *)
Theorem C3_send_checks_message_type_only (self : MeshSimulator.t)
    (sender_id : string) (message : pyobj) (sim_time : option Z) :
  let self' := MeshSimulator.send self sender_id message sim_time in
  match message with
  | ODict m =>
      (is_Some (m !! "message_type") →
         MeshSimulator.message_queue self'
         = MeshSimulator.message_queue self ++ [(sender_id, m, sim_time)])
      ∧ (m !! "message_type" = None → self' = self)
  | _ => self' = self
  end
  ∧ MeshSimulator.agents self' = MeshSimulator.agents self
  ∧ MeshSimulator.ring self' = MeshSimulator.ring self
  ∧ MeshSimulator.sod_assign_index self' = MeshSimulator.sod_assign_index self.
Proof.
  unfold MeshSimulator.send.
  destruct message as [m | x | l]; simpl; try done.
  case_bool_decide as Hm; simpl; repeat split; try done.
  intros Hn. rewrite Hn in Hm. by destruct Hm.
Qed.

(** ** Start-of-day tasks *)

Lemma receive_message (a : VehicleAgent.t) (m : Message) :
  is_Some (m !! "message_type") →
  VehicleAgent.receive a (ODict m)
  = VehicleAgent.set_inbox a (VehicleAgent.inbox a ++ [m]).
Proof. intros Hm. unfold VehicleAgent.receive. by rewrite bool_decide_eq_true_2. Qed.

Lemma deliver_to_registered (self : MeshSimulator.t) (k : string)
    (a : VehicleAgent.t) (m : Message) :
  MeshSimulator.agents self !! k = Some a →
  is_Some (m !! "message_type") →
  MeshSimulator.deliver_to self k m
  = MeshSimulator.set_agents self
      (<[k := VehicleAgent.set_inbox a (VehicleAgent.inbox a ++ [m])]>
         (MeshSimulator.agents self)).
Proof.
  intros Ha Hm. unfold MeshSimulator.deliver_to. rewrite Ha.
  by rewrite receive_message.
Qed.

(** C7: a TASK_ANNOUNCEMENT from the warehouse whose task_id starts with
    "SOD-" is resolved round-robin: with a non-empty ring of registered
    agents and index [i], the winner is [ring[i mod R]], the index becomes
    [i + 1], and one WINNER_DECISION with [best = {bid: 0.0, holder:
    winner}] is appended to the winner's inbox; nothing is queued and no
    other agent receives anything. *)
Theorem C7_sod_round_robin (self : MeshSimulator.t) (msg : Message)
    (task_id : string) (t : Z) :
  msg !! "message_type" = Some (PStr "TASK_ANNOUNCEMENT") →
  msg !! "task_id" = Some (PStr task_id) →
  startswith task_id "SOD-" = true →
  MeshSimulator.ring self ≠ [] →
  (∀ k, k ∈ MeshSimulator.ring self →
        is_Some (MeshSimulator.agents self !! k)) →
  ∃ (winner : string) (a : VehicleAgent.t) (decision : Message),
    let i := MeshSimulator.sod_assign_index self in
    let R := Z.of_nat (length (MeshSimulator.ring self)) in
    MeshSimulator.ring self !! Z.to_nat (i mod R) = Some winner
    ∧ MeshSimulator.agents self !! winner = Some a
    ∧ MeshSimulator._process_message self "warehouse" msg t
      = Some (MeshSimulator.mk
                (<[winner := VehicleAgent.set_inbox a
                               (VehicleAgent.inbox a ++ [decision])]>
                   (MeshSimulator.agents self))
                (MeshSimulator.comm_range self)
                (MeshSimulator.message_queue self)
                (MeshSimulator.ring self)
                (i + 1))
    ∧ decision !! "message_type" = Some (PStr "WINNER_DECISION")
    ∧ decision !! "task_id" = Some (PStr task_id)
    ∧ decision !! "winner" = Some (PStr winner)
    ∧ decision !! "best"
      = Some (PDict {[ "bid" := SNum 0; "holder" := SStr winner ]}).
Proof.
  intros Hty Hid Hsod Hring Hreg.
  set (i := MeshSimulator.sod_assign_index self).
  set (R := Z.of_nat (length (MeshSimulator.ring self))).
  assert (0 < R)%Z as HR.
  { unfold R. destruct (MeshSimulator.ring self); [done | simpl; lia]. }
  destruct (lookup_lt_is_Some_2 (MeshSimulator.ring self) (Z.to_nat (i mod R)))
    as [winner Hw].
  { pose proof (Z.mod_pos_bound i R HR). unfold R in *. lia. }
  destruct (Hreg winner) as [a Ha]; [by eapply list_elem_of_lookup_2|].
  eexists winner, a, _. simpl. split; [exact Hw|]. split; [exact Ha|].
  split.
  - unfold MeshSimulator._process_message.
    rewrite (get_lookup _ _ _ _ Hty). simpl.
    unfold MeshSimulator._handle_warehouse_announcement.
    rewrite (get_lookup _ _ _ _ Hid), Hsod.
    unfold MeshSimulator._assign_sod_task.
    assert (∀ X : MeshSimulator.t,
              match MeshSimulator.ring self with [] => self | _ :: _ => X end = X)
      as -> by by destruct (MeshSimulator.ring self).
    fold R i. rewrite Hw.
    erewrite deliver_to_registered; [reflexivity | exact Ha | by eexists].
  - repeat split; try reflexivity.
    replace (Some (PStr task_id)) with (Some (get msg "task_id" PNone))
      by by rewrite (get_lookup _ _ _ _ Hid).
    reflexivity.
Qed.

(** The scenario of the claim: "SOD-7", ring [A, B] and index 1. *)
Lemma C7_sod_round_robin_witness :
  let self := MeshSimulator.set_sod_assign_index Sample.fleet2 1 in
  ∃ self', MeshSimulator._process_message self "warehouse"
             (Sample.announcement "SOD-7" 3) 0 = Some self'
    ∧ MeshSimulator.sod_assign_index self' = 2%Z
    ∧ (VehicleAgent.inbox <$> MeshSimulator.agents self' !! "A") = Some []
    ∧ ∃ decision,
        (VehicleAgent.inbox <$> MeshSimulator.agents self' !! "B")
        = Some [decision]
        ∧ decision !! "winner" = Some (PStr "B").
Proof.
  intros self.
  destruct (C7_sod_round_robin self (Sample.announcement "SOD-7" 3) "SOD-7" 0)
    as (winner & a & decision & Hw & Ha & Hrun & _ & _ & Hwin & _).
  - reflexivity.
  - reflexivity.
  - reflexivity.
  - discriminate.
  - intros k Hk. vm_compute in Hk.
    apply elem_of_cons in Hk as [-> | Hk]; [by eexists|].
    apply elem_of_cons in Hk as [-> | Hk]; [by eexists|].
    by apply elem_of_nil in Hk.
  - injection Hw as <-. injection Ha as <-.
    eexists. split; [exact Hrun|]. split; [reflexivity|].
    split; [reflexivity|]. exists decision. split; [reflexivity | exact Hwin].
Defined.

(** ** Backtrace *)

Lemma backtrace_path_absent (path : list string) (holder : string) :
  holder ∉ path → MeshSimulator.backtrace_path path holder = [holder].
Proof.
  intros Hh. unfold MeshSimulator.backtrace_path.
  by rewrite bool_decide_eq_false_2.
Qed.

Lemma backtrace_path_suffix (pre suf : list string) (holder : string) :
  holder ∉ pre →
  MeshSimulator.backtrace_path (pre ++ holder :: suf) holder
  = reverse (holder :: suf).
Proof.
  intros Hh. unfold MeshSimulator.backtrace_path.
  rewrite bool_decide_eq_true_2 by set_solver.
  rewrite list_index_first by done.
  by rewrite drop_app_length.
Qed.

Lemma start_backtrace_route (self : MeshSimulator.t) (msg : Message)
    (b : gmap string scalar) (holder : string) (path : list string) (t : Z) :
  msg !! "best" = Some (PDict b) →
  b !! "holder" = Some (SStr holder) →
  holder ≠ "" →
  msg !! "path" = Some (PList path) →
  MeshSimulator._start_backtrace self msg t
  = Some (MeshSimulator.relay self (MeshSimulator.backtrace_path path holder)
            (MeshSimulator.winner_msg msg holder (PDict b)
               (MeshSimulator.backtrace_path path holder))).
Proof.
  intros Hb Hh Hne Hp. unfold MeshSimulator._start_backtrace.
  rewrite (get_lookup _ _ _ _ Hb). unfold sget. rewrite Hh. simpl.
  assert (String.eqb holder "" = false) as -> by by apply String.eqb_neq.
  simpl. by rewrite (get_lookup _ _ _ _ Hp).
Qed.

(** C2, as stated, fails: for path [warehouse, A, B, C] and holder B the
    route is [C, B], not [B, A]; it is the route carried by the decision
    that [_start_backtrace] puts into B's inbox. *)
Lemma C2_route_is_not_holder_to_front :
  let path := ["warehouse"; "A"; "B"; "C"] in
  let msg : Message :=
    {[ "message_type" := PStr "FORWARD_ANNOUNCEMENT"; "task_id" := PStr "T1";
       "path" := PList path;
       "best" := PDict {[ "bid" := SNum 50; "holder" := SStr "B" ]} ]} in
  MeshSimulator.backtrace_path path "B" = ["C"; "B"]
  ∧ MeshSimulator.backtrace_path path "B" ≠ ["B"; "A"]
  ∧ (λ w, (λ a, (λ m, m !! "backtrace_route") <$> VehicleAgent.inbox a)
            <$> MeshSimulator.agents w !! "B")
      <$> MeshSimulator._start_backtrace Sample.fleet3 msg 0
    = Some (Some [Some (PList ["C"; "B"])]).
Proof. split; [reflexivity|]. split; [discriminate | reflexivity]. Qed.

(** C2, amended: the backtrace route is the reverse of the part of the
    path that starts at the holder's first position: it starts at the last
    entry of the path and runs back to the holder, where it ends ([C, B]
    for path [warehouse, A, B, C] and holder B).  A holder absent from the
    path gives the one-element route [holder].  This route is the
    [backtrace_route] of the decision that [_start_backtrace] relays. *)
Theorem C2_backtrace_route (path : list string) (holder : string) :
  (holder ∉ path → MeshSimulator.backtrace_path path holder = [holder])
  ∧ (∀ pre suf, path = pre ++ holder :: suf → holder ∉ pre →
       MeshSimulator.backtrace_path path holder = reverse suf ++ [holder]
       ∧ last (MeshSimulator.backtrace_path path holder) = Some holder
       ∧ head (MeshSimulator.backtrace_path path holder) = last path)
  ∧ MeshSimulator.backtrace_path ["warehouse"; "A"; "B"; "C"] "B" = ["C"; "B"]
  ∧ (∀ self msg b t,
       msg !! "best" = Some (PDict b) →
       b !! "holder" = Some (SStr holder) →
       holder ≠ "" →
       msg !! "path" = Some (PList path) →
       ∃ decision,
         MeshSimulator._start_backtrace self msg t
         = Some (MeshSimulator.relay self
                   (MeshSimulator.backtrace_path path holder) decision)
         ∧ decision !! "backtrace_route"
           = Some (PList (MeshSimulator.backtrace_path path holder))
         ∧ decision !! "winner" = Some (PStr holder)).
Proof.
  split; [apply backtrace_path_absent|]. split; [|split; [reflexivity|]].
  - intros pre suf -> Hpre. rewrite backtrace_path_suffix by done.
    rewrite reverse_cons. split; [done|]. split.
    + by rewrite last_snoc.
    + rewrite <- reverse_cons, head_reverse.
      rewrite last_app.
      destruct (last (holder :: suf)) eqn:E; [done|].
      by apply last_None in E.
  - intros self msg b t Hb Hh Hne Hp. eexists. split.
    + by apply start_backtrace_route.
    + split; reflexivity.
Qed.

(** When the holder is the last entry of the path the route is [holder]
    alone, the relay loop has no iteration, and nobody is told. *)
Lemma start_backtrace_holder_last (self : MeshSimulator.t) (msg : Message)
    (b : gmap string scalar) (holder : string) (pre : list string) (t : Z) :
  msg !! "best" = Some (PDict b) →
  b !! "holder" = Some (SStr holder) →
  holder ≠ "" →
  msg !! "path" = Some (PList (pre ++ [holder])) →
  holder ∉ pre →
  MeshSimulator._start_backtrace self msg t = Some self.
Proof.
  intros Hb Hh Hne Hp Hpre.
  erewrite start_backtrace_route by done.
  by rewrite backtrace_path_suffix.
Qed.

Lemma filter_absent (k : string) (l : list string) :
  k ∉ l → filter (λ r, r = k) l = [].
Proof.
  induction l as [|x l IH]; [done|]. intros Hk.
  apply not_elem_of_cons in Hk as [Hne Hk].
  rewrite filter_cons_False by congruence. by apply IH.
Qed.

(** The relay hands one copy of the decision to every receiver on the
    route: a registered agent gets as many copies as it occurs among the
    receivers [backtrace_path[1:]]. *)
Lemma relay_inbox (receivers : list string) (self : MeshSimulator.t)
    (k : string) (a : VehicleAgent.t) (m : Message) :
  MeshSimulator.agents self !! k = Some a →
  is_Some (m !! "message_type") →
  ∃ a', MeshSimulator.agents
          (foldl (λ s receiver, MeshSimulator.deliver_to s receiver m)
             self receivers) !! k = Some a'
        ∧ VehicleAgent.inbox a'
          = VehicleAgent.inbox a
            ++ replicate (length (filter (λ r, r = k) receivers)) m.
Proof.
  intros Ha Hm. revert self a Ha.
  induction receivers as [|r receivers IH]; intros self a Ha; simpl.
  - exists a. by rewrite app_nil_r.
  - destruct (decide (r = k)) as [-> | Hne].
    + rewrite filter_cons_True by done. simpl.
      rewrite (deliver_to_registered _ _ _ _ Ha Hm).
      edestruct (IH (MeshSimulator.set_agents self
                       (<[k := VehicleAgent.set_inbox a
                                 (VehicleAgent.inbox a ++ [m])]>
                          (MeshSimulator.agents self)))) as (a' & Ha' & Hin).
      { simpl. apply lookup_insert_eq. }
      exists a'. split; [done|]. rewrite Hin. simpl.
      by rewrite <- app_assoc.
    + rewrite filter_cons_False by done.
      apply IH. unfold MeshSimulator.deliver_to.
      destruct (MeshSimulator.agents self !! r); simpl; [|done].
      by rewrite lookup_insert_ne.
Qed.

(** The winner gets the decision once when it is on the path (once) and
    not its last entry, and never when it is the last entry. *)
Lemma start_backtrace_winner_inbox (self self' : MeshSimulator.t)
    (msg : Message) (b : gmap string scalar) (holder : string)
    (pre suf : list string) (a : VehicleAgent.t) (t : Z) :
  msg !! "best" = Some (PDict b) →
  b !! "holder" = Some (SStr holder) →
  holder ≠ "" →
  msg !! "path" = Some (PList (pre ++ holder :: suf)) →
  holder ∉ pre → holder ∉ suf →
  MeshSimulator.agents self !! holder = Some a →
  MeshSimulator._start_backtrace self msg t = Some self' →
  ∃ a' decision,
    MeshSimulator.agents self' !! holder = Some a'
    ∧ decision !! "message_type" = Some (PStr "WINNER_DECISION")
    ∧ decision !! "winner" = Some (PStr holder)
    ∧ VehicleAgent.inbox a'
      = VehicleAgent.inbox a ++ (if suf is [] then [] else [decision]).
Proof.
  intros Hb Hh Hne Hp Hpre Hsuf Ha.
  erewrite start_backtrace_route by done. intros [= <-].
  rewrite backtrace_path_suffix by done.
  unfold MeshSimulator.relay.
  set (decision := MeshSimulator.winner_msg msg holder (PDict b)
                     (reverse (holder :: suf))).
  destruct (relay_inbox (drop 1 (reverse (holder :: suf))) self holder a
              decision Ha) as (a' & Ha' & Hin); [by eexists|].
  exists a', decision. split; [exact Ha'|]. split; [reflexivity|].
  split; [reflexivity|]. rewrite Hin. f_equal.
  rewrite reverse_cons.
  destruct suf as [|y suf']; [done|].
  destruct (reverse (y :: suf')) as [|x l] eqn:Er.
  { apply (f_equal length) in Er. rewrite length_reverse in Er. done. }
  simpl. rewrite drop_0, filter_app, filter_absent.
  - by rewrite filter_cons_True, filter_nil.
  - intros Hl. apply Hsuf. apply elem_of_reverse. rewrite Er. by right.
Qed.

(** C1 fails on the code where the winner is the last entry of the path.
    With the single vehicle A (capacity 10) and a task of weight 3, A
    becomes the holder, the traversal is complete with path [warehouse, A],
    and the final dispatch leaves every inbox empty: no WINNER_DECISION
    reaches A and A is never assigned the task.  The same happens in the
    ring [A, B] when only B can carry the load.  (When the holder is not
    the last entry, as for A in the ring [A, B, C], the decision reaches
    it.) *)
Theorem C1_last_holder_is_never_told :
  let announce := Announce "warehouse" (Sample.task "T1" 3) (Some 0%Z) in
  let forward := PStr "FORWARD_ANNOUNCEMENT" in
  let decision := PStr "WINNER_DECISION" in
  (queued <$> run Sample.fleet1 [announce; Deliver 0; AgentTurn "A" 0]
   = Some [("A", (forward, PList ["warehouse"; "A"], Some (SStr "A"), PNone))]
   ∧ (λ w, (queued w, inboxes w, assignments w))
       <$> run Sample.fleet1
             [announce; Deliver 0; AgentTurn "A" 0; Deliver 1; AgentTurn "A" 1]
     = Some ([], [("A", Some [])], [("A", Some [])]))
  ∧ (queued <$> run Sample.fleet_last
                  [announce; Deliver 0; AgentTurn "A" 0; Deliver 1;
                   AgentTurn "B" 1]
     = Some [("B", (forward, PList ["warehouse"; "A"; "B"], Some (SStr "B"),
                    PNone))]
     ∧ (λ w, (queued w, inboxes w, assignments w))
         <$> run Sample.fleet_last
               [announce; Deliver 0; AgentTurn "A" 0; Deliver 1;
                AgentTurn "B" 1; Deliver 2; AgentTurn "A" 2; AgentTurn "B" 2]
       = Some ([], [("A", Some []); ("B", Some [])],
               [("A", Some []); ("B", Some [])]))
  ∧ (inboxes <$> run Sample.fleet3
                   [announce; Deliver 0; AgentTurn "A" 0; Deliver 1;
                    AgentTurn "B" 1; Deliver 2; AgentTurn "C" 2; Deliver 3]
     = Some [("A", Some [(decision, PNone, Some (SStr "A"), PStr "A")]);
             ("B", Some [(decision, PNone, Some (SStr "A"), PStr "A")]);
             ("C", Some [])]).
Proof. repeat split; vm_compute; reflexivity. Qed.

(** ** Assignment *)

Lemma s_eq_refl (x : scalar) : s_eq x x = true.
Proof.
  destruct x as [| s | q]; simpl; [done | apply String.eqb_refl |].
  by apply Qeq_bool_iff.
Qed.

Lemma py_eq_refl (v : pyval) : py_eq v v = true.
Proof.
  destruct v as [x | l | d]; simpl.
  - apply s_eq_refl.
  - by apply bool_decide_eq_true_2.
  - unfold dict_eq. apply bool_decide_eq_true_2.
    intros i. destruct (d !! i) as [x|]; simpl; [apply s_eq_refl | done].
Qed.

Lemma existsb_snoc {A} (f : A → bool) (l : list A) (x : A) :
  existsb f (l ++ [x]) = existsb f l || f x.
Proof. rewrite existsb_app. simpl. by rewrite orb_false_r. Qed.

Lemma unique_by_task_id_snoc (l : list (pyval * pyval)) (task_id d : pyval) :
  unique_by_task_id l = true →
  existsb (λ t, py_eq t.1 task_id) l = false →
  unique_by_task_id (l ++ [(task_id, d)]) = true.
Proof.
  induction l as [|t l IH]; simpl; [done|].
  intros Hu Hex.
  apply andb_true_iff in Hu as [Ht Hu].
  apply orb_false_iff in Hex as [Hx Hex].
  rewrite existsb_snoc. simpl. rewrite Hx, orb_false_r, Ht. simpl.
  by apply IH.
Qed.

Lemma entries_for_absent (task_id : pyval) (l : list (pyval * pyval)) :
  existsb (λ t, py_eq t.1 task_id) l = false → entries_for task_id l = [].
Proof.
  induction l as [|t l IH]; simpl; [done|]. intros Hex.
  apply orb_false_iff in Hex as [Hx Hex]. rewrite Hx. by apply IH.
Qed.

Lemma handle_winner_decision_unique (self : VehicleAgent.t) (msg : Message) :
  unique_by_task_id (VehicleAgent.assigned_tasks self) = true →
  unique_by_task_id
    (VehicleAgent.assigned_tasks (VehicleAgent._handle_winner_decision self msg))
  = true.
Proof.
  intros Hu. unfold VehicleAgent._handle_winner_decision.
  destruct (py_eq_str _ _); [|done].
  destruct (existsb _ _) eqn:Hex; simpl; [done|].
  by apply unique_by_task_id_snoc.
Qed.

Lemma handle_winner_decision_present (self : VehicleAgent.t) (msg : Message) :
  existsb (λ t, py_eq t.1 (get msg "task_id" (PStr "")))
    (VehicleAgent.assigned_tasks self) = true →
  VehicleAgent._handle_winner_decision self msg = self.
Proof.
  intros Hex. unfold VehicleAgent._handle_winner_decision.
  rewrite Hex. simpl. by destruct (py_eq_str _ _).
Qed.

Section AgentRun.
Context {M : Type} (send : M → string → pyobj → option Z → M).

Lemma handle_message_unique (self self' : VehicleAgent.t) (msg : Message)
    (t : Z) (mesh mesh' : M) :
  VehicleAgent._handle_message send self msg t mesh = Some (self', mesh') →
  unique_by_task_id (VehicleAgent.assigned_tasks self) = true →
  unique_by_task_id (VehicleAgent.assigned_tasks self') = true.
Proof.
  unfold VehicleAgent._handle_message. intros H Hu.
  repeat (case_match; simplify_option_eq); try done.
  by apply handle_winner_decision_unique.
Qed.

Lemma process_inbox_unique (pending : list Message) (self self' : VehicleAgent.t)
    (t : Z) (mesh mesh' : M) :
  VehicleAgent.process_inbox send pending self t mesh = Some (self', mesh') →
  unique_by_task_id (VehicleAgent.assigned_tasks self) = true →
  unique_by_task_id (VehicleAgent.assigned_tasks self') = true.
Proof.
  revert self mesh.
  induction pending as [|msg rest IH]; simpl; intros self mesh H Hu.
  - by simplify_eq.
  - destruct (VehicleAgent._handle_message send _ msg t mesh)
      as [[self1 mesh1]|] eqn:E; simpl in H; [|done].
    eapply IH; [exact H|].
    eapply handle_message_unique; [exact E | done].
Qed.

End AgentRun.

Lemma s_eq_sym (x y : scalar) : s_eq x y = s_eq y x.
Proof.
  destruct x as [| a | p], y as [| b | q]; simpl; try done.
  - apply String.eqb_sym.
  - apply eq_true_iff_eq. rewrite !Qeq_bool_iff. split; intros H; by symmetry.
Qed.

Lemma s_eq_trans (x y z : scalar) :
  s_eq x y = true → s_eq y z = true → s_eq x z = true.
Proof.
  destruct x as [| a | p], y as [| b | q], z as [| c | r]; simpl; try done.
  - rewrite !String.eqb_eq. congruence.
  - rewrite !Qeq_bool_iff. intros H1 H2. by rewrite H1.
Qed.

Lemma dict_eq_spec (d1 d2 : gmap string scalar) :
  dict_eq d1 d2 = true ↔
  ∀ i, match d1 !! i, d2 !! i with
       | Some x, Some y => s_eq x y = true
       | None, None => True
       | _, _ => False
       end.
Proof.
  unfold dict_eq. rewrite bool_decide_eq_true. unfold map_relation.
  split; intros H i; specialize (H i);
    destruct (d1 !! i), (d2 !! i); simpl in *; done.
Qed.

Lemma py_eq_sym (v w : pyval) : py_eq v w = true → py_eq w v = true.
Proof.
  destruct v as [x | l | d], w as [y | l' | d']; simpl; try done.
  - by rewrite s_eq_sym.
  - rewrite !bool_decide_eq_true. congruence.
  - rewrite !dict_eq_spec. intros H i. specialize (H i).
    destruct (d !! i), (d' !! i); try done. by rewrite s_eq_sym.
Qed.

Lemma py_eq_trans (u v w : pyval) :
  py_eq u v = true → py_eq v w = true → py_eq u w = true.
Proof.
  destruct u as [x | l | d], v as [y | l' | d'], w as [z | l'' | d''];
    simpl; try done.
  - apply s_eq_trans.
  - rewrite !bool_decide_eq_true. congruence.
  - rewrite !dict_eq_spec. intros H1 H2 i.
    specialize (H1 i). specialize (H2 i).
    destruct (d !! i), (d' !! i), (d'' !! i); try done.
    by eapply s_eq_trans.
Qed.

(** In a list unique by task id, a task id has at most one entry. *)
Lemma unique_by_task_id_entries (task_id : pyval) (l : list (pyval * pyval)) :
  unique_by_task_id l = true → length (entries_for task_id l) ≤ 1.
Proof.
  induction l as [|t l IH]; simpl; [lia|]. intros Hu.
  apply andb_true_iff in Hu as [Ht Hu]. apply negb_true_iff in Ht.
  destruct (py_eq t.1 task_id) eqn:E; [|by apply IH].
  simpl. fold (entries_for task_id l).
  rewrite entries_for_absent; [simpl; lia|].
  destruct (existsb (λ u, py_eq u.1 task_id) l) eqn:Hex; [|done].
  apply existsb_exists in Hex as (u & Hin & Hu').
  assert (existsb (λ u, py_eq t.1 u.1) l = true) as Hc; [|congruence].
  apply existsb_exists. exists u. split; [done|].
  eapply py_eq_trans; [exact E|]. by apply py_eq_sym.
Qed.

Lemma entries_for_present (task_id : pyval) (l : list (pyval * pyval)) :
  existsb (λ t, py_eq t.1 task_id) l = true → 1 ≤ length (entries_for task_id l).
Proof.
  induction l as [|t l IH]; simpl; [done|]. intros Hex.
  destruct (py_eq t.1 task_id) eqn:E; simpl; [lia|]. by apply IH.
Qed.

(** C9: an agent handling a WINNER_DECISION that names it appends
    [(task_id, delivery)] to [assigned_tasks] only if no entry has that
    task id, and otherwise changes nothing; a second delivery of the
    decision, or of any decision with the same task id, is a no-op, and
    exactly one entry for the task id is left.  [assigned_tasks] stays
    unique by task id through the handler, through [receive] and through a
    whole [process_messages]. *)
Theorem C9_assignment_unique_and_idempotent (self : VehicleAgent.t)
    (msg : Message) :
  unique_by_task_id (VehicleAgent.assigned_tasks self) = true →
  get msg "winner" (PStr "") = PStr (VehicleAgent.id self) →
  let task_id := get msg "task_id" (PStr "") in
  let delivery := get msg "delivery" (PStr "") in
  let once := VehicleAgent._handle_winner_decision self msg in
  let twice := VehicleAgent._handle_winner_decision once msg in
  (existsb (λ t, py_eq t.1 task_id) (VehicleAgent.assigned_tasks self) = false →
     VehicleAgent.assigned_tasks once
     = VehicleAgent.assigned_tasks self ++ [(task_id, delivery)])
  ∧ (existsb (λ t, py_eq t.1 task_id) (VehicleAgent.assigned_tasks self) = true →
       once = self)
  ∧ twice = once
  ∧ (∀ msg2, py_eq task_id (get msg2 "task_id" (PStr "")) = true →
       VehicleAgent._handle_winner_decision once msg2 = once)
  ∧ length (entries_for task_id (VehicleAgent.assigned_tasks once)) = 1
  ∧ length (entries_for task_id (VehicleAgent.assigned_tasks twice)) = 1
  ∧ unique_by_task_id (VehicleAgent.assigned_tasks once) = true
  ∧ (∀ message, VehicleAgent.assigned_tasks (VehicleAgent.receive self message)
                = VehicleAgent.assigned_tasks self)
  ∧ (∀ (M : Type) (send : M → string → pyobj → option Z → M) t mesh self' mesh',
       VehicleAgent.process_messages send self t mesh = Some (self', mesh') →
       unique_by_task_id (VehicleAgent.assigned_tasks self') = true).
Proof.
  intros Hu Hw task_id delivery once twice.
  assert (existsb (λ t, py_eq t.1 task_id) (VehicleAgent.assigned_tasks once)
          = true) as Hin.
  { unfold once, VehicleAgent._handle_winner_decision.
    rewrite Hw. fold task_id.
    assert (py_eq_str (PStr (VehicleAgent.id self)) (VehicleAgent.id self) = true)
      as -> by by apply py_eq_str_true.
    destruct (existsb _ (VehicleAgent.assigned_tasks self)) eqn:Hex; simpl;
      [done|].
    rewrite existsb_snoc. simpl. by rewrite py_eq_refl, orb_true_r. }
  assert (unique_by_task_id (VehicleAgent.assigned_tasks once) = true) as Hu1
    by by apply handle_winner_decision_unique.
  assert (twice = once) as Htw by by apply handle_winner_decision_present.
  assert (length (entries_for task_id (VehicleAgent.assigned_tasks once)) = 1)
    as Hone.
  { pose proof (unique_by_task_id_entries task_id _ Hu1).
    pose proof (entries_for_present task_id _ Hin). lia. }
  split; [|split; [|split; [|split; [|split; [|split; [|split; [|split]]]]]]].
  - intros Hex. unfold once, VehicleAgent._handle_winner_decision.
    rewrite Hw. fold task_id delivery.
    assert (py_eq_str (PStr (VehicleAgent.id self)) (VehicleAgent.id self) = true)
      as -> by by apply py_eq_str_true.
    by rewrite Hex.
  - intros Hex. by apply handle_winner_decision_present.
  - exact Htw.
  - intros msg2 Heq. apply handle_winner_decision_present.
    apply existsb_exists in Hin as (u & Hu2 & Hu3).
    apply existsb_exists. exists u. split; [done|].
    by eapply py_eq_trans.
  - exact Hone.
  - by rewrite Htw.
  - exact Hu1.
  - intros message. unfold VehicleAgent.receive.
    destruct message; try done. by case_bool_decide.
  - intros M send t mesh self' mesh' Hrun.
    by eapply process_inbox_unique.
Qed.

Lemma C9_assignment_unique_and_idempotent_witness :
  let self := Sample.vehicle "B" 10 in
  let msg : Message :=
    {[ "message_type" := PStr "WINNER_DECISION"; "task_id" := PStr "T1";
       "winner" := PStr "B"; "delivery" := PStr "edge_7" ]} in
  VehicleAgent.assigned_tasks
    (VehicleAgent._handle_winner_decision
       (VehicleAgent._handle_winner_decision self msg) msg)
  = [(PStr "T1", PStr "edge_7")].
Proof.
  intros self msg.
  destruct (C9_assignment_unique_and_idempotent self msg)
    as (Happ & _ & Htwice & _); [reflexivity | reflexivity |].
  rewrite Htwice, Happ; reflexivity.
Defined.

(** ** The bid function *)

Lemma Qle_bool_false (x y : Q) : Qle_bool x y = false → (y < x)%Q.
Proof.
  intros H. apply Qnot_le_lt. intros Hle.
  apply Qle_bool_iff in Hle. congruence.
Qed.

Lemma Qle_bool_true_2 (x y : Q) : (x <= y)%Q → Qle_bool x y = true.
Proof. apply Qle_bool_iff. Qed.

Lemma Qle_bool_false_2 (x y : Q) : (y < x)%Q → Qle_bool x y = false.
Proof.
  intros H. destruct (Qle_bool x y) eqn:E; [|done].
  apply Qle_bool_iff in E. lra.
Qed.

Lemma Qlt_bool_true (x y : Q) : Qlt_bool x y = true ↔ (x < y)%Q.
Proof.
  unfold Qlt_bool. rewrite negb_true_iff. split.
  - apply Qle_bool_false.
  - apply Qle_bool_false_2.
Qed.

Lemma Qlt_bool_false (x y : Q) : Qlt_bool x y = false ↔ (y <= x)%Q.
Proof. unfold Qlt_bool. rewrite negb_false_iff. apply Qle_bool_iff. Qed.

(** Case analysis on a comparison [x <= y] of the code. *)
Ltac case_Qle x y H :=
  destruct (Qle_bool x y) eqn:H;
  [apply Qle_bool_iff in H | apply Qle_bool_false in H].

Lemma priority_multiplier_cases (self : VehicleAgent.t) (w : Q) :
  let pm := VehicleAgent._calculate_priority_multiplier self w in
  ((5 <= w)%Q → pm = 1 # 2)
  ∧ ((2 <= w)%Q → (w < 5)%Q → pm = 1%Q)
  ∧ ((w < 2)%Q → pm = 3 # 2).
Proof.
  unfold VehicleAgent._calculate_priority_multiplier.
  case_Qle 5%Q w E5; case_Qle 2%Q w E2;
    repeat split; intros; try done; lra.
Qed.

Lemma capacity_penalty_cases (self : VehicleAgent.t) :
  let cp := VehicleAgent._calculate_capacity_penalty self in
  ((VehicleAgent.capacity self <= 0)%Q → cp = 1%Q)
  ∧ ((0 < VehicleAgent.capacity self)%Q →
       (cp == 1 + 2 * (VehicleAgent.load self / VehicleAgent.capacity self))%Q).
Proof.
  unfold VehicleAgent._calculate_capacity_penalty.
  case_Qle (VehicleAgent.capacity self) 0%Q E;
    split; intros; try done; lra.
Qed.

Lemma time_penalty_cases (self : VehicleAgent.t) (task_info : gmap string pyval)
    (base_cost now : Q) (current_time : pyval) (due : option Q) :
  get task_info "due_by" PNone = from_option (λ d, PNum d) PNone due →
  (is_Some due → current_time = PNum now) →
  ∃ tp, VehicleAgent._calculate_time_penalty self task_info base_cost current_time
        = Some tp
    ∧ match due with
      | None => tp = 1%Q
      | Some d =>
          let slack := (d - (now + base_cost / 10))%Q in
          ((slack <= 0)%Q → (tp == 6)%Q)
          ∧ ((0 < slack)%Q → (slack <= 100)%Q → tp = 3%Q)
          ∧ ((100 < slack)%Q → (slack <= 300)%Q → tp = 3 # 2)
          ∧ ((300 < slack)%Q → tp = 1%Q)
      end.
Proof.
  intros Hdue Hnow. unfold VehicleAgent._calculate_time_penalty.
  rewrite Hdue. destruct due as [d|]; simpl; [|by eexists].
  rewrite Hnow by by eexists. simpl.
  set (slack := (d - (now + base_cost / 10))%Q).
  case_Qle slack 0%Q E0; [|case_Qle slack 100%Q E1; [|case_Qle slack 300%Q E3]];
    (eexists; split; [done|]; repeat split; intros; try done; lra).
Qed.

(** C4: when the capacity gate passes and the base cost is below
    VERY_HIGH_BID, [compute_bid] returns [base_cost * priority_mult *
    capacity_penalty * time_penalty] clamped to at most VERY_HIGH_BID, with
    the three factors chosen by the task weight, by the load ratio and by
    the slack [due_by - (current_time + base_cost / 10)] as the claim
    lists them ([due] is the task's [due_by], if any). *)
Theorem C4_compute_bid_formula (self : VehicleAgent.t)
    (task_info network_info : gmap string pyval) (w now : Q) (due : option Q) :
  get task_info "weight" (PNum 0) = PNum w →
  get task_info "due_by" PNone = from_option (λ d, PNum d) PNone due →
  (is_Some due → get network_info "current_time" (PNum 0) = PNum now) →
  (VehicleAgent.load self + w <= VehicleAgent.capacity self)%Q →
  let base_cost :=
    VehicleAgent._calculate_base_cost self
      (get network_info "current_edge" (PStr "warehouse"))
      (get task_info "delivery" (PStr "")) network_info in
  (base_cost < VehicleAgent.VERY_HIGH_BID)%Q →
  ∃ priority_mult capacity_penalty time_penalty : Q,
    VehicleAgent.compute_bid self task_info network_info
    = Some (Qmin (base_cost * priority_mult * capacity_penalty * time_penalty)
              VehicleAgent.VERY_HIGH_BID)
    ∧ (Qmin (base_cost * priority_mult * capacity_penalty * time_penalty)
         VehicleAgent.VERY_HIGH_BID <= VehicleAgent.VERY_HIGH_BID)%Q
    ∧ (((5 <= w)%Q → priority_mult = 1 # 2)
       ∧ ((2 <= w)%Q → (w < 5)%Q → priority_mult = 1%Q)
       ∧ ((w < 2)%Q → priority_mult = 3 # 2))
    ∧ (((VehicleAgent.capacity self <= 0)%Q → capacity_penalty = 1%Q)
       ∧ ((0 < VehicleAgent.capacity self)%Q →
            (capacity_penalty
             == 1 + 2 * (VehicleAgent.load self / VehicleAgent.capacity self))%Q))
    ∧ match due with
      | None => time_penalty = 1%Q
      | Some d =>
          let slack := (d - (now + base_cost / 10))%Q in
          ((slack <= 0)%Q → (time_penalty == 6)%Q)
          ∧ ((0 < slack)%Q → (slack <= 100)%Q → time_penalty = 3%Q)
          ∧ ((100 < slack)%Q → (slack <= 300)%Q → time_penalty = 3 # 2)
          ∧ ((300 < slack)%Q → time_penalty = 1%Q)
      end.
Proof.
  intros Hw Hdue Hnow Hcap base_cost Hbase.
  destruct (time_penalty_cases self task_info base_cost now
              (get network_info "current_time" (PNum 0)) due Hdue Hnow)
    as (tp & Htp & Hcases).
  exists (VehicleAgent._calculate_priority_multiplier self w),
         (VehicleAgent._calculate_capacity_penalty self), tp.
  split; [|split; [apply Q.le_min_r|split; [apply priority_multiplier_cases|
    split; [apply capacity_penalty_cases|exact Hcases]]]].
  unfold VehicleAgent.compute_bid. rewrite Hw.
  change (py_float (PNum w)) with (Some w).
  unfold mbind, option_bind at 1.
  unfold VehicleAgent.has_capacity.
  rewrite (Qle_bool_true_2 _ _ Hcap).
  change (negb true) with false. cbv iota.
  fold base_cost. rewrite (Qle_bool_false_2 _ _ Hbase).
  by rewrite Htp.
Qed.

Lemma C4_compute_bid_formula_witness :
  ∃ bid, VehicleAgent.compute_bid (Sample.vehicle "A" 10)
           (<["due_by" := PNum 50]> (Sample.task "T1" 3))
           {[ "current_time" := PNum 0 ]} = Some bid
         ∧ (bid == 300)%Q.
Proof.
  destruct (C4_compute_bid_formula (Sample.vehicle "A" 10)
              (<["due_by" := PNum 50]> (Sample.task "T1" 3))
              {[ "current_time" := PNum 0 ]} 3 0 (Some 50%Q))
    as (pm & cp & tp & Hbid & _).
  - reflexivity.
  - reflexivity.
  - reflexivity.
  - vm_compute. discriminate.
  - reflexivity.
  - eexists. split; [reflexivity | reflexivity].
Defined.

(** ** One hop: the agent's reply *)

Lemma forward_msg_inv (self : VehicleAgent.t) (m m' : Message) (t : Z) :
  VehicleAgent.forward_msg self m t = Some m' →
  ∃ (wt bid cur : Q) (b : gmap string scalar),
    py_float (get m "weight" (PNum 0)) = Some wt
    ∧ bid_for self m t = Some bid
    ∧ get m "best" default_best = PDict b
    ∧ best_bid m = Some cur
    ∧ get m' "message_type" PNone = PStr "FORWARD_ANNOUNCEMENT"
    ∧ m' !! "weight" = Some (PNum wt)
    ∧ m' !! "best"
      = Some (if Qlt_bool bid cur
              then PDict {[ "bid" := SNum bid;
                            "holder" := SStr (VehicleAgent.id self) ]}
              else PDict b)
    ∧ (∀ p, get m "path" (PList []) = PList p →
            m' !! "path"
            = Some (PList (if bool_decide (VehicleAgent.id self ∈ p)
                           then p else p ++ [VehicleAgent.id self]))).
Proof.
  unfold VehicleAgent.forward_msg, bid_for, best_bid. intros H.
  destruct (py_float (get m "weight" (PNum 0))) as [wt|] eqn:Ew;
    simpl in H; [|done].
  destruct (VehicleAgent.compute_bid self _ _) as [bid|] eqn:Ebid;
    simpl in H; [|done].
  fold default_best in H.
  destruct (get m "best" default_best) as [x | l | b] eqn:Eb; try done.
  destruct (s_float (sget b "bid" (SNum VehicleAgent.VERY_HIGH_BID)))
    as [cur|] eqn:Ecur; simpl in H; [|done].
  destruct (py_contains (get m "path" (PList [])) (VehicleAgent.id self))
    as [present|] eqn:Ec; simpl in H; [|done].
  exists wt, bid, cur, b. simpl. rewrite Ebid.
  repeat (split; [done|]).
  destruct (get m "path" (PList [])) as [x | p | d] eqn:Ep; simpl in Ec;
    try done; injection Ec as <-.
  - case_bool_decide as Hin; simpl in H; injection H as <-;
      (split; [reflexivity|]); (split; [reflexivity|]);
      (split; [reflexivity|]); intros p' [= <-].
    + by rewrite (bool_decide_eq_true_2 _ Hin).
    + by rewrite (bool_decide_eq_false_2 _ Hin).
  - case_bool_decide; simpl in H; [|done]. injection H as <-.
    repeat split; try reflexivity. intros p' [=].
Qed.

Lemma best_bid_lookup (m : Message) (b : gmap string scalar) (q : Q) :
  m !! "best" = Some (PDict b) → b !! "bid" = Some (SNum q) →
  best_bid m = Some q.
Proof.
  intros Hb Hq. unfold best_bid. rewrite (get_lookup _ _ _ _ Hb).
  unfold sget. by rewrite Hq.
Qed.

Lemma forward_msg_best_bid (self : VehicleAgent.t) (m m' : Message) (t : Z) :
  VehicleAgent.forward_msg self m t = Some m' →
  ∃ bid cur,
    bid_for self m t = Some bid
    ∧ best_bid m = Some cur
    ∧ best_bid m' = Some (if Qlt_bool bid cur then bid else cur).
Proof.
  intros H.
  destruct (forward_msg_inv _ _ _ _ H)
    as (wt & bid & cur & b & _ & Hbid & Hb & Hcur & _ & _ & Hbest & _).
  exists bid, cur. split; [done|]. split; [done|].
  unfold best_bid. rewrite (get_lookup _ _ _ _ Hbest).
  destruct (Qlt_bool bid cur); [reflexivity|].
  unfold best_bid in Hcur. by rewrite Hb in Hcur.
Qed.

Lemma hop_relay_best (m : Message) (path : pyval) :
  get (<["path" := path]> m) "best" default_best = get m "best" default_best.
Proof. unfold get. by rewrite lookup_insert_ne. Qed.

Lemma hop_best_bid (mesh : MeshSimulator.t) (m m' : Message) (q : Q) :
  hop mesh m m' → best_bid m = Some q →
  ∃ q', best_bid m' = Some q' ∧ (q' <= q)%Q.
Proof.
  intros Hhop Hq. destruct Hhop as [self t m m' H | p last_agent next m].
  - destruct (forward_msg_best_bid _ _ _ _ H) as (bid & cur & _ & Hcur & Hb').
    rewrite Hq in Hcur. injection Hcur as <-.
    eexists. split; [exact Hb'|].
    destruct (Qlt_bool bid q) eqn:E; [|lra].
    apply Qlt_bool_true in E. lra.
  - exists q. split; [|lra].
    unfold best_bid in *. by rewrite hop_relay_best.
Qed.

(** What the fabric does with a FORWARD_ANNOUNCEMENT: nothing on an empty
    path, the relay to the next unvisited ring member, or the backtrace. *)
Lemma mesh_forward_cases (self self' : MeshSimulator.t) (sender : string)
    (msg : Message) (t : Z) :
  MeshSimulator._handle_forward_announcement self sender msg t = Some self' →
  (truthy (get msg "path" (PList [])) = false ∧ self' = self)
  ∨ (∃ p last_agent next,
       get msg "path" (PList []) = PList p
       ∧ last p = Some last_agent
       ∧ MeshSimulator._find_next_in_ring self last_agent p = Some next
       ∧ next ≠ ""
       ∧ self' = MeshSimulator.deliver_to self next
                   (<["path" := PList (p ++ [next])]> msg))
  ∨ (∃ p, get msg "path" (PList []) = PList p
          ∧ MeshSimulator._start_backtrace self msg t = Some self').
Proof.
  unfold MeshSimulator._handle_forward_announcement. intros H.
  destruct (truthy (get msg "path" (PList []))) eqn:Et; simpl in H;
    [|left; split; [done | congruence]].
  right.
  destruct (get msg "path" (PList [])) as [x | p | d] eqn:Ep; try done.
  destruct (last p) as [last_agent|] eqn:El; simpl in H; [|done].
  destruct (MeshSimulator._find_next_in_ring self last_agent p)
    as [next|] eqn:En.
  - destruct (String.eqb next "") eqn:Ee.
    + right. by exists p.
    + left. exists p, last_agent, next. apply String.eqb_neq in Ee.
      repeat split; try done. congruence.
  - right. by exists p.
Qed.

(** The agent's handler always computes a bid for a numeric weight: its
    call of [compute_bid] hands over no [due_by]. *)
Lemma bid_for_total (self : VehicleAgent.t) (msg : Message) (t : Z) (wt : Q) :
  py_float (get msg "weight" (PNum 0)) = Some wt →
  is_Some (bid_for self msg t).
Proof.
  intros Hw. unfold bid_for. rewrite Hw.
  unfold mbind, option_bind at 1. unfold VehicleAgent.compute_bid.
  change (get _ "weight" (PNum 0)) with (PNum wt).
  change (py_float (PNum wt)) with (Some wt).
  unfold mbind, option_bind at 1.
  destruct (VehicleAgent.has_capacity self wt); [|by eexists].
  change (negb true) with false. cbv iota.
  unfold VehicleAgent._calculate_base_cost.
  change (Qle_bool VehicleAgent.VERY_HIGH_BID 100) with false. cbv iota.
  by eexists.
Qed.

(** For a message with a numeric weight, a dict [best] with a numeric bid
    and a list as path, the handler builds its reply. *)
Lemma forward_msg_replies (self : VehicleAgent.t) (msg : Message) (t : Z)
    (wt cur : Q) (b : gmap string scalar) (p : list string) :
  py_float (get msg "weight" (PNum 0)) = Some wt →
  get msg "best" default_best = PDict b →
  s_float (sget b "bid" (SNum VehicleAgent.VERY_HIGH_BID)) = Some cur →
  get msg "path" (PList []) = PList p →
  is_Some (VehicleAgent.forward_msg self msg t).
Proof.
  intros Hw Hb Hcur Hp.
  destruct (bid_for_total self msg t wt Hw) as [bid Hbid].
  unfold bid_for in Hbid. rewrite Hw in Hbid.
  unfold mbind, option_bind at 1 in Hbid.
  unfold VehicleAgent.forward_msg. rewrite Hw.
  unfold mbind, option_bind at 1. rewrite Hbid.
  unfold mbind, option_bind at 1.
  unfold default_best in Hb. rewrite Hb, Hcur, Hp. simpl.
  by case_bool_decide.
Qed.

(** C6: an agent that handles a FORWARD_ANNOUNCEMENT (numeric weight, a
    dict [best] with a numeric bid, a list as path) sends exactly one
    reply to the fabric, under its own id, and stays as it is; the reply
    carries [{bid, holder: its id}] as [best] when the agent's bid is
    strictly below the best bid of the message, and the [best] of the
    message otherwise: on a tie the incumbent holder stays.  The fabric
    relays [best] unchanged.  Hence the best bid never increases from one
    FORWARD_ANNOUNCEMENT of a task to the next, over any number of
    hops. *)
Theorem C6_best_bid_monotone (self : VehicleAgent.t) (mesh : MeshSimulator.t)
    (msg : Message) (t : Z) (wt cur : Q) (b : gmap string scalar)
    (p : list string) :
  is_forward msg →
  py_float (get msg "weight" (PNum 0)) = Some wt →
  get msg "best" default_best = PDict b →
  s_float (sget b "bid" (SNum VehicleAgent.VERY_HIGH_BID)) = Some cur →
  get msg "path" (PList []) = PList p →
  (∃ bid m',
     bid_for self msg t = Some bid
     ∧ VehicleAgent._handle_forward_announcement MeshSimulator.send self msg t
         mesh
       = Some (MeshSimulator.set_message_queue mesh
                 (MeshSimulator.message_queue mesh
                  ++ [(VehicleAgent.id self, m', Some t)]))
     ∧ VehicleAgent._handle_message MeshSimulator.send self msg t mesh
       = Some (self,
               MeshSimulator.set_message_queue mesh
                 (MeshSimulator.message_queue mesh
                  ++ [(VehicleAgent.id self, m', Some t)]))
     ∧ is_forward m'
     ∧ hop mesh msg m'
     ∧ ((bid < cur)%Q →
          m' !! "best"
          = Some (PDict {[ "bid" := SNum bid;
                           "holder" := SStr (VehicleAgent.id self) ]}))
     ∧ ((cur <= bid)%Q → m' !! "best" = Some (PDict b))
     ∧ best_bid msg = Some cur
     ∧ best_bid m' = Some (if Qlt_bool bid cur then bid else cur)
     ∧ ∃ q', best_bid m' = Some q' ∧ (q' <= cur)%Q ∧ (q' <= bid)%Q)
  ∧ (∀ sender t msg mesh',
       MeshSimulator._handle_forward_announcement mesh sender msg t = Some mesh' →
       mesh' = mesh
       ∨ (∃ next m', hop mesh msg m'
                     ∧ m' !! "best" = msg !! "best"
                     ∧ mesh' = MeshSimulator.deliver_to mesh next m')
       ∨ MeshSimulator._start_backtrace mesh msg t = Some mesh')
  ∧ (∀ m m' q, rtc (hop mesh) m m' → best_bid m = Some q →
               ∃ q', best_bid m' = Some q' ∧ (q' <= q)%Q).
Proof.
  intros Hf Hw Hb Hcur Hp.
  split; [|split].
  - destruct (forward_msg_replies self msg t wt cur b p Hw Hb Hcur Hp)
      as [m' Hm'].
    destruct (forward_msg_inv _ _ _ _ Hm')
      as (wt' & bid & cur' & b' & _ & Hbid & Hb' & Hcur' & Hty & _ & Hbest & _).
    rewrite Hb in Hb'. injection Hb' as <-.
    assert (best_bid msg = Some cur) as Hbb
      by (unfold best_bid; by rewrite Hb).
    rewrite Hbb in Hcur'. injection Hcur' as <-.
    assert (VehicleAgent._handle_forward_announcement MeshSimulator.send self
              msg t mesh
            = Some (MeshSimulator.set_message_queue mesh
                      (MeshSimulator.message_queue mesh
                       ++ [(VehicleAgent.id self, m', Some t)]))) as Hsend.
    { unfold VehicleAgent._handle_forward_announcement. rewrite Hm'.
      unfold mbind, option_bind. unfold MeshSimulator.send.
      assert (is_Some (m' !! "message_type")) as Hsome.
      { unfold get in Hty. by destruct (m' !! "message_type"). }
      by rewrite (bool_decide_eq_true_2 _ Hsome). }
    assert (best_bid m' = Some (if Qlt_bool bid cur then bid else cur))
      as Hbb'.
    { unfold best_bid. rewrite (get_lookup _ _ _ _ Hbest).
      destruct (Qlt_bool bid cur); [reflexivity|].
      unfold best_bid in Hbb. by rewrite Hb in Hbb. }
    exists bid, m'. split; [done|]. split; [done|]. split.
    { unfold VehicleAgent._handle_message. rewrite Hf.
      change (py_eq_str _ "TASK_ANNOUNCEMENT") with false. cbv iota.
      change (py_eq_str _ "FORWARD_ANNOUNCEMENT") with true. cbv iota.
      rewrite Hsend. reflexivity. }
    split; [done|]. split; [by eapply hop_bid|].
    split.
    { intros Hlt. apply Qlt_bool_true in Hlt. by rewrite Hlt in Hbest. }
    split.
    { intros Hle. apply Qlt_bool_false in Hle. by rewrite Hle in Hbest. }
    split; [done|]. split; [done|].
    eexists. split; [exact Hbb'|].
    destruct (Qlt_bool bid cur) eqn:E.
    + apply Qlt_bool_true in E. lra.
    + apply Qlt_bool_false in E. lra.
  - intros sender t0 msg0 mesh' H.
    destruct (mesh_forward_cases _ _ _ _ _ H)
      as [[_ ->] | [(p0 & la & next & Hp0 & Hl & Hn & Hne & ->) | (p0 & _ & Hbt)]].
    + by left.
    + right. left. exists next, (<["path" := PList (p0 ++ [next])]> msg0).
      split; [by eapply hop_relay|]. split; [|done].
      by rewrite lookup_insert_ne.
    + by right; right.
  - intros m m' q Hrtc. revert q.
    induction Hrtc as [m | m m1 m' Hhop _ IH]; intros q Hq.
    + exists q. split; [done | lra].
    + destruct (hop_best_bid _ _ _ _ Hhop Hq) as (q1 & Hq1 & Hle1).
      destruct (IH _ Hq1) as (q' & Hq' & Hle'). exists q'. split; [done | lra].
Qed.

Lemma C6_best_bid_monotone_witness :
  let msg : Message :=
    {[ "message_type" := PStr "FORWARD_ANNOUNCEMENT"; "task_id" := PStr "T1";
       "weight" := PNum 3; "path" := PList ["warehouse"; "A"; "B"];
       "best" := PDict {[ "bid" := SNum 100; "holder" := SStr "A" ]} ]} in
  let B := Sample.vehicle "B" 10 in
  is_forward msg
  ∧ best_bid msg = Some 100%Q
  ∧ ∃ bid m',
      bid_for B msg 1 = Some bid
      ∧ (100 <= bid)%Q
      ∧ VehicleAgent._handle_forward_announcement MeshSimulator.send B msg 1
          Sample.fleet3
        = Some (MeshSimulator.set_message_queue Sample.fleet3
                  [("B", m', Some 1%Z)])
      ∧ m' !! "best"
        = Some (PDict {[ "bid" := SNum 100; "holder" := SStr "A" ]}).
Proof.
  intros msg B.
  assert (is_forward msg) as Hf by reflexivity.
  assert (py_float (get msg "weight" (PNum 0)) = Some 3%Q) as Hw
    by reflexivity.
  assert (get msg "best" default_best
          = PDict {[ "bid" := SNum 100; "holder" := SStr "A" ]}) as Hb
    by reflexivity.
  assert (s_float (sget ({[ "bid" := SNum 100; "holder" := SStr "A" ]}
                           : gmap string scalar) "bid"
                     (SNum VehicleAgent.VERY_HIGH_BID)) = Some 100%Q) as Hcur
    by reflexivity.
  assert (get msg "path" (PList []) = PList ["warehouse"; "A"; "B"]) as Hp
    by reflexivity.
  destruct (C6_best_bid_monotone B Sample.fleet3 msg 1 3 100 _ _
              Hf Hw Hb Hcur Hp)
    as [(bid & m' & Hbid & Hsend & _ & _ & _ & _ & Htie & Hbb & _) _].
  split; [exact Hf|]. split; [exact Hbb|].
  assert (100 <= bid)%Q as Hle.
  { assert (bid_for B msg 1 = Some (100 * 1 * (1 + 0 / 10 * 2) * 1)%Q)
      as Hbid' by (vm_compute; reflexivity).
    rewrite Hbid in Hbid'. injection Hbid' as ->. by vm_compute. }
  exists bid, m'. split; [exact Hbid|]. split; [exact Hle|].
  split; [exact Hsend|]. exact (Htie Hle).
Defined.

(** ** The next ring member *)

Lemma scan_ring_spec (ring path : list string) (idx : nat)
    (offsets : list nat) (next : string) :
  MeshSimulator.scan_ring ring idx path offsets = Some next →
  next ∈ ring ∧ next ∉ path.
Proof.
  induction offsets as [|offset rest IH]; simpl; [done|].
  destruct (ring !! ((idx + offset) mod length ring)) as [candidate|] eqn:E;
    [|done].
  case_bool_decide as Hin; simpl; [by apply IH|].
  intros [= <-]. split; [|done]. by eapply list_elem_of_lookup_2.
Qed.

Lemma find_next_in_ring_spec (self : MeshSimulator.t) (current next : string)
    (path : list string) :
  MeshSimulator._find_next_in_ring self current path = Some next →
  next ∈ MeshSimulator.ring self ∧ next ∉ path.
Proof.
  unfold MeshSimulator._find_next_in_ring.
  destruct (String.eqb current "warehouse").
  - intros H. apply find_some in H as [Hin Hf].
    split; [by apply list_elem_of_In|].
    apply negb_true_iff in Hf. by apply bool_decide_eq_false in Hf.
  - destruct (negb _); [done|].
    destruct (list_index current _) as [idx|]; simpl; [|done].
    apply scan_ring_spec.
Qed.

(** ** Feasible and infeasible bids *)

Lemma compute_bid_le (self : VehicleAgent.t)
    (task_info network_info : gmap string pyval) (bid : Q) :
  VehicleAgent.compute_bid self task_info network_info = Some bid →
  (bid <= VehicleAgent.VERY_HIGH_BID)%Q.
Proof.
  unfold VehicleAgent.compute_bid.
  destruct (py_float _) as [w|]; [|done].
  unfold mbind, option_bind at 1.
  destruct (negb (VehicleAgent.has_capacity self w));
    [intros [= <-]; apply Qle_refl|].
  destruct (Qle_bool VehicleAgent.VERY_HIGH_BID _);
    [intros [= <-]; apply Qle_refl|].
  destruct (VehicleAgent._calculate_time_penalty _ _ _ _) as [tp|]; [|done].
  intros [= <-]. apply Q.le_min_r.
Qed.

Lemma compute_bid_infeasible (self : VehicleAgent.t)
    (task_info network_info : gmap string pyval) (w : Q) :
  get task_info "weight" (PNum 0) = PNum w →
  (VehicleAgent.capacity self < VehicleAgent.load self + w)%Q →
  VehicleAgent.compute_bid self task_info network_info
  = Some VehicleAgent.VERY_HIGH_BID.
Proof.
  intros Hw Hcap. unfold VehicleAgent.compute_bid. rewrite Hw.
  change (py_float (PNum w)) with (Some w).
  unfold mbind, option_bind at 1. unfold VehicleAgent.has_capacity.
  by rewrite (Qle_bool_false_2 _ _ Hcap).
Qed.

Lemma compute_bid_feasible (self : VehicleAgent.t)
    (task_info network_info : gmap string pyval) (w bid : Q) :
  get task_info "weight" (PNum 0) = PNum w →
  VehicleAgent.compute_bid self task_info network_info = Some bid →
  (bid < VehicleAgent.VERY_HIGH_BID)%Q →
  VehicleAgent.has_capacity self w = true.
Proof.
  intros Hw Hbid Hlt.
  destruct (VehicleAgent.has_capacity self w) eqn:E; [done|].
  unfold VehicleAgent.has_capacity in E. apply Qle_bool_false in E.
  rewrite (compute_bid_infeasible _ _ _ _ Hw E) in Hbid.
  injection Hbid as <-. lra.
Qed.

(** ** The invariant is kept by every call *)

Lemma receive_static (a : VehicleAgent.t) (message : pyobj) :
  static (VehicleAgent.receive a message) = static a.
Proof.
  unfold VehicleAgent.receive. destruct message; try done.
  by case_bool_decide.
Qed.

Lemma receive_inbox (a : VehicleAgent.t) (m m' : Message) :
  m' ∈ VehicleAgent.inbox (VehicleAgent.receive a (ODict m)) →
  m' ∈ VehicleAgent.inbox a ∨ m' = m.
Proof.
  unfold VehicleAgent.receive. case_bool_decide; simpl; [|by left].
  rewrite elem_of_app, list_elem_of_singleton. tauto.
Qed.

Lemma forward_not_decision (m : Message) : is_forward m → ¬ is_decision m.
Proof. unfold is_forward, is_decision. intros -> [=]. Qed.

Lemma handle_winner_decision_static (self : VehicleAgent.t) (msg : Message) :
  static (VehicleAgent._handle_winner_decision self msg) = static self
  ∧ VehicleAgent.inbox (VehicleAgent._handle_winner_decision self msg)
    = VehicleAgent.inbox self.
Proof.
  unfold VehicleAgent._handle_winner_decision.
  destruct (py_eq_str _ _); [|done]. by destruct (negb _).
Qed.

Lemma has_capacity_static (a a0 : VehicleAgent.t) (w : Q) :
  static a = static a0 →
  VehicleAgent.has_capacity a w = VehicleAgent.has_capacity a0 w.
Proof.
  unfold static, VehicleAgent.has_capacity. by intros [= _ -> ->].
Qed.

Section InvariantProofs.
Variable fleet : gmap string VehicleAgent.t.
Variable ring0 : list string.
Hypothesis keyed : ∀ k a, fleet !! k = Some a → VehicleAgent.id a = k.

(** *** The fabric *)

Lemma set_message_queue_ok w q :
  world_ok fleet ring0 w →
  (∀ s m t, (s, m, t) ∈ q → message_ok fleet ring0 m) →
  world_ok fleet ring0 (MeshSimulator.set_message_queue w q).
Proof. intros [H1 H2 H3 H4] Hq. by constructor. Qed.

Lemma deliver_to_ok w k m :
  world_ok fleet ring0 w → delivered_ok fleet ring0 k m →
  world_ok fleet ring0 (MeshSimulator.deliver_to w k m).
Proof.
  intros Hw Hm. unfold MeshSimulator.deliver_to.
  destruct (MeshSimulator.agents w !! k) as [a|] eqn:Ea; [|done].
  destruct Hw as [H1 H2 H3 H4]. constructor; simpl; try done.
  - intros k'. destruct (decide (k = k')) as [<- | Hne].
    + rewrite lookup_insert_eq, <- H2, Ea. by case_bool_decide.
    + by rewrite lookup_insert_ne.
  - intros k' a' m'. destruct (decide (k = k')) as [<- | Hne].
    + rewrite lookup_insert_eq. intros [= <-] Hin.
      apply (receive_inbox a m m') in Hin as [Hin | ->]; [by eapply H4 | done].
    + rewrite lookup_insert_ne by done. apply H4.
Qed.

Lemma decision_delivered_ok k m :
  is_decision m → decision_ok ring0 m → delivered_ok fleet ring0 k m.
Proof.
  intros Hd Hok. split; [split|]; try done.
  - intros Hf. by destruct (forward_not_decision m Hf).
  - intros Hf. by destruct (forward_not_decision m Hf).
Qed.

Lemma relay_ok w bp m :
  world_ok fleet ring0 w → is_decision m → decision_ok ring0 m →
  world_ok fleet ring0 (MeshSimulator.relay w bp m).
Proof.
  intros Hw Hd Hok. unfold MeshSimulator.relay.
  generalize (drop 1 bp). intros receivers. revert w Hw.
  induction receivers as [|r receivers IH]; simpl; intros w Hw; [done|].
  apply IH. apply deliver_to_ok; [done|]. by apply decision_delivered_ok.
Qed.

Lemma assign_sod_task_ok w msg t :
  world_ok fleet ring0 w →
  world_ok fleet ring0 (MeshSimulator._assign_sod_task w msg t).
Proof.
  intros Hw. unfold MeshSimulator._assign_sod_task.
  destruct (MeshSimulator.ring w) as [|r0 ring'] eqn:Er; [done|].
  destruct ((r0 :: ring') !! _) as [winner|] eqn:Ew; [|done].
  apply deliver_to_ok.
  - destruct Hw as [H1 H2 H3 H4]. by constructor.
  - apply decision_delivered_ok; [reflexivity|].
    exists winner. split; [reflexivity|].
    rewrite <- (ok_ring _ _ _ Hw), Er. by eapply list_elem_of_lookup_2.
Qed.

Lemma forward_to_ring_ok w msg t :
  world_ok fleet ring0 w →
  world_ok fleet ring0 (MeshSimulator._forward_to_ring w msg t).
Proof.
  intros Hw. unfold MeshSimulator._forward_to_ring.
  destruct (MeshSimulator.ring w) as [|first_agent ring'] eqn:Er; [done|].
  assert (first_agent ∈ ring0) as Hfirst.
  { rewrite <- (ok_ring _ _ _ Hw), Er. by left. }
  apply deliver_to_ok; [done|]. split; [split|].
  - intros _. eexists [first_agent], _, MeshSimulator.VERY_HIGH_BID.
    split; [reflexivity|]. split; [apply NoDup_singleton|].
    split; [by intros k ->%list_elem_of_singleton|].
    split; [reflexivity|]. split; [reflexivity|].
    split; [apply Qle_refl|]. by left.
  - intros [=].
  - intros _. exists [first_agent]. split; [reflexivity|]. by left.
Qed.

Lemma start_backtrace_ok w w' msg t :
  world_ok fleet ring0 w → forward_ok fleet ring0 msg →
  MeshSimulator._start_backtrace w msg t = Some w' →
  world_ok fleet ring0 w'.
Proof.
  intros Hw (rest & b & q & Hp & Hnd & Hring & Hb & Hq & Hle & Hh).
  unfold MeshSimulator._start_backtrace.
  rewrite (get_lookup _ _ _ _ Hb), (get_lookup _ _ _ _ Hp). unfold sget.
  destruct Hh as [-> | (h & -> & Hin & Hc)]; simpl; [by intros [= <-]|].
  destruct (String.eqb h ""); simpl; intros [= <-]; [done|].
  apply relay_ok; [done | reflexivity |].
  exists h. split; [reflexivity | by apply Hring].
Qed.

Lemma mesh_handle_forward_ok w w' sender msg t :
  world_ok fleet ring0 w → message_ok fleet ring0 msg → is_forward msg →
  MeshSimulator._handle_forward_announcement w sender msg t = Some w' →
  world_ok fleet ring0 w'.
Proof.
  intros Hw [Hmf _] Hf H. specialize (Hmf Hf).
  destruct (mesh_forward_cases _ _ _ _ _ H)
    as [[_ ->] | [(p & la & next & Hp & Hl & Hn & Hne & ->) | (p & _ & Hb)]];
    [done | | by eapply start_backtrace_ok].
  destruct Hmf as (rest & b & q & Hpath & Hnd & Hring & Hb & Hq & Hle & Hh).
  rewrite (get_lookup _ _ _ _ Hpath) in Hp. injection Hp as <-.
  apply find_next_in_ring_spec in Hn as [Hnr Hnp].
  rewrite (ok_ring _ _ _ Hw) in Hnr.
  apply not_elem_of_cons in Hnp as [_ Hnp].
  assert (is_forward (<["path" := PList (("warehouse" :: rest) ++ [next])]> msg))
    as Hf'.
  { unfold is_forward, get in *. by rewrite lookup_insert_ne. }
  apply deliver_to_ok; [done|]. split; [split|].
  - intros _. exists (rest ++ [next]), b, q.
    split; [by rewrite lookup_insert_eq|].
    split.
    { apply NoDup_app. split; [done|]. split; [|apply NoDup_singleton].
      intros x Hx ->%list_elem_of_singleton. done. }
    split.
    { intros k [Hk | ->%list_elem_of_singleton]%elem_of_app; [by apply Hring | done]. }
    split; [by rewrite lookup_insert_ne|].
    split; [done|]. split; [done|].
    destruct Hh as [Hh | (h & Hh & Hin & Hc)]; [by left|].
    right. exists h. split; [done|].
    split; [apply elem_of_app; by left|].
    unfold get in *. by rewrite lookup_insert_ne.
  - intros Hd. by destruct (forward_not_decision _ Hf').
  - intros _. exists (rest ++ [next]).
    split; [by rewrite lookup_insert_eq|].
    apply elem_of_app. right. by apply list_elem_of_singleton.
Qed.

Lemma mesh_handle_winner_ok w w' msg :
  world_ok fleet ring0 w → message_ok fleet ring0 msg → is_decision msg →
  MeshSimulator._handle_winner_decision w msg = Some w' →
  world_ok fleet ring0 w'.
Proof.
  intros Hw [_ Hmd] Hd. unfold MeshSimulator._handle_winner_decision.
  destruct (get msg "winner" (PStr "")) as [[| winner | q] | l | d];
    try done; intros [= <-]; try done.
  apply deliver_to_ok; [done|]. apply decision_delivered_ok; auto.
Qed.

Lemma process_message_ok w w' sender msg t :
  world_ok fleet ring0 w → message_ok fleet ring0 msg →
  MeshSimulator._process_message w sender msg t = Some w' →
  world_ok fleet ring0 w'.
Proof.
  intros Hw Hm. unfold MeshSimulator._process_message.
  destruct (py_eq_str _ "TASK_ANNOUNCEMENT" && _).
  { unfold MeshSimulator._handle_warehouse_announcement.
    destruct (get msg "task_id" (PStr "")) as [[| task_id | q] | l | d];
      try done.
    destruct (startswith task_id "SOD-"); intros [= <-].
    - by apply assign_sod_task_ok.
    - by apply forward_to_ring_ok. }
  destruct (py_eq_str _ "FORWARD_ANNOUNCEMENT") eqn:Ef.
  { apply py_eq_str_true in Ef. by apply mesh_handle_forward_ok. }
  destruct (py_eq_str _ "WINNER_DECISION") eqn:Ed.
  { apply py_eq_str_true in Ed. by apply mesh_handle_winner_ok. }
  by intros [= <-].
Qed.

Lemma deliver_queue_ok pending w w' sim_time :
  world_ok fleet ring0 w →
  (∀ s m t, (s, m, t) ∈ pending → message_ok fleet ring0 m) →
  MeshSimulator.deliver_queue pending w sim_time = Some w' →
  world_ok fleet ring0 w'.
Proof.
  revert w. induction pending as [|[[sender msg] msg_time] rest IH];
    simpl; intros w Hw Hq H; [by injection H as <-|].
  destruct (MeshSimulator._process_message _ sender msg _) as [w1|] eqn:E;
    simpl in H; [|done].
  apply (IH w1); [| |done].
  - eapply process_message_ok; [| |exact E].
    + apply set_message_queue_ok; [done|].
      intros s m t Hin. eapply Hq. by right.
    + eapply Hq. by left.
  - intros s m t Hin. eapply Hq. by right.
Qed.

Lemma deliver_messages_ok w w' sim_time :
  world_ok fleet ring0 w →
  MeshSimulator.deliver_messages w sim_time = Some w' →
  world_ok fleet ring0 w'.
Proof.
  intros Hw. apply deliver_queue_ok; [done|]. apply (ok_queue _ _ _ Hw).
Qed.

(** *** The agents *)

Lemma send_ok w sender m t :
  world_ok fleet ring0 w → message_ok fleet ring0 m →
  world_ok fleet ring0 (MeshSimulator.send w sender (ODict m) t).
Proof.
  intros Hw Hm. unfold MeshSimulator.send. destruct (negb _); [done|].
  apply set_message_queue_ok; [done|].
  intros s m' t' [Hin | [= -> -> ->]%list_elem_of_singleton]%elem_of_app;
    [by eapply (ok_queue _ _ _ Hw) | done].
Qed.

Lemma agent_reply_ok (a a0 : VehicleAgent.t) (k : string) (m m' : Message)
    (t : Z) :
  fleet !! k = Some a0 → static a = static a0 →
  delivered_ok fleet ring0 k m → is_forward m →
  VehicleAgent.forward_msg a m t = Some m' →
  message_ok fleet ring0 m'.
Proof.
  intros Hk Hst [[Hmf _] Hdel] Hf H.
  destruct (Hmf Hf) as (rest & b & q & Hp & Hnd & Hring & Hb & Hq & Hle & Hh).
  destruct (Hdel Hf) as (p & Hp' & Hkp).
  rewrite Hp in Hp'. injection Hp' as <-.
  assert (VehicleAgent.id a = k) as Hid.
  { unfold static in Hst. injection Hst as -> _ _. by apply keyed. }
  destruct (forward_msg_inv _ _ _ _ H)
    as (wt & bid & cur & b' & Hwt & Hbid & Hb' & Hcur & Hty & Hw' & Hbest & Hpath).
  rewrite (get_lookup _ _ _ _ Hb) in Hb'. injection Hb' as <-.
  rewrite (best_bid_lookup _ _ _ Hb Hq) in Hcur. injection Hcur as <-.
  specialize (Hpath _ (get_lookup _ _ _ _ Hp)).
  rewrite bool_decide_eq_true_2 in Hpath by (rewrite Hid; by right).
  assert (∀ h, can_carry fleet h (get m "weight" (PNum 0)) →
               can_carry fleet h (get m' "weight" (PNum 0))) as Hcarry.
  { intros h (ah & Hah & Hcap). exists ah. split; [done|].
    intros w. rewrite (get_lookup _ _ _ _ Hw'). intros [= <-]. by apply Hcap. }
  split.
  - intros _. destruct (Qlt_bool bid q) eqn:Elt.
    + apply Qlt_bool_true in Elt.
      eexists rest, _, bid. split; [done|]. split; [done|]. split; [done|].
      split; [exact Hbest|]. split; [reflexivity|].
      split; [lra|]. right. exists k. rewrite Hid.
      split; [reflexivity|]. split; [done|].
      exists a0. split; [done|]. intros w.
      rewrite (get_lookup _ _ _ _ Hw'). intros [= <-].
      rewrite <- (has_capacity_static a a0) by done.
      unfold bid_for in Hbid. rewrite Hwt in Hbid. simpl in Hbid.
      eapply compute_bid_feasible; [|exact Hbid|lra]. reflexivity.
    + exists rest, b, q. repeat (split; [done|]).
      destruct Hh as [Hh | (h & Hh & Hin & Hc)]; [by left|].
      right. exists h. auto.
  - intros Hd. unfold is_decision in Hd. by rewrite Hty in Hd.
Qed.

Lemma handle_message_ok (self self' a0 : VehicleAgent.t) (k : string)
    (msg : Message) (t : Z) (mesh mesh' : MeshSimulator.t) :
  world_ok fleet ring0 mesh →
  fleet !! k = Some a0 → static self = static a0 →
  delivered_ok fleet ring0 k msg →
  VehicleAgent._handle_message MeshSimulator.send self msg t mesh
  = Some (self', mesh') →
  world_ok fleet ring0 mesh' ∧ static self' = static a0
  ∧ VehicleAgent.inbox self' = VehicleAgent.inbox self.
Proof.
  intros Hw Hk Hst Hdel. unfold VehicleAgent._handle_message.
  destruct (py_eq_str _ "TASK_ANNOUNCEMENT"); [by intros [= <- <-]|].
  destruct (py_eq_str _ "FORWARD_ANNOUNCEMENT") eqn:Ef.
  { apply py_eq_str_true in Ef.
    unfold VehicleAgent._handle_forward_announcement.
    destruct (VehicleAgent.forward_msg self msg t) as [m'|] eqn:Em;
      simpl; [|done].
    intros [= <- <-]. split; [|done].
    apply send_ok; [done|]. by eapply agent_reply_ok. }
  destruct (py_eq_str _ "WINNER_DECISION"); [|by intros [= <- <-]].
  intros [= <- <-].
  destruct (handle_winner_decision_static self msg) as [Hs Hi].
  split; [done|]. split; [congruence | done].
Qed.

Lemma process_inbox_ok (pending : list Message) (self self' a0 : VehicleAgent.t)
    (k : string) (t : Z) (mesh mesh' : MeshSimulator.t) :
  (∀ m, m ∈ pending → delivered_ok fleet ring0 k m) →
  world_ok fleet ring0 mesh →
  fleet !! k = Some a0 → static self = static a0 →
  VehicleAgent.inbox self = pending →
  VehicleAgent.process_inbox MeshSimulator.send pending self t mesh
  = Some (self', mesh') →
  world_ok fleet ring0 mesh' ∧ static self' = static a0
  ∧ VehicleAgent.inbox self' = [].
Proof.
  revert self mesh.
  induction pending as [|msg rest IH]; simpl;
    intros self mesh Hp Hw Hk Hst Hin H; [by injection H as <- <-|].
  destruct (VehicleAgent._handle_message MeshSimulator.send _ msg t mesh)
    as [[self1 mesh1]|] eqn:E; simpl in H; [|done].
  assert (static (VehicleAgent.set_inbox self rest) = static a0) as Hst'
    by done.
  assert (delivered_ok fleet ring0 k msg) as Hmsg by (apply Hp; by left).
  destruct (handle_message_ok _ _ _ _ _ _ _ _ Hw Hk Hst' Hmsg E)
    as (Hw1 & Hst1 & Hin1).
  eapply (IH self1 mesh1); try done. intros m Hm. apply Hp. by right.
Qed.

Lemma agent_turn_ok w w' k t :
  world_ok fleet ring0 w → agent_turn w k t = Some w' →
  world_ok fleet ring0 w'.
Proof.
  intros Hw. unfold agent_turn.
  destruct (MeshSimulator.agents w !! k) as [a|] eqn:Ea; simpl; [|done].
  destruct (VehicleAgent.process_messages MeshSimulator.send a t w)
    as [[a' w1]|] eqn:E; simpl; [|done].
  intros [= <-].
  pose proof (ok_static _ _ _ Hw k) as Hs. rewrite Ea in Hs.
  destruct (fleet !! k) as [a0|] eqn:Ek; [|done].
  unfold VehicleAgent.process_messages in E.
  assert (static a = static a0) as Hst
    by (cbn [fmap option_fmap option_map] in Hs; congruence).
  destruct (process_inbox_ok _ _ _ _ _ _ _ _
              (λ m Hm, ok_inbox _ _ _ Hw k a m Ea Hm) Hw Ek Hst eq_refl E)
    as (Hw1 & Hst1 & Hin1).
  destruct Hw1 as [H1 H2 H3 H4]. constructor; simpl; try done.
  - intros k'. destruct (decide (k = k')) as [<- | Hne].
    + rewrite lookup_insert_eq, Ek. simpl. by rewrite Hst1.
    + by rewrite lookup_insert_ne.
  - intros k' a1 m. destruct (decide (k = k')) as [<- | Hne].
    + rewrite lookup_insert_eq. intros [= <-]. rewrite Hin1.
      by intros ?%elem_of_nil.
    + rewrite lookup_insert_ne by done. apply H4.
Qed.

Lemma do_action_ok w w' act :
  world_ok fleet ring0 w → do_action w act = Some w' →
  world_ok fleet ring0 w'.
Proof.
  intros Hw. destruct act as [sender task sim_time | sim_time | k t]; simpl.
  - intros [= <-]. apply send_ok; [done|]. split.
    + intros Hf. unfold is_forward, get in Hf.
      by rewrite lookup_insert_eq in Hf.
    + intros Hd. unfold is_decision, get in Hd.
      by rewrite lookup_insert_eq in Hd.
  - by apply deliver_messages_ok.
  - by apply agent_turn_ok.
Qed.

Lemma run_ok trace w w' :
  world_ok fleet ring0 w → run w trace = Some w' → world_ok fleet ring0 w'.
Proof.
  revert w. induction trace as [|act rest IH]; simpl; intros w Hw H;
    [by injection H as <-|].
  destruct (do_action w act) as [w1|] eqn:E; simpl in H; [|done].
  eapply IH; [|exact H]. by eapply do_action_ok.
Qed.

End InvariantProofs.

Lemma init_ok (items : list (string * VehicleAgent.t)) (comm_range : Q) :
  fresh_fleet items →
  (∀ k a, (list_to_map items : gmap string VehicleAgent.t) !! k = Some a →
          VehicleAgent.id a = k)
  ∧ world_ok (list_to_map items) items.*1
      (MeshSimulator.__init__ items comm_range).
Proof.
  intros Hfresh. split.
  - intros k a Hk. apply elem_of_list_to_map_2 in Hk. by apply Hfresh.
  - constructor; simpl; try done.
    + intros s m t Hin. by apply elem_of_nil in Hin.
    + intros k a m Hk Hin. apply elem_of_list_to_map_2 in Hk.
      apply Hfresh in Hk as [_ Hk]. rewrite Hk in Hin.
      by apply elem_of_nil in Hin.
Qed.

(** ** Runs from a fresh fabric *)

(** A listed fleet of vehicles made by the constructor is fresh. *)
Ltac fresh_items :=
  let k := fresh "k" in let a := fresh "a" in let Hin := fresh "Hin" in
  intros k a Hin;
  repeat (apply elem_of_cons in Hin as [[= -> ->] | Hin];
          [split; reflexivity|]);
  by apply elem_of_nil in Hin.

Lemma reachable_ok (items : list (string * VehicleAgent.t)) (comm_range : Q)
    (trace : list action) (w : MeshSimulator.t) :
  fresh_fleet items →
  run (MeshSimulator.__init__ items comm_range) trace = Some w →
  (∀ k a, (list_to_map items : gmap string VehicleAgent.t) !! k = Some a →
          VehicleAgent.id a = k)
  ∧ world_ok (list_to_map items) items.*1 w.
Proof.
  intros Hfresh Hrun.
  destruct (init_ok items comm_range Hfresh) as [Hkeyed H0].
  split; [done|]. by eapply run_ok.
Qed.

Lemma in_flight_ok fleet ring0 (w : MeshSimulator.t) (m : Message) :
  world_ok fleet ring0 w → in_flight w m → message_ok fleet ring0 m.
Proof.
  intros Hw [(s & t & Hq) | (k & a & Hk & Hin)].
  - by eapply (ok_queue _ _ _ Hw).
  - by eapply (ok_inbox _ _ _ Hw).
Qed.

Lemma best_holder_lookup (m : Message) (b : gmap string scalar) (x : scalar) :
  m !! "best" = Some (PDict b) → b !! "holder" = Some x →
  best_holder m = Some x.
Proof.
  intros Hb Hx. unfold best_holder. rewrite (get_lookup _ _ _ _ Hb).
  unfold sget. by rewrite Hx.
Qed.

(** C8: in every run from a fresh fabric, the path of every
    FORWARD_ANNOUNCEMENT in flight is the sentinel followed by pairwise
    distinct ring members (so no entry repeats at all when "warehouse" is
    not an agent id), its holder, if any, is a ring member, and every
    WINNER_DECISION in flight names a ring member.  The two steps that grow
    a path: the fabric extends it by a ring member that is not on it, and
    an agent appends its own id only if it is absent. *)
Theorem C8_ring_coverage (items : list (string * VehicleAgent.t))
    (comm_range : Q) (trace : list action) (w : MeshSimulator.t) :
  fresh_fleet items →
  run (MeshSimulator.__init__ items comm_range) trace = Some w →
  (∀ m, in_flight w m → is_forward m →
     ∃ rest, m !! "path" = Some (PList ("warehouse" :: rest))
       ∧ NoDup rest
       ∧ (∀ k, k ∈ rest → k ∈ MeshSimulator.ring w)
       ∧ ("warehouse" ∉ MeshSimulator.ring w → NoDup ("warehouse" :: rest))
       ∧ (∀ h, best_holder m = Some (SStr h) → h ∈ MeshSimulator.ring w))
  ∧ (∀ m, in_flight w m → is_decision m →
       ∃ winner, m !! "winner" = Some (PStr winner)
                 ∧ winner ∈ MeshSimulator.ring w)
  ∧ (∀ current path next,
       MeshSimulator._find_next_in_ring w current path = Some next →
       next ∈ MeshSimulator.ring w ∧ next ∉ path)
  ∧ (∀ self m t m' p,
       VehicleAgent.forward_msg self m t = Some m' →
       get m "path" (PList []) = PList p →
       m' !! "path"
       = Some (PList (if bool_decide (VehicleAgent.id self ∈ p)
                      then p else p ++ [VehicleAgent.id self]))).
Proof.
  intros Hfresh Hrun.
  destruct (reachable_ok _ _ _ _ Hfresh Hrun) as [Hkeyed Hw].
  pose proof (ok_ring _ _ _ Hw) as Hring.
  split; [|split; [|split]].
  - intros m Hm Hf.
    destruct (in_flight_ok _ _ _ _ Hw Hm) as [Hmf _].
    destruct (Hmf Hf) as (rest & b & q & Hp & Hnd & Hin & Hb & Hq & Hle & Hh).
    rewrite Hring. exists rest. split; [done|]. split; [done|].
    split; [done|]. split.
    + intros Hwh. apply NoDup_cons. split; [|done].
      intros Hc. by apply Hwh, Hin.
    + intros h Hbh.
      destruct Hh as [Hh | (h' & Hh & Hh' & _)];
        rewrite (best_holder_lookup _ _ _ Hb Hh) in Hbh; [done|].
      injection Hbh as <-. by apply Hin.
  - intros m Hm Hd.
    destruct (in_flight_ok _ _ _ _ Hw Hm) as [_ Hmd].
    rewrite Hring. by apply Hmd.
  - intros current path next. apply find_next_in_ring_spec.
  - intros self m t m' p H Hp.
    destruct (forward_msg_inv _ _ _ _ H) as (? & ? & ? & ? & Hrest).
    by apply Hrest.
Qed.

Lemma C8_ring_coverage_witness :
  match run (MeshSimulator.__init__ Sample.items3 600) Sample.trace3 with
  | Some w =>
      (∀ m, in_flight w m → is_forward m →
         ∃ rest, m !! "path" = Some (PList ("warehouse" :: rest))
                 ∧ NoDup rest
                 ∧ ∀ k, k ∈ rest → k ∈ MeshSimulator.ring w)
      ∧ ∃ m, in_flight w m
             ∧ m !! "path" = Some (PList ["warehouse"; "A"; "B"])
  | None => False
  end.
Proof.
  assert (fresh_fleet Sample.items3) as Hfresh by fresh_items.
  destruct (run _ Sample.trace3) as [w|] eqn:E.
  - split.
    + intros m Hm Hf.
      destruct (C8_ring_coverage Sample.items3 600 Sample.trace3 w Hfresh E)
        as [H _].
      destruct (H m Hm Hf) as (rest & Hp & Hnd & Hin & _).
      exists rest. split; [exact Hp|]. split; [exact Hnd | exact Hin].
    + vm_compute in E. injection E as <-.
      eexists. split; [right; exists "B"; eexists; split;
                         [reflexivity | by left]|].
      reflexivity.
  - vm_compute in E. discriminate E.
Defined.

(** C5: an agent whose load plus the task weight exceeds its capacity bids
    VERY_HIGH_BID, and in every run from a fresh fabric no
    FORWARD_ANNOUNCEMENT in flight has such an agent as holder of its
    best bid: the running best never exceeds VERY_HIGH_BID, so the strict
    comparison leaves [best] as it is when an infeasible agent answers. *)
Theorem C5_capacity_invariant (items : list (string * VehicleAgent.t))
    (comm_range : Q) (trace : list action) (w : MeshSimulator.t) :
  fresh_fleet items →
  run (MeshSimulator.__init__ items comm_range) trace = Some w →
  (∀ self task_info network_info wt,
     get task_info "weight" (PNum 0) = PNum wt →
     (VehicleAgent.capacity self < VehicleAgent.load self + wt)%Q →
     VehicleAgent.compute_bid self task_info network_info
     = Some VehicleAgent.VERY_HIGH_BID)
  ∧ (∀ m k a wt,
       in_flight w m → is_forward m →
       MeshSimulator.agents w !! k = Some a →
       py_float (get m "weight" (PNum 0)) = Some wt →
       (VehicleAgent.capacity a < VehicleAgent.load a + wt)%Q →
       best_holder m ≠ Some (SStr (VehicleAgent.id a)))
  ∧ (∀ m, in_flight w m → is_forward m →
       ∃ q, best_bid m = Some q ∧ (q <= VehicleAgent.VERY_HIGH_BID)%Q)
  ∧ (∀ self m t m' wt q,
       VehicleAgent.forward_msg self m t = Some m' →
       py_float (get m "weight" (PNum 0)) = Some wt →
       (VehicleAgent.capacity self < VehicleAgent.load self + wt)%Q →
       best_bid m = Some q → (q <= VehicleAgent.VERY_HIGH_BID)%Q →
       m' !! "best" = Some (get m "best" default_best)).
Proof.
  intros Hfresh Hrun.
  destruct (reachable_ok _ _ _ _ Hfresh Hrun) as [Hkeyed Hw].
  split; [|split; [|split]].
  - intros self task_info network_info wt. apply compute_bid_infeasible.
  - intros m k a wt Hm Hf Hk Hwt Hcap Hbh.
    destruct (in_flight_ok _ _ _ _ Hw Hm) as [Hmf _].
    destruct (Hmf Hf) as (rest & b & q & Hp & Hnd & Hin & Hb & Hq & Hle & Hh).
    destruct Hh as [Hh | (h & Hh & Hh' & (a0 & Ha0 & Hc))];
      rewrite (best_holder_lookup _ _ _ Hb Hh) in Hbh; [done|].
    injection Hbh as ->.
    pose proof (ok_static _ _ _ Hw k) as Hs. rewrite Hk in Hs.
    destruct (list_to_map items !! k) as [a1|] eqn:Ek; [|done].
    assert (static a = static a1) as Hst
      by (cbn [fmap option_fmap option_map] in Hs; congruence).
    assert (VehicleAgent.id a = k) as Hid.
    { unfold static in Hst. injection Hst as -> _ _. by apply Hkeyed. }
    rewrite Hid, Ek in Ha0. injection Ha0 as <-.
    specialize (Hc wt Hwt). rewrite <- (has_capacity_static a a1) in Hc by done.
    unfold VehicleAgent.has_capacity in Hc. apply Qle_bool_iff in Hc. lra.
  - intros m Hm Hf.
    destruct (in_flight_ok _ _ _ _ Hw Hm) as [Hmf _].
    destruct (Hmf Hf) as (rest & b & q & Hp & Hnd & Hin & Hb & Hq & Hle & Hh).
    exists q. split; [by eapply best_bid_lookup | done].
  - intros self m t m' wt q H Hwt Hcap Hq Hle.
    destruct (forward_msg_inv _ _ _ _ H)
      as (wt' & bid & cur & b & Hwt' & Hbid & Hb & Hcur & _ & _ & Hbest & _).
    rewrite Hwt in Hwt'. injection Hwt' as <-.
    rewrite Hq in Hcur. injection Hcur as <-.
    unfold bid_for in Hbid. rewrite Hwt in Hbid. simpl in Hbid.
    rewrite (compute_bid_infeasible _ _ _ wt) in Hbid by done.
    injection Hbid as <-.
    assert (Qlt_bool VehicleAgent.VERY_HIGH_BID q = false) as Hlt
      by by apply Qlt_bool_false.
    rewrite Hlt in Hbest. by rewrite Hb.
Qed.

(** In the ring [A, B, C] vehicle C cannot carry the load of 3: after the
    whole round C is not the holder. *)
Lemma C5_capacity_invariant_witness :
  match run (MeshSimulator.__init__ Sample.items3 600) Sample.trace3_round with
  | Some w =>
      ∃ m, in_flight w m
           ∧ m !! "path" = Some (PList ["warehouse"; "A"; "B"; "C"])
           ∧ best_holder m ≠ Some (SStr "C")
  | None => False
  end.
Proof.
  assert (fresh_fleet Sample.items3) as Hfresh by fresh_items.
  destruct (run _ Sample.trace3_round) as [w|] eqn:E.
  - destruct (C5_capacity_invariant Sample.items3 600 Sample.trace3_round w
                Hfresh E) as (_ & H & _).
    vm_compute in E. injection E as <-.
    eexists. split; [left; eexists _, _; apply list_elem_of_here|].
    split; [reflexivity|].
    eapply (H _ "C" (Sample.vehicle "C" 2) 3%Q).
    + left. eexists _, _. apply list_elem_of_here.
    + reflexivity.
    + reflexivity.
    + reflexivity.
    + vm_compute. reflexivity.
  - vm_compute in E. discriminate E.
Defined.

(** * Further properties of the two classes *)

(** ** What the fabric leaves alone *)

Lemma inbox_grows_refl (a : VehicleAgent.t) : inbox_grows a a.
Proof. split; [by destruct a | done]. Qed.

Lemma inbox_grows_trans (a b c : VehicleAgent.t) :
  inbox_grows a b → inbox_grows b c → inbox_grows a c.
Proof.
  intros [H1 H2] [H3 H4]. split; [|by etrans].
  rewrite <- H1 at 2. rewrite <- H3. by destruct c.
Qed.

Lemma receive_grows (a : VehicleAgent.t) (message : pyobj) :
  inbox_grows a (VehicleAgent.receive a message).
Proof.
  unfold VehicleAgent.receive. destruct message; try apply inbox_grows_refl.
  case_bool_decide; [|apply inbox_grows_refl].
  split; [by destruct a | by apply prefix_app_r].
Qed.

Lemma fabric_delivers_refl (w : MeshSimulator.t) : fabric_delivers w w.
Proof.
  repeat split; try done. intros k.
  destruct (MeshSimulator.agents w !! k); constructor. apply inbox_grows_refl.
Qed.

Lemma fabric_delivers_trans (w1 w2 w3 : MeshSimulator.t) :
  fabric_delivers w1 w2 → fabric_delivers w2 w3 → fabric_delivers w1 w3.
Proof.
  intros (H1 & H2 & H3 & H4) (H5 & H6 & H7 & H8).
  split; [congruence|]. split; [congruence|]. split; [lia|].
  intros k. specialize (H4 k). specialize (H8 k).
  destruct H4 as [a b Hab|]; inversion H8; subst; constructor.
  by eapply inbox_grows_trans.
Qed.

Lemma deliver_to_delivers (w : MeshSimulator.t) (k : string) (m : Message) :
  fabric_delivers w (MeshSimulator.deliver_to w k m)
  ∧ MeshSimulator.message_queue (MeshSimulator.deliver_to w k m)
    = MeshSimulator.message_queue w.
Proof.
  unfold MeshSimulator.deliver_to.
  destruct (MeshSimulator.agents w !! k) as [a|] eqn:Ea;
    [|split; [apply fabric_delivers_refl | done]].
  split; [|done]. repeat split; try done. simpl. intros k'.
  destruct (decide (k = k')) as [<- | Hne].
  - rewrite lookup_insert_eq, Ea. constructor.
    apply (receive_grows a (ODict m)).
  - rewrite lookup_insert_ne by done.
    destruct (MeshSimulator.agents w !! k'); constructor.
    apply inbox_grows_refl.
Qed.

Lemma relay_delivers (w : MeshSimulator.t) (bp : list string) (m : Message) :
  fabric_delivers w (MeshSimulator.relay w bp m)
  ∧ MeshSimulator.message_queue (MeshSimulator.relay w bp m)
    = MeshSimulator.message_queue w.
Proof.
  unfold MeshSimulator.relay. generalize (drop 1 bp). intros receivers.
  revert w. induction receivers as [|r receivers IH]; simpl; intros w.
  - split; [apply fabric_delivers_refl | done].
  - destruct (deliver_to_delivers w r m) as [H1 H2].
    destruct (IH (MeshSimulator.deliver_to w r m)) as [H3 H4].
    split; [by eapply fabric_delivers_trans | congruence].
Qed.

Lemma start_backtrace_delivers (w w' : MeshSimulator.t) (msg : Message) (t : Z) :
  MeshSimulator._start_backtrace w msg t = Some w' →
  fabric_delivers w w'
  ∧ MeshSimulator.message_queue w' = MeshSimulator.message_queue w.
Proof.
  unfold MeshSimulator._start_backtrace. intros H.
  repeat (case_match; try done); simplify_eq;
    try (split; [apply fabric_delivers_refl | done]).
  apply relay_delivers.
Qed.

Lemma process_message_delivers (w w' : MeshSimulator.t) (sender : string)
    (msg : Message) (t : Z) :
  MeshSimulator._process_message w sender msg t = Some w' →
  fabric_delivers w w'
  ∧ MeshSimulator.message_queue w' = MeshSimulator.message_queue w.
Proof.
  unfold MeshSimulator._process_message.
  destruct (py_eq_str _ "TASK_ANNOUNCEMENT" && _).
  { unfold MeshSimulator._handle_warehouse_announcement.
    destruct (get msg "task_id" (PStr "")) as [[| task_id | q] | l | d];
      try done.
    destruct (startswith task_id "SOD-"); intros [= <-].
    - unfold MeshSimulator._assign_sod_task.
      destruct (MeshSimulator.ring w) as [|r0 ring'] eqn:Er;
        [split; [apply fabric_delivers_refl | done]|].
      destruct ((r0 :: ring') !! _) as [winner|];
        [|split; [apply fabric_delivers_refl | done]].
      match goal with |- context [MeshSimulator.deliver_to ?s ?k ?m] =>
        destruct (deliver_to_delivers s k m) as [(H1 & H2 & H3 & H4) H5] end.
      split; [|exact H5]. simpl in *.
      split; [congruence|]. split; [done|]. split; [lia | done].
    - unfold MeshSimulator._forward_to_ring.
      destruct (MeshSimulator.ring w);
        [split; [apply fabric_delivers_refl | done]|].
      apply deliver_to_delivers. }
  destruct (py_eq_str _ "FORWARD_ANNOUNCEMENT").
  { intros H.
    destruct (mesh_forward_cases _ _ _ _ _ H)
      as [[_ ->] | [(p & la & next & _ & _ & _ & _ & ->) | (p & _ & Hb)]].
    - split; [apply fabric_delivers_refl | done].
    - apply deliver_to_delivers.
    - by eapply start_backtrace_delivers. }
  destruct (py_eq_str _ "WINNER_DECISION").
  { unfold MeshSimulator._handle_winner_decision.
    destruct (get msg "winner" (PStr "")) as [[| winner | q] | l | d];
      try done; intros [= <-];
      try (split; [apply fabric_delivers_refl | done]).
    apply deliver_to_delivers. }
  intros [= <-]. split; [apply fabric_delivers_refl | done].
Qed.

Lemma deliver_queue_delivers (pending : list (string * Message * option Z))
    (w w' : MeshSimulator.t) (sim_time : Z) :
  MeshSimulator.deliver_queue pending w sim_time = Some w' →
  fabric_delivers w w'
  ∧ MeshSimulator.message_queue w'
    = (if pending is [] then MeshSimulator.message_queue w else []).
Proof.
  revert w. induction pending as [|[[sender msg] msg_time] rest IH];
    simpl; intros w H.
  - injection H as <-. split; [apply fabric_delivers_refl | done].
  - destruct (MeshSimulator._process_message _ sender msg _) as [w1|] eqn:E;
      simpl in H; [|done].
    destruct (process_message_delivers _ _ _ _ _ E) as [H1 H2].
    destruct (IH _ H) as [H3 H4]. split.
    + eapply fabric_delivers_trans; [|exact H3].
      eapply fabric_delivers_trans; [|exact H1].
      repeat split; try done. intros k. simpl.
      destruct (MeshSimulator.agents w !! k); constructor.
      apply inbox_grows_refl.
    + rewrite H4. destruct rest; [|done]. by rewrite H2.
Qed.

(** X1: [deliver_messages] leaves the queue empty, and handling a message
    never enqueues.  It only ever hands messages to agents: the ring, the
    range and the set of agents stay, every inbox keeps what it had and
    may get more at its end, no other field of an agent changes, and the
    round-robin index does not go back. *)
Theorem X1_deliver_messages_drains (w w' : MeshSimulator.t) (sim_time : Z) :
  MeshSimulator.deliver_messages w sim_time = Some w' →
  MeshSimulator.message_queue w' = []
  ∧ fabric_delivers w w'
  ∧ (∀ sender msg t w1,
       MeshSimulator._process_message w sender msg t = Some w1 →
       MeshSimulator.message_queue w1 = MeshSimulator.message_queue w).
Proof.
  intros H. unfold MeshSimulator.deliver_messages in H.
  destruct (deliver_queue_delivers _ _ _ _ H) as [H1 H2].
  split; [|split; [done|]].
  - rewrite H2. by destruct (MeshSimulator.message_queue w) eqn:E.
  - intros sender msg t w1 H3.
    by destruct (process_message_delivers _ _ _ _ _ H3) as [_ ?].
Qed.

Lemma X1_deliver_messages_drains_witness :
  match MeshSimulator.deliver_messages
          (MeshSimulator.send Sample.fleet2 "warehouse"
             (ODict (Sample.announcement "T1" 3)) None) 5 with
  | Some w' =>
      MeshSimulator.message_queue w' = []
      ∧ MeshSimulator.ring w' = ["A"; "B"]
      ∧ length <$> (VehicleAgent.inbox <$> MeshSimulator.agents w' !! "A")
        = Some 1
  | None => False
  end.
Proof.
  destruct (MeshSimulator.deliver_messages _ 5) as [w'|] eqn:E.
  - destruct (X1_deliver_messages_drains _ _ _ E) as (Hq & (Hr & _) & _).
    split; [exact Hq|]. split; [rewrite Hr; reflexivity|].
    vm_compute in E. injection E as <-. reflexivity.
  - vm_compute in E. discriminate E.
Defined.


(** ** What an agent's turn does *)

Lemma handle_message_effect (self self' : VehicleAgent.t) (msg : Message)
    (t : Z) (w w' : MeshSimulator.t) :
  VehicleAgent._handle_message MeshSimulator.send self msg t w
  = Some (self', w') →
  VehicleAgent.set_assigned_tasks self' (VehicleAgent.assigned_tasks self) = self
  ∧ VehicleAgent.assigned_tasks self `prefix_of` VehicleAgent.assigned_tasks self'
  ∧ MeshSimulator.set_message_queue w' (MeshSimulator.message_queue w) = w
  ∧ ∃ sent,
      MeshSimulator.message_queue w' = MeshSimulator.message_queue w ++ sent
      ∧ length sent
        = length (List.filter
                    (λ m, py_eq_str (get m "message_type" PNone)
                            "FORWARD_ANNOUNCEMENT") [msg])
      ∧ Forall (λ '(s, m, tm), s = VehicleAgent.id self ∧ tm = Some t
                               ∧ is_forward m) sent.
Proof.
  unfold VehicleAgent._handle_message.
  destruct (py_eq_str _ "TASK_ANNOUNCEMENT") eqn:Et.
  { intros [= <- <-]. apply py_eq_str_true in Et.
    cbn [List.filter]. rewrite Et.
    split; [by destruct self|]. split; [done|]. split; [by destruct w|].
    exists []. by rewrite app_nil_r. }
  cbn [List.filter].
  destruct (py_eq_str _ "FORWARD_ANNOUNCEMENT") eqn:Ef.
  { unfold VehicleAgent._handle_forward_announcement.
    destruct (VehicleAgent.forward_msg self msg t) as [m'|] eqn:Em;
      simpl; [|done].
    intros [= <- <-].
    destruct (forward_msg_inv _ _ _ _ Em) as (? & ? & ? & ? & _ & _ & _ & _ & Hty & _).
    assert (is_Some (m' !! "message_type")) as Hs.
    { unfold get in Hty. destruct (m' !! "message_type"); [by eexists | done]. }
    rewrite (bool_decide_eq_true_2 _ Hs). simpl.
    split; [by destruct self|]. split; [done|]. split; [by destruct w|].
    eexists [_]. split; [done|]. split; [done|].
    constructor; [done | constructor]. }
  destruct (py_eq_str _ "WINNER_DECISION").
  - intros [= <- <-]. unfold VehicleAgent._handle_winner_decision.
    destruct (py_eq_str _ (VehicleAgent.id self)); [destruct (negb _)|]; simpl;
      (split; [by destruct self|]); (split; [done || by apply prefix_app_r|]);
      (split; [by destruct w|]); exists []; by rewrite app_nil_r.
  - intros [= <- <-].
    split; [by destruct self|]. split; [done|]. split; [by destruct w|].
    exists []. by rewrite app_nil_r.
Qed.

Lemma process_inbox_effect (pending : list Message) (self self' : VehicleAgent.t)
    (t : Z) (w w' : MeshSimulator.t) :
  VehicleAgent.process_inbox MeshSimulator.send pending self t w
  = Some (self', w') →
  VehicleAgent.inbox self'
  = (if pending is [] then VehicleAgent.inbox self else [])
  ∧ VehicleAgent.set_assigned_tasks
      (VehicleAgent.set_inbox self' (VehicleAgent.inbox self))
      (VehicleAgent.assigned_tasks self) = self
  ∧ VehicleAgent.assigned_tasks self `prefix_of` VehicleAgent.assigned_tasks self'
  ∧ MeshSimulator.set_message_queue w' (MeshSimulator.message_queue w) = w
  ∧ ∃ sent,
      MeshSimulator.message_queue w' = MeshSimulator.message_queue w ++ sent
      ∧ length sent
        = length (List.filter
                    (λ m, py_eq_str (get m "message_type" PNone)
                            "FORWARD_ANNOUNCEMENT") pending)
      ∧ Forall (λ '(s, m, tm), s = VehicleAgent.id self ∧ tm = Some t
                               ∧ is_forward m) sent.
Proof.
  revert self w. induction pending as [|msg rest IH]; intros self w H.
  - simpl in H. injection H as <- <-.
    split; [done|]. split; [by destruct self|]. split; [done|].
    split; [by destruct w|]. exists []. by rewrite app_nil_r.
  - simpl in H.
    destruct (VehicleAgent._handle_message MeshSimulator.send _ msg t w)
      as [[self1 w1]|] eqn:E; simpl in H; [|done].
    destruct (handle_message_effect _ _ _ _ _ _ E)
      as (Ha & Hp & Hw & sent1 & Hq1 & Hl1 & Hf1).
    destruct (IH _ _ H) as (Hi & Ha2 & Hp2 & Hw2 & sent2 & Hq2 & Hl2 & Hf2).
    assert (VehicleAgent.id self1 = VehicleAgent.id self
            ∧ VehicleAgent.inbox self1 = rest) as [Hid Hin1].
    { apply (f_equal VehicleAgent.id) in Ha as Ha'.
      apply (f_equal VehicleAgent.inbox) in Ha as Ha''.
      by destruct self1. }
    split; [|split; [|split; [|split]]].
    + rewrite Hi. destruct rest; [|done]. by rewrite Hin1.
    + clear -Ha Ha2. destruct self', self1, self.
      unfold VehicleAgent.set_assigned_tasks, VehicleAgent.set_inbox in *.
      simpl in *. congruence.
    + etrans; [|exact Hp2]. exact Hp.
    + clear -Hw Hw2. destruct w', w1, w.
      unfold MeshSimulator.set_message_queue in *. simpl in *. congruence.
    + exists (sent1 ++ sent2). rewrite Hq2, Hq1, app_assoc. split; [done|].
      split.
      * rewrite length_app, Hl1, Hl2. cbn [List.filter].
        by destruct (py_eq_str _ _).
      * apply Forall_app. split; [done|]. by rewrite <- Hid.
Qed.

(** X2: a call of [process_messages] empties the agent's inbox and changes
    nothing else of the agent but [assigned_tasks], which only grows at
    its end.  Of the fabric it changes only the queue: it appends one
    FORWARD_ANNOUNCEMENT per FORWARD_ANNOUNCEMENT that was in the inbox,
    each sent under the agent's own id with the current time. *)
Theorem X2_process_messages_effect (a a' : VehicleAgent.t) (t : Z)
    (w w' : MeshSimulator.t) :
  VehicleAgent.process_messages MeshSimulator.send a t w = Some (a', w') →
  VehicleAgent.inbox a' = []
  ∧ VehicleAgent.set_assigned_tasks
      (VehicleAgent.set_inbox a' (VehicleAgent.inbox a))
      (VehicleAgent.assigned_tasks a) = a
  ∧ VehicleAgent.assigned_tasks a `prefix_of` VehicleAgent.assigned_tasks a'
  ∧ MeshSimulator.set_message_queue w' (MeshSimulator.message_queue w) = w
  ∧ ∃ sent,
      MeshSimulator.message_queue w' = MeshSimulator.message_queue w ++ sent
      ∧ length sent
        = length (List.filter
                    (λ m, py_eq_str (get m "message_type" PNone)
                            "FORWARD_ANNOUNCEMENT") (VehicleAgent.inbox a))
      ∧ Forall (λ '(s, m, tm), s = VehicleAgent.id a ∧ tm = Some t
                               ∧ is_forward m) sent.
Proof.
  intros H. unfold VehicleAgent.process_messages in H.
  destruct (process_inbox_effect _ _ _ _ _ _ H) as (Hi & Hrest).
  split; [|exact Hrest]. rewrite Hi. by destruct (VehicleAgent.inbox a).
Qed.


Lemma X2_process_messages_effect_witness :
  let decision : Message :=
    {[ "message_type" := PStr "WINNER_DECISION"; "task_id" := PStr "T0";
       "winner" := PStr "A"; "delivery" := PStr "edge_7" ]} in
  let forward : Message :=
    {[ "message_type" := PStr "FORWARD_ANNOUNCEMENT"; "task_id" := PStr "T1";
       "weight" := PNum 3; "path" := PList ["warehouse"; "A"] ]} in
  let a := VehicleAgent.set_inbox (Sample.vehicle "A" 10) [decision; forward] in
  let w := Sample.fleet1 in
  match VehicleAgent.process_messages MeshSimulator.send a 0 w with
  | Some (a', w') =>
      VehicleAgent.inbox a' = []
      ∧ VehicleAgent.set_assigned_tasks
          (VehicleAgent.set_inbox a' (VehicleAgent.inbox a))
          (VehicleAgent.assigned_tasks a) = a
      ∧ VehicleAgent.assigned_tasks a `prefix_of` VehicleAgent.assigned_tasks a'
      ∧ MeshSimulator.set_message_queue w' (MeshSimulator.message_queue w) = w
      ∧ ∃ sent,
          MeshSimulator.message_queue w' = MeshSimulator.message_queue w ++ sent
          ∧ length sent
            = length (List.filter
                        (λ m, py_eq_str (get m "message_type" PNone)
                                "FORWARD_ANNOUNCEMENT") (VehicleAgent.inbox a))
          ∧ Forall (λ '(s, m, tm), s = VehicleAgent.id a ∧ tm = Some 0%Z
                                   ∧ is_forward m) sent
  | None => False
  end.
Proof.
  intros decision forward a w.
  assert ((λ r, length (MeshSimulator.message_queue r.2))
            <$> VehicleAgent.process_messages MeshSimulator.send a 0 w
          = Some 1%nat) as Hobs by (vm_compute; reflexivity).
  destruct (VehicleAgent.process_messages MeshSimulator.send a 0 w)
    as [[a' w']|] eqn:E.
  - exact (X2_process_messages_effect a a' 0 w w' E).
  - discriminate Hobs.
Defined.


(** ** Assignments come from decisions *)

Lemma decisions_for_cons (name : string) (msg : Message) (rest : list Message) :
  decisions_for name (msg :: rest)
  = decisions_for name [msg] ++ decisions_for name rest.
Proof.
  unfold decisions_for. cbn [List.filter].
  by destruct (_ && _).
Qed.

Lemma existsb_prefix {A} (f : A → bool) (l l' : list A) :
  l `prefix_of` l' → existsb f l = true → existsb f l' = true.
Proof.
  intros [k ->] H. rewrite existsb_app, H. done.
Qed.

Section Assignments.
Context {M : Type} (send : M → string → pyobj → option Z → M).

Lemma handle_message_assigned (self self' : VehicleAgent.t) (msg : Message)
    (t : Z) (mesh mesh' : M) :
  VehicleAgent._handle_message send self msg t mesh = Some (self', mesh') →
  VehicleAgent.id self' = VehicleAgent.id self
  ∧ VehicleAgent.assigned_tasks self `prefix_of` VehicleAgent.assigned_tasks self'
  ∧ (∀ e, e ∈ VehicleAgent.assigned_tasks self' →
          e ∈ VehicleAgent.assigned_tasks self
          ∨ e ∈ decisions_for (VehicleAgent.id self) [msg])
  ∧ (∀ e, e ∈ decisions_for (VehicleAgent.id self) [msg] →
          existsb (λ u, py_eq u.1 e.1) (VehicleAgent.assigned_tasks self')
          = true).
Proof.
  unfold VehicleAgent._handle_message, decisions_for. cbn [List.filter].
  destruct (py_eq_str _ "TASK_ANNOUNCEMENT") eqn:Et.
  { intros [= <- <-]. apply py_eq_str_true in Et. rewrite Et. simpl.
    repeat split; try done; [by left | by intros e ?%elem_of_nil]. }
  destruct (py_eq_str _ "FORWARD_ANNOUNCEMENT") eqn:Ef.
  { destruct (VehicleAgent._handle_forward_announcement send self msg t mesh);
      simpl; [|done].
    intros [= <- <-]. apply py_eq_str_true in Ef. rewrite Ef. simpl.
    repeat split; try done; [by left | by intros e ?%elem_of_nil]. }
  destruct (py_eq_str _ "WINNER_DECISION") eqn:Ed; simpl;
    [|intros [= <- <-]; repeat split; try done;
      [by left | by intros e ?%elem_of_nil]].
  intros [= <- <-]. unfold VehicleAgent._handle_winner_decision.
  destruct (py_eq_str _ (VehicleAgent.id self)) eqn:Ew; simpl;
    [|repeat split; try done; [by left | by intros e ?%elem_of_nil]].
  destruct (existsb _ (VehicleAgent.assigned_tasks self)) eqn:Ex; simpl.
  - repeat split; try done; [by left|].
    by intros e ->%list_elem_of_singleton.
  - split; [done|]. split; [by apply prefix_app_r|]. split.
    + intros e [He | He]%elem_of_app; [by left | by right].
    + intros e ->%list_elem_of_singleton. rewrite existsb_app. simpl.
      by rewrite py_eq_refl, orb_true_r.
Qed.

Lemma process_inbox_assigned (pending : list Message)
    (self self' : VehicleAgent.t) (t : Z) (mesh mesh' : M) :
  VehicleAgent.process_inbox send pending self t mesh = Some (self', mesh') →
  VehicleAgent.assigned_tasks self `prefix_of` VehicleAgent.assigned_tasks self'
  ∧ (∀ e, e ∈ VehicleAgent.assigned_tasks self' →
          e ∈ VehicleAgent.assigned_tasks self
          ∨ e ∈ decisions_for (VehicleAgent.id self) pending)
  ∧ (∀ e, e ∈ decisions_for (VehicleAgent.id self) pending →
          existsb (λ u, py_eq u.1 e.1) (VehicleAgent.assigned_tasks self')
          = true).
Proof.
  revert self mesh. induction pending as [|msg rest IH]; intros self mesh H.
  - simpl in H. injection H as <- <-.
    repeat split; try done; [by left | by intros e ?%elem_of_nil].
  - simpl in H.
    destruct (VehicleAgent._handle_message send _ msg t mesh)
      as [[self1 mesh1]|] eqn:E; simpl in H; [|done].
    destruct (handle_message_assigned _ _ _ _ _ _ E) as (Hid & Hp & Hin & Hex).
    destruct (IH _ _ H) as (Hp2 & Hin2 & Hex2).
    change (VehicleAgent.id (VehicleAgent.set_inbox self rest))
      with (VehicleAgent.id self) in *.
    change (VehicleAgent.assigned_tasks (VehicleAgent.set_inbox self rest))
      with (VehicleAgent.assigned_tasks self) in *.
    rewrite Hid in *. rewrite decisions_for_cons.
    split; [by etrans|]. split.
    + intros e He. destruct (Hin2 e He) as [He1 | He1].
      * destruct (Hin e He1) as [? | ?]; [by left|].
        right. apply elem_of_app. by left.
      * right. apply elem_of_app. by right.
    + intros e [He | He]%elem_of_app; [|by apply Hex2].
      eapply existsb_prefix; [exact Hp2 | by apply Hex].
Qed.

End Assignments.

(** X3: whatever object the agent sends through, after [process_messages]
    every entry of [assigned_tasks] was there before or is the (task_id,
    delivery) of a WINNER_DECISION of the inbox that names the agent as
    winner; and every such decision has an entry with its task id.  An
    agent never commits to a task nobody awarded to it, and never misses
    one that was. *)
Theorem X3_assignments_from_decisions {M : Type}
    (send : M → string → pyobj → option Z → M)
    (a a' : VehicleAgent.t) (t : Z) (mesh mesh' : M) :
  VehicleAgent.process_messages send a t mesh = Some (a', mesh') →
  (∀ e, e ∈ VehicleAgent.assigned_tasks a' →
        e ∈ VehicleAgent.assigned_tasks a
        ∨ e ∈ decisions_for (VehicleAgent.id a) (VehicleAgent.inbox a))
  ∧ (∀ e, e ∈ decisions_for (VehicleAgent.id a) (VehicleAgent.inbox a) →
          existsb (λ u, py_eq u.1 e.1) (VehicleAgent.assigned_tasks a') = true).
Proof.
  intros H. by destruct (process_inbox_assigned send _ _ _ _ _ _ H) as (_ & ?).
Qed.


Lemma X3_assignments_from_decisions_witness :
  let decision : Message :=
    {[ "message_type" := PStr "WINNER_DECISION"; "task_id" := PStr "T0";
       "winner" := PStr "A"; "delivery" := PStr "edge_7" ]} in
  let other : Message :=
    {[ "message_type" := PStr "WINNER_DECISION"; "task_id" := PStr "T2";
       "winner" := PStr "B"; "delivery" := PStr "edge_9" ]} in
  let a := VehicleAgent.set_inbox (Sample.vehicle "A" 10) [decision; other] in
  match VehicleAgent.process_messages MeshSimulator.send a 0 Sample.fleet1 with
  | Some (a', mesh') =>
      ((∀ e, e ∈ VehicleAgent.assigned_tasks a' →
             e ∈ VehicleAgent.assigned_tasks a
             ∨ e ∈ decisions_for (VehicleAgent.id a) (VehicleAgent.inbox a))
       ∧ (∀ e, e ∈ decisions_for (VehicleAgent.id a) (VehicleAgent.inbox a) →
               existsb (λ u, py_eq u.1 e.1) (VehicleAgent.assigned_tasks a')
               = true))
      ∧ VehicleAgent.assigned_tasks a' = [(PStr "T0", PStr "edge_7")]
  | None => False
  end.
Proof.
  intros decision other a.
  assert ((λ r, VehicleAgent.assigned_tasks r.1)
            <$> VehicleAgent.process_messages MeshSimulator.send a 0
                  Sample.fleet1
          = Some [(PStr "T0", PStr "edge_7")]) as Hobs
    by (vm_compute; reflexivity).
  destruct (VehicleAgent.process_messages MeshSimulator.send a 0 Sample.fleet1)
    as [[a' mesh']|] eqn:E.
  - split.
    + exact (X3_assignments_from_decisions MeshSimulator.send a a' 0
               Sample.fleet1 mesh' E).
    + by injection Hobs.
  - discriminate Hobs.
Defined.


(** ** Empty ring, unknown recipients *)

Lemma warehouse_announcement_empty_ring (w : MeshSimulator.t) (sender : string)
    (msg : Message) (task_id : string) (t : Z) :
  MeshSimulator.ring w = [] →
  get msg "message_type" PNone = PStr "TASK_ANNOUNCEMENT" →
  get msg "task_id" (PStr "") = PStr task_id →
  MeshSimulator._process_message w sender msg t = Some w.
Proof.
  intros Hr Hty Hid. unfold MeshSimulator._process_message. rewrite Hty.
  destruct (String.eqb sender "warehouse"); simpl; [|done].
  unfold MeshSimulator._handle_warehouse_announcement. rewrite Hid.
  unfold MeshSimulator._assign_sod_task, MeshSimulator._forward_to_ring.
  rewrite Hr. by destruct (startswith task_id "SOD-").
Qed.

Lemma deliver_queue_empty_ring (pending : list (string * Message * option Z))
    (w : MeshSimulator.t) (sim_time : Z) :
  MeshSimulator.ring w = [] →
  Forall (λ '(_, msg, _),
            get msg "message_type" PNone = PStr "TASK_ANNOUNCEMENT"
            ∧ ∃ task_id, get msg "task_id" (PStr "") = PStr task_id) pending →
  MeshSimulator.deliver_queue pending w sim_time
  = Some (if pending is [] then w else MeshSimulator.set_message_queue w []).
Proof.
  revert w. induction pending as [|[[sender msg] msg_time] rest IH];
    intros w Hr Hall; simpl; [done|].
  apply Forall_cons in Hall as [[Hty [task_id Hid]] Hall].
  erewrite warehouse_announcement_empty_ring; [|done..]. simpl.
  rewrite IH by done. by destruct rest.
Qed.

(** X4: with an empty ring task announcements are no-ops: draining a queue
    of TASK_ANNOUNCEMENTs (start-of-day or not, from any sender) changes
    nothing but the queue, which ends empty; no round-robin index moves
    and nothing is delivered. *)
Theorem X4_empty_ring_is_inert (w : MeshSimulator.t) (sim_time : Z) :
  MeshSimulator.ring w = [] →
  Forall (λ '(_, msg, _),
            get msg "message_type" PNone = PStr "TASK_ANNOUNCEMENT"
            ∧ ∃ task_id, get msg "task_id" (PStr "") = PStr task_id)
         (MeshSimulator.message_queue w) →
  MeshSimulator.deliver_messages w sim_time
  = Some (MeshSimulator.set_message_queue w []).
Proof.
  intros Hr Hall. unfold MeshSimulator.deliver_messages.
  rewrite deliver_queue_empty_ring by done.
  destruct w as [ag cr q r i]. simpl. by destruct q.
Qed.

Lemma X4_empty_ring_is_inert_witness :
  let w := MeshSimulator.send
             (MeshSimulator.send (MeshSimulator.__init__ [] 600) "warehouse"
                (ODict (Sample.announcement "T1" 3)) None)
             "warehouse" (ODict (Sample.announcement "SOD-1" 1)) (Some 4%Z) in
  MeshSimulator.deliver_messages w 5 = Some (MeshSimulator.__init__ [] 600).
Proof.
  intros w. rewrite (X4_empty_ring_is_inert w 5); [reflexivity | reflexivity |].
  apply Forall_cons. split; [split; [reflexivity | by exists "T1"]|].
  apply Forall_cons. split; [split; [reflexivity | by exists "SOD-1"]|].
  apply Forall_nil_2.
Defined.

(** X5: a WINNER_DECISION sent to the fabric goes, unchanged, to the end of
    the inbox of the agent it names, and to nobody else; when no agent of
    that name is registered the delivery is skipped and the fabric is as
    it was before the send. *)
Theorem X5_decision_reaches_named_winner (w : MeshSimulator.t)
    (sender winner : string) (m : Message) (msg_time : option Z) (sim_time : Z) :
  MeshSimulator.message_queue w = [] →
  m !! "message_type" = Some (PStr "WINNER_DECISION") →
  m !! "winner" = Some (PStr winner) →
  MeshSimulator.deliver_messages
    (MeshSimulator.send w sender (ODict m) msg_time) sim_time
  = Some (match MeshSimulator.agents w !! winner with
          | Some a =>
              MeshSimulator.set_agents w
                (<[winner := VehicleAgent.set_inbox a
                               (VehicleAgent.inbox a ++ [m])]>
                   (MeshSimulator.agents w))
          | None => w
          end).
Proof.
  intros Hq Hty Hw. unfold MeshSimulator.deliver_messages, MeshSimulator.send.
  rewrite bool_decide_eq_true_2 by by eexists. simpl. rewrite Hq. simpl.
  unfold MeshSimulator._process_message.
  rewrite (get_lookup _ _ _ _ Hty). simpl.
  unfold MeshSimulator._handle_winner_decision.
  rewrite (get_lookup _ _ _ _ Hw). simpl.
  destruct (MeshSimulator.agents w !! winner) as [a|] eqn:Ea.
  - erewrite deliver_to_registered; [|exact Ea|by eexists].
    destruct w. simpl in *. by subst.
  - unfold MeshSimulator.deliver_to. simpl. rewrite Ea.
    destruct w. simpl in *. by subst.
Qed.

Lemma X5_decision_reaches_named_winner_witness :
  let m : Message :=
    {[ "message_type" := PStr "WINNER_DECISION"; "task_id" := PStr "T1";
       "winner" := PStr "B"; "delivery" := PStr "edge_7" ]} in
  inboxes <$> MeshSimulator.deliver_messages
                (MeshSimulator.send Sample.fleet2 "A" (ODict m) None) 3
  = Some [("A", Some []);
          ("B", Some [(PStr "WINNER_DECISION", PNone, Some SNone, PStr "B")])].
Proof.
  intros m.
  rewrite (X5_decision_reaches_named_winner Sample.fleet2 "A" "B" m None 3);
    reflexivity.
Defined.


(** ** Properties of the bid *)

Lemma bid_for_protocol (self : VehicleAgent.t) (msg : Message) (t : Z) (wt : Q) :
  py_float (get msg "weight" (PNum 0)) = Some wt →
  bid_for self msg t = Some (protocol_bid self wt).
Proof.
  intros Hw. unfold bid_for, protocol_bid. rewrite Hw.
  unfold mbind, option_bind at 1. unfold VehicleAgent.compute_bid.
  change (get _ "weight" (PNum 0)) with (PNum wt).
  change (py_float (PNum wt)) with (Some wt).
  unfold mbind, option_bind at 1.
  destruct (VehicleAgent.has_capacity self wt); [|done].
  change (negb true) with false. cbv iota.
  unfold VehicleAgent._calculate_base_cost.
  change (Qle_bool VehicleAgent.VERY_HIGH_BID 100) with false. cbv iota.
  reflexivity.
Qed.



Lemma compute_bid_inv (self : VehicleAgent.t)
    (task_info network_info : gmap string pyval) (b : Q) :
  VehicleAgent.compute_bid self task_info network_info = Some b →
  ∃ w, py_float (get task_info "weight" (PNum 0)) = Some w
    ∧ ((VehicleAgent.has_capacity self w = false
        ∧ b = VehicleAgent.VERY_HIGH_BID)
       ∨ (VehicleAgent.has_capacity self w = true
          ∧ ∃ tp, VehicleAgent._calculate_time_penalty self task_info 100
                    (get network_info "current_time" (PNum 0)) = Some tp
                  ∧ b = Qmin (100 * VehicleAgent._calculate_priority_multiplier self w
                                  * VehicleAgent._calculate_capacity_penalty self
                                  * tp)
                             VehicleAgent.VERY_HIGH_BID)).
Proof.
  unfold VehicleAgent.compute_bid.
  destruct (py_float _) as [w|]; [|done].
  unfold mbind, option_bind at 1. intros H. exists w. split; [done|].
  destruct (VehicleAgent.has_capacity self w).
  - right. split; [done|].
    change (negb true) with false in H. cbv iota in H.
    unfold VehicleAgent._calculate_base_cost in H.
    change (Qle_bool VehicleAgent.VERY_HIGH_BID 100) with false in H.
    cbv iota in H.
    destruct (VehicleAgent._calculate_time_penalty _ _ _ _) as [tp|]; [|done].
    exists tp. split; [done|]. by injection H as <-.
  - left. split; [done|]. by injection H as <-.
Qed.

Lemma priority_multiplier_pos (self : VehicleAgent.t) (w : Q) :
  (0 < VehicleAgent._calculate_priority_multiplier self w)%Q.
Proof.
  unfold VehicleAgent._calculate_priority_multiplier.
  destruct (Qle_bool 5 w); [done|]. by destruct (Qle_bool 2 w).
Qed.

Lemma time_penalty_ge_1 (self : VehicleAgent.t) (task_info : gmap string pyval)
    (base_cost tp : Q) (current_time : pyval) :
  VehicleAgent._calculate_time_penalty self task_info base_cost current_time
  = Some tp →
  (1 <= tp)%Q.
Proof.
  unfold VehicleAgent._calculate_time_penalty.
  destruct (get task_info "due_by" PNone) as [[| s | d] | l | m];
    try done; try (by intros [= <-]);
    destruct (py_float current_time) as [now|]; try done;
    unfold mbind, option_bind.
  repeat (case_match; try done); intros [= <-]; done.
Qed.

Lemma capacity_penalty_mono (a1 a2 : VehicleAgent.t) :
  VehicleAgent.capacity a1 = VehicleAgent.capacity a2 →
  (VehicleAgent.load a1 <= VehicleAgent.load a2)%Q →
  (VehicleAgent._calculate_capacity_penalty a1
   <= VehicleAgent._calculate_capacity_penalty a2)%Q.
Proof.
  intros Hc Hl. unfold VehicleAgent._calculate_capacity_penalty. rewrite Hc.
  case_Qle (VehicleAgent.capacity a2) 0%Q E; [lra|].
  assert (VehicleAgent.load a1 / VehicleAgent.capacity a2
          <= VehicleAgent.load a2 / VehicleAgent.capacity a2)%Q; [|lra].
  unfold Qdiv. apply Qmult_le_compat_r; [done|].
  apply Qlt_le_weak, Qinv_lt_0_compat. done.
Qed.

(** X7: of two vehicles of the same capacity, the fuller one never bids
    less for the same task: [compute_bid] is monotone in the load. *)
Theorem X7_bid_monotone_in_load (a1 a2 : VehicleAgent.t)
    (task_info network_info : gmap string pyval) (b1 b2 : Q) :
  VehicleAgent.capacity a1 = VehicleAgent.capacity a2 →
  (VehicleAgent.load a1 <= VehicleAgent.load a2)%Q →
  VehicleAgent.compute_bid a1 task_info network_info = Some b1 →
  VehicleAgent.compute_bid a2 task_info network_info = Some b2 →
  (b1 <= b2)%Q.
Proof.
  intros Hc Hl H1 H2.
  pose proof (compute_bid_le _ _ _ _ H1) as Hle1.
  destruct (compute_bid_inv _ _ _ _ H2) as (w & Hw & [[_ ->] | [Hcap2 (tp & Htp & ->)]]);
    [done|].
  destruct (compute_bid_inv _ _ _ _ H1) as (w' & Hw' & [[Hcap1 _] | [_ (tp' & Htp' & ->)]]).
  - rewrite Hw in Hw'. injection Hw' as <-.
    unfold VehicleAgent.has_capacity in *.
    apply Qle_bool_iff in Hcap2. apply Qle_bool_false in Hcap1.
    rewrite Hc in Hcap1. lra.
  - rewrite Hw in Hw'. injection Hw' as <-.
    change (VehicleAgent._calculate_time_penalty a1) with
      (VehicleAgent._calculate_time_penalty a2) in Htp'.
    rewrite Htp in Htp'. injection Htp' as <-.
    apply Q.min_le_compat_r.
    pose proof (time_penalty_ge_1 _ _ _ _ _ Htp).
    pose proof (priority_multiplier_pos a2 w).
    change (VehicleAgent._calculate_priority_multiplier a1 w) with
      (VehicleAgent._calculate_priority_multiplier a2 w).
    apply Qmult_le_compat_r; [|lra].
    apply Qmult_le_l; [|by apply capacity_penalty_mono].
    nra.
Qed.


Lemma X7_bid_monotone_in_load_witness :
  let a1 := Sample.vehicle "A" 10 in
  let a2 := VehicleAgent.mk "B" (0%Q, 0%Q) 10 100 4 [] [] 0 in
  let net : gmap string pyval := {[ "current_time" := PNum 0 ]} in
  match VehicleAgent.compute_bid a1 (Sample.task "T1" 3) net,
        VehicleAgent.compute_bid a2 (Sample.task "T1" 3) net with
  | Some b1, Some b2 => (b1 <= b2)%Q ∧ (b1 == 100)%Q ∧ (b2 == 180)%Q
  | _, _ => False
  end.
Proof.
  intros a1 a2 net.
  assert (VehicleAgent.capacity a1 = VehicleAgent.capacity a2) as Hc
    by reflexivity.
  assert (VehicleAgent.load a1 <= VehicleAgent.load a2)%Q as Hl
    by (by vm_compute).
  destruct (VehicleAgent.compute_bid a1 (Sample.task "T1" 3) net)
    as [b1|] eqn:E1; [|vm_compute in E1; discriminate E1].
  destruct (VehicleAgent.compute_bid a2 (Sample.task "T1" 3) net)
    as [b2|] eqn:E2; [|vm_compute in E2; discriminate E2].
  split.
  - exact (X7_bid_monotone_in_load a1 a2 _ _ b1 b2 Hc Hl E1 E2).
  - vm_compute in E1, E2. injection E1 as <-. injection E2 as <-.
    split; reflexivity.
Defined.


Lemma capacity_penalty_ge_1 (self : VehicleAgent.t) :
  (0 <= VehicleAgent.load self)%Q →
  (1 <= VehicleAgent._calculate_capacity_penalty self)%Q.
Proof.
  intros Hl. unfold VehicleAgent._calculate_capacity_penalty.
  case_Qle (VehicleAgent.capacity self) 0%Q E; [lra|].
  assert (0 <= VehicleAgent.load self / VehicleAgent.capacity self)%Q; [|lra].
  unfold Qdiv. apply Qmult_le_0_compat; [done|].
  by apply Qlt_le_weak, Qinv_lt_0_compat.
Qed.

Lemma time_penalty_due (self : VehicleAgent.t) (task_info : gmap string pyval)
    (base_cost d tp : Q) (current_time : pyval) :
  VehicleAgent._calculate_time_penalty self (<["due_by" := PNum d]> task_info)
    base_cost current_time = Some tp →
  ∃ now, py_float current_time = Some now
    ∧ tp = (let slack := (d - (now + base_cost / 10))%Q in
            if Qle_bool slack 0 then (3 * 2)%Q
            else if Qle_bool slack 100 then 3%Q
            else if Qle_bool slack 300 then 3 # 2 else 1%Q).
Proof.
  unfold VehicleAgent._calculate_time_penalty, get.
  rewrite lookup_insert_eq. simpl.
  destruct (py_float current_time) as [now|]; simpl; [|done].
  intros H. exists now. split; [done|].
  repeat case_match; by injection H as <-.
Qed.

Lemma time_penalty_antitone (self : VehicleAgent.t)
    (task_info : gmap string pyval) (base_cost d1 d2 tp1 tp2 : Q)
    (current_time : pyval) :
  (d1 <= d2)%Q →
  VehicleAgent._calculate_time_penalty self (<["due_by" := PNum d1]> task_info)
    base_cost current_time = Some tp1 →
  VehicleAgent._calculate_time_penalty self (<["due_by" := PNum d2]> task_info)
    base_cost current_time = Some tp2 →
  (tp2 <= tp1)%Q.
Proof.
  intros Hd H1 H2.
  apply time_penalty_due in H1 as (now & Hn & ->).
  apply time_penalty_due in H2 as (now' & Hn' & ->).
  rewrite Hn in Hn'. injection Hn' as <-. cbv zeta.
  set (s1 := (d1 - (now + base_cost / 10))%Q).
  set (s2 := (d2 - (now + base_cost / 10))%Q).
  assert (s1 <= s2)%Q as Hs by (unfold s1, s2; lra).
  case_Qle s1 0%Q A1; case_Qle s2 0%Q B1; try lra;
    case_Qle s1 100%Q A2; case_Qle s2 100%Q B2; try lra;
    case_Qle s1 300%Q A3; case_Qle s2 300%Q B3; lra.
Qed.

(** X8: for a vehicle with a load that is not negative, a later deadline
    never raises the bid, and the same task without a deadline is bid for
    at most as high as with any deadline: [compute_bid] is antitone in
    [due_by]. *)
Theorem X8_bid_antitone_in_deadline (self : VehicleAgent.t)
    (task_info network_info : gmap string pyval) (d1 d2 b1 b2 : Q) :
  (0 <= VehicleAgent.load self)%Q →
  (d1 <= d2)%Q →
  VehicleAgent.compute_bid self (<["due_by" := PNum d1]> task_info) network_info
  = Some b1 →
  VehicleAgent.compute_bid self (<["due_by" := PNum d2]> task_info) network_info
  = Some b2 →
  (b2 <= b1)%Q
  ∧ ∀ b0, VehicleAgent.compute_bid self (delete "due_by" task_info) network_info
          = Some b0 →
          (b0 <= b2)%Q.
Proof.
  intros Hl Hd H1 H2.
  assert (∀ d, get (<["due_by" := PNum d]> task_info) "weight" (PNum 0)
               = get task_info "weight" (PNum 0)) as Hw
    by (intros d; unfold get; by rewrite lookup_insert_ne).
  assert (get (delete "due_by" task_info) "weight" (PNum 0)
          = get task_info "weight" (PNum 0)) as Hw0
    by (unfold get; by rewrite lookup_delete_ne).
  pose proof (capacity_penalty_ge_1 self Hl) as Hcp.
  destruct (compute_bid_inv _ _ _ _ H1)
    as (w & Hw1 & [[Hc1 ->] | [Hc1 (tp1 & Htp1 & ->)]]);
  destruct (compute_bid_inv _ _ _ _ H2)
    as (w' & Hw2 & [[Hc2 ->] | [Hc2 (tp2 & Htp2 & ->)]]);
  rewrite Hw in Hw1, Hw2; rewrite Hw1 in Hw2; injection Hw2 as <-;
    try congruence.
  - split; [lra|]. intros b0 H0. by eapply compute_bid_le.
  - pose proof (priority_multiplier_pos self w) as Hpm.
    pose proof (time_penalty_antitone _ _ _ _ _ _ _ _ Hd Htp1 Htp2) as Htp.
    pose proof (time_penalty_ge_1 _ _ _ _ _ Htp2) as Htp2'.
    split.
    + apply Q.min_le_compat_r. apply Qmult_le_l; [nra | done].
    + intros b0 H0.
      destruct (compute_bid_inv _ _ _ _ H0)
        as (w0 & Hw0' & [[Hc0 ->] | [Hc0 (tp0 & Htp0 & ->)]]);
        rewrite Hw0, Hw1 in Hw0'; injection Hw0' as <-; [congruence|].
      assert (tp0 = 1%Q) as ->.
      { unfold VehicleAgent._calculate_time_penalty, get in Htp0.
        rewrite lookup_delete_eq in Htp0. simpl in Htp0. congruence. }
      apply Q.min_le_compat_r. apply Qmult_le_l; [nra | done].
Qed.


Lemma X8_bid_antitone_in_deadline_witness :
  let self := Sample.vehicle "A" 10 in
  let net : gmap string pyval := {[ "current_time" := PNum 0 ]} in
  match VehicleAgent.compute_bid self
          (<["due_by" := PNum 50]> (Sample.task "T1" 3)) net,
        VehicleAgent.compute_bid self
          (<["due_by" := PNum 200]> (Sample.task "T1" 3)) net with
  | Some b1, Some b2 =>
      ((b2 <= b1)%Q
       ∧ ∀ b0, VehicleAgent.compute_bid self
                 (delete "due_by" (Sample.task "T1" 3)) net = Some b0 →
               (b0 <= b2)%Q)
      ∧ (b1 == 300)%Q ∧ (b2 == 150)%Q
  | _, _ => False
  end.
Proof.
  intros self net.
  assert (0 <= VehicleAgent.load self)%Q as Hl by (by vm_compute).
  assert (50 <= 200)%Q as Hd by (by vm_compute).
  destruct (VehicleAgent.compute_bid self
              (<["due_by" := PNum 50]> (Sample.task "T1" 3)) net)
    as [b1|] eqn:E1; [|vm_compute in E1; discriminate E1].
  destruct (VehicleAgent.compute_bid self
              (<["due_by" := PNum 200]> (Sample.task "T1" 3)) net)
    as [b2|] eqn:E2; [|vm_compute in E2; discriminate E2].
  split.
  - exact (X8_bid_antitone_in_deadline self (Sample.task "T1" 3) net 50 200
             b1 b2 Hl Hd E1 E2).
  - vm_compute in E1, E2. injection E1 as <-. injection E2 as <-.
    split; reflexivity.
Defined.


(** ** The next unvisited ring member *)

Lemma scan_ring_find (ring path : list string) (idx : nat)
    (offsets : list nat) (elems : list string) :
  Forall2 (λ offset e, ring !! ((idx + offset) mod length ring) = Some e)
          offsets elems →
  MeshSimulator.scan_ring ring idx path offsets
  = find (λ agent, negb (bool_decide (agent ∈ path))) elems.
Proof.
  induction 1 as [|offset e offsets elems He _ IH]; simpl; [done|].
  rewrite He. by destruct (negb _).
Qed.

Lemma ring_rotation (pre suf : list string) (current : string) :
  let ring := pre ++ current :: suf in
  Forall2 (λ offset e,
             ring !! ((length pre + offset) mod length ring) = Some e)
          (seq 1 (length ring)) (suf ++ pre ++ [current]).
Proof.
  intros ring.
  assert (length ring = length pre + S (length suf)) as Hn
    by (unfold ring; rewrite length_app; simpl; lia).
  apply Forall2_same_length_lookup_2.
  { rewrite length_seq, !length_app. simpl. lia. }
  intros i offset e Ho He. apply lookup_seq in Ho as [-> Hi].
  destruct (decide (i < length suf)) as [Hlt | Hge].
  - rewrite lookup_app_l in He by done.
    rewrite Nat.mod_small by lia. unfold ring.
    rewrite lookup_app_r by lia.
    replace (length pre + (1 + i) - length pre) with (S i) by lia. done.
  - rewrite lookup_app_r in He by lia.
    replace ((length pre + (1 + i)) mod length ring) with (i - length suf).
    + unfold ring.
      destruct (decide (i - length suf < length pre)) as [Hp | Hp].
      * rewrite lookup_app_l in He by done. by rewrite lookup_app_l.
      * rewrite lookup_app_r in He by lia. rewrite lookup_app_r by lia.
        destruct (i - length suf - length pre) eqn:Ei; [done|].
        simpl in He. by rewrite lookup_nil in He.
    + apply (Nat.mod_unique _ _ 1); lia.
Qed.

Lemma find_unvisited_none (path l : list string) :
  find (λ agent, negb (bool_decide (agent ∈ path))) l = None
  ↔ ∀ r, r ∈ l → r ∈ path.
Proof.
  split.
  - intros H r Hr. apply list_elem_of_In in Hr.
    pose proof (find_none _ _ H r Hr) as Hf. simpl in Hf.
    apply negb_false_iff in Hf. by apply bool_decide_eq_true in Hf.
  - intros H. destruct (find _ l) as [r|] eqn:E; [|done].
    apply find_some in E as [Hr Hf]. apply list_elem_of_In in Hr.
    apply negb_true_iff in Hf.
    apply bool_decide_eq_false in Hf. destruct Hf. by apply H.
Qed.

Lemma find_next_in_ring_warehouse (self : MeshSimulator.t) (path : list string) :
  MeshSimulator._find_next_in_ring self "warehouse" path
  = find (λ agent, negb (bool_decide (agent ∈ path))) (MeshSimulator.ring self).
Proof. reflexivity. Qed.

Lemma find_next_in_ring_rotation (self : MeshSimulator.t) (current : string)
    (path pre suf : list string) :
  current ≠ "warehouse" →
  MeshSimulator.ring self = pre ++ current :: suf → current ∉ pre →
  MeshSimulator._find_next_in_ring self current path
  = find (λ agent, negb (bool_decide (agent ∈ path))) (suf ++ pre ++ [current]).
Proof.
  intros Hne Hr Hpre. unfold MeshSimulator._find_next_in_ring.
  assert (String.eqb current "warehouse" = false) as ->
    by by apply String.eqb_neq.
  rewrite Hr.
  rewrite bool_decide_eq_true_2 by (apply elem_of_app; right; left).
  rewrite list_index_first by done. simpl.
  apply scan_ring_find. apply ring_rotation.
Qed.

(** X9: [_find_next_in_ring] returns the first ring member that is not on
    the path, looking round the ring from just after the first position
    of [current] and ending with [current] itself (from the start of the
    ring when [current] is the warehouse sentinel).  So it answers [None]
    exactly when every ring member is on the path, and also for a
    [current] that is neither the sentinel nor a ring member. *)
Theorem X9_find_next_in_ring_first_unvisited (self : MeshSimulator.t)
    (current : string) (path : list string) :
  let unvisited := λ agent, negb (bool_decide (agent ∈ path)) in
  (current = "warehouse" →
     MeshSimulator._find_next_in_ring self current path
     = find unvisited (MeshSimulator.ring self))
  ∧ (∀ pre suf,
       current ≠ "warehouse" →
       MeshSimulator.ring self = pre ++ current :: suf → current ∉ pre →
       MeshSimulator._find_next_in_ring self current path
       = find unvisited (suf ++ pre ++ [current]))
  ∧ (current ≠ "warehouse" → current ∉ MeshSimulator.ring self →
       MeshSimulator._find_next_in_ring self current path = None)
  ∧ (current = "warehouse" ∨ current ∈ MeshSimulator.ring self →
       (MeshSimulator._find_next_in_ring self current path = None
        ↔ ∀ r, r ∈ MeshSimulator.ring self → r ∈ path)).
Proof.
  intros unvisited.
  split; [|split; [|split]].
  - intros ->. reflexivity.
  - intros pre suf. apply find_next_in_ring_rotation.
  - intros Hne Hnot. unfold MeshSimulator._find_next_in_ring.
    assert (String.eqb current "warehouse" = false) as ->
      by by apply String.eqb_neq.
    by rewrite bool_decide_eq_false_2.
  - intros [-> | Hin].
    + apply find_unvisited_none.
    + destruct (decide (current = "warehouse")) as [-> | Hne];
        [apply find_unvisited_none|].
      apply list_elem_of_split_l in Hin as (pre & suf & Hr & Hpre).
      rewrite (find_next_in_ring_rotation _ _ _ pre suf Hne Hr Hpre).
      rewrite find_unvisited_none, Hr.
      split; intros H r Hr'; apply H; revert Hr';
        rewrite !elem_of_app, !elem_of_cons, elem_of_nil; tauto.
Qed.


(** ** Start-of-day round robin *)

Lemma sod_winner_mod (ring : list string) (i i' : Z) :
  (i mod Z.of_nat (length ring) = i' mod Z.of_nat (length ring))%Z →
  sod_winner ring i = sod_winner ring i'.
Proof. unfold sod_winner. by intros ->. Qed.

Lemma sod_wins_mod (ring : list string) (n : nat) (i i' : Z) (k : string) :
  (i mod Z.of_nat (length ring) = i' mod Z.of_nat (length ring))%Z →
  sod_wins ring i n k = sod_wins ring i' n k.
Proof.
  revert i i'. induction n as [|n IH]; intros i i' H; simpl; [done|].
  rewrite (sod_winner_mod ring i i' H). f_equal. apply IH.
  by rewrite (Zplus_mod i), (Zplus_mod i'), H.
Qed.

Lemma sod_wins_add (ring : list string) (n1 n2 : nat) (i : Z) (k : string) :
  sod_wins ring i (n1 + n2) k
  = sod_wins ring i n1 k + sod_wins ring (i + Z.of_nat n1) n2 k.
Proof.
  revert i. induction n1 as [|n1 IH]; intros i.
  - simpl. by rewrite Z.add_0_r.
  - cbn [Nat.add sod_wins]. rewrite IH.
    replace (i + 1 + Z.of_nat n1)%Z with (i + Z.of_nat (S n1))%Z by lia. lia.
Qed.

Lemma sod_wins_nowrap (ring : list string) (n a : nat) (k : string) :
  a + n ≤ length ring →
  sod_wins ring (Z.of_nat a) n k
  = length (filter (λ r, r = k) (take n (drop a ring))).
Proof.
  revert a. induction n as [|n IH]; intros a Ha; simpl; [done|].
  destruct (lookup_lt_is_Some_2 ring a) as [r Hr]; [lia|].
  assert (sod_winner ring (Z.of_nat a) = Some r) as ->.
  { unfold sod_winner. rewrite Z.mod_small by lia. by rewrite Nat2Z.id. }
  rewrite (drop_S _ _ _ Hr). simpl.
  replace (Z.of_nat a + 1)%Z with (Z.of_nat (S a)) by lia.
  rewrite IH by lia.
  destruct (decide (r = k)) as [-> | Hne].
  - rewrite decide_True by done. by rewrite filter_cons_True.
  - rewrite decide_False by congruence. by rewrite filter_cons_False.
Qed.

Lemma occurrences_NoDup (l : list string) (k : string) :
  NoDup l → k ∈ l → length (filter (λ r, r = k) l) = 1.
Proof.
  intros Hnd Hk. apply list_elem_of_split in Hk as (l1 & l2 & ->).
  apply NoDup_app in Hnd as (_ & Hd & Hnd2).
  apply NoDup_cons in Hnd2 as [Hk2 _].
  rewrite filter_app, filter_cons_True by done.
  rewrite !filter_absent; [done | done |].
  intros Hk1. apply (Hd k Hk1). by left.
Qed.

(** A full round picks every ring member exactly once. *)
Lemma sod_wins_round (ring : list string) (i : Z) (k : string) :
  NoDup ring → k ∈ ring → sod_wins ring i (length ring) k = 1.
Proof.
  intros Hnd Hk.
  set (R := Z.of_nat (length ring)).
  assert (0 < R)%Z as HR.
  { unfold R. destruct ring; [by apply elem_of_nil in Hk | simpl; lia]. }
  pose proof (Z.mod_pos_bound i R HR) as Hs.
  set (s := Z.to_nat (i mod R)).
  rewrite (sod_wins_mod ring _ i (Z.of_nat s)).
  2:{ fold R. unfold s. rewrite Z2Nat.id by lia. by rewrite Zmod_mod. }
  replace (length ring) with ((length ring - s) + s) at 1 by (unfold s, R in *; lia).
  rewrite sod_wins_add.
  rewrite sod_wins_nowrap by (unfold s, R in *; lia).
  rewrite (sod_wins_mod ring s _ (Z.of_nat 0)).
  2:{ fold R. replace (Z.of_nat s + Z.of_nat (length ring - s))%Z with (0 + 1 * R)%Z
        by (unfold s, R in *; lia).
      rewrite Z_mod_plus_full. done. }
  rewrite sod_wins_nowrap by (unfold s, R in *; lia).
  rewrite drop_0, take_ge by (rewrite length_drop; lia).
  rewrite Nat.add_comm, <- length_app, <- filter_app, take_drop.
  by apply occurrences_NoDup.
Qed.

(** Among any [n] consecutive tasks every ring member is picked [n / R]
    or [n / R + 1] times. *)
Lemma sod_wins_fair (ring : list string) (i : Z) (n : nat) (k : string) :
  NoDup ring → k ∈ ring →
  n / length ring ≤ sod_wins ring i n k ≤ n / length ring + 1.
Proof.
  intros Hnd Hk.
  assert (0 < length ring) as HR
    by (destruct ring; [by apply elem_of_nil in Hk | simpl; lia]).
  assert (∀ q i, sod_wins ring i (q * length ring) k = q) as Hq.
  { intros q. induction q as [|q IH]; intros j; [done|].
    simpl. rewrite sod_wins_add, sod_wins_round, IH by done. done. }
  assert (∀ r i, r ≤ length ring → sod_wins ring i r k ≤ 1) as Hr.
  { intros r j Hle.
    assert (sod_wins ring j (r + (length ring - r)) k = 1) as H1.
    { replace (r + (length ring - r)) with (length ring) by lia.
      by apply sod_wins_round. }
    rewrite sod_wins_add in H1. lia. }
  pose proof (Nat.div_mod_eq n (length ring)) as Hn.
  pose proof (Nat.mod_upper_bound n (length ring)) as Hm.
  assert (sod_wins ring i n k
          = sod_wins ring i (n / length ring * length ring + n mod length ring) k)
    as -> by (f_equal; lia).
  rewrite sod_wins_add, Hq.
  specialize (Hr (n mod length ring)
                 (i + Z.of_nat (n / length ring * length ring))%Z).
  lia.
Qed.


Lemma assign_sod_task_step (w : MeshSimulator.t) (msg : Message) (t : Z) :
  MeshSimulator.ring w ≠ [] →
  (∀ k, k ∈ MeshSimulator.ring w → is_Some (MeshSimulator.agents w !! k)) →
  ∃ winner a decision,
    sod_winner (MeshSimulator.ring w) (MeshSimulator.sod_assign_index w)
    = Some winner
    ∧ MeshSimulator.agents w !! winner = Some a
    ∧ is_decision decision
    ∧ decision !! "winner" = Some (PStr winner)
    ∧ MeshSimulator._assign_sod_task w msg t
      = MeshSimulator.mk
          (<[winner := VehicleAgent.set_inbox a
                         (VehicleAgent.inbox a ++ [decision])]>
             (MeshSimulator.agents w))
          (MeshSimulator.comm_range w) (MeshSimulator.message_queue w)
          (MeshSimulator.ring w) (MeshSimulator.sod_assign_index w + 1).
Proof.
  intros Hring Hreg.
  set (i := MeshSimulator.sod_assign_index w).
  set (R := Z.of_nat (length (MeshSimulator.ring w))).
  assert (0 < R)%Z as HR.
  { unfold R. destruct (MeshSimulator.ring w); [done | simpl; lia]. }
  destruct (lookup_lt_is_Some_2 (MeshSimulator.ring w) (Z.to_nat (i mod R)))
    as [winner Hw].
  { pose proof (Z.mod_pos_bound i R HR). unfold R in *. lia. }
  destruct (Hreg winner) as [a Ha]; [by eapply list_elem_of_lookup_2|].
  eexists winner, a, _. split; [exact Hw|]. split; [exact Ha|].
  split; [|split]; cycle 2.
  - unfold MeshSimulator._assign_sod_task.
    assert (∀ X : MeshSimulator.t,
              match MeshSimulator.ring w with [] => w | _ :: _ => X end = X)
      as -> by by destruct (MeshSimulator.ring w).
    fold R i. rewrite Hw.
    erewrite deliver_to_registered; [reflexivity | exact Ha | by eexists].
  - reflexivity.
  - reflexivity.
Qed.

Lemma process_sod_entry (w : MeshSimulator.t) (msg : Message)
    (msg_time : option Z) (t : Z) :
  is_sod_entry ("warehouse", msg, msg_time) →
  MeshSimulator._process_message w "warehouse" msg t
  = Some (MeshSimulator._assign_sod_task w msg t).
Proof.
  intros (_ & Hty & task_id & Hid & Hsod).
  unfold MeshSimulator._process_message. rewrite Hty. simpl.
  unfold MeshSimulator._handle_warehouse_announcement. by rewrite Hid, Hsod.
Qed.

Lemma deliver_queue_sod (pending : list (string * Message * option Z))
    (w : MeshSimulator.t) (sim_time : Z) :
  MeshSimulator.ring w ≠ [] →
  (∀ k, k ∈ MeshSimulator.ring w → is_Some (MeshSimulator.agents w !! k)) →
  Forall is_sod_entry pending →
  ∃ w', MeshSimulator.deliver_queue pending w sim_time = Some w'
    ∧ MeshSimulator.sod_assign_index w'
      = (MeshSimulator.sod_assign_index w + Z.of_nat (length pending))%Z
    ∧ MeshSimulator.ring w' = MeshSimulator.ring w
    ∧ ∀ k a, MeshSimulator.agents w !! k = Some a →
        ∃ a' new,
          MeshSimulator.agents w' !! k = Some a'
          ∧ VehicleAgent.inbox a' = VehicleAgent.inbox a ++ new
          ∧ length new
            = sod_wins (MeshSimulator.ring w) (MeshSimulator.sod_assign_index w)
                (length pending) k
          ∧ Forall (λ m, is_decision m ∧ m !! "winner" = Some (PStr k)) new.
Proof.
  revert w. induction pending as [|[[sender msg] msg_time] rest IH];
    intros w Hring Hreg Hall.
  - exists w. simpl. split; [done|]. split; [lia|]. split; [done|].
    intros k a Ha. exists a, []. by rewrite app_nil_r.
  - apply Forall_cons in Hall as [Hsod Hall].
    assert (sender = "warehouse") as -> by by destruct Hsod.
    cbn [MeshSimulator.deliver_queue].
    rewrite (process_sod_entry _ _ msg_time) by done.
    destruct (assign_sod_task_step (MeshSimulator.set_message_queue w rest) msg
                (default sim_time msg_time) Hring Hreg)
      as (winner & aw & decision & Hwin & Haw & Hd & Hdw & ->).
    cbn [MeshSimulator.set_message_queue MeshSimulator.agents MeshSimulator.ring
         MeshSimulator.sod_assign_index MeshSimulator.comm_range
         MeshSimulator.message_queue] in *.
    cbn [mbind option_bind].
    match goal with |- context [MeshSimulator.deliver_queue rest ?w1 _] =>
      destruct (IH w1) as (w' & Hrun & Hidx & Hr & Hag) end; [done | | done |].
    { simpl. intros k Hk. destruct (decide (winner = k)) as [<- | Hne].
      - rewrite lookup_insert_eq. by eexists.
      - rewrite lookup_insert_ne by done. by apply Hreg. }
    exists w'. split; [exact Hrun|]. simpl in Hidx, Hr, Hag.
    split; [rewrite Hidx; cbn [length]; lia|]. split; [done|].
    intros k a Ha. cbn [length sod_wins]. rewrite Hwin.
    destruct (decide (winner = k)) as [<- | Hne].
    + rewrite Haw in Ha. injection Ha as <-.
      destruct (Hag winner _ (lookup_insert_eq _ _ _))
        as (a' & new & Ha' & Hin & Hlen & Hall').
      exists a', (decision :: new). split; [done|]. split.
      { rewrite Hin. simpl. by rewrite <- app_assoc. }
      split; [rewrite decide_True by done; simpl; by rewrite Hlen|].
      by constructor.
    + destruct (Hag k a) as (a' & new & Ha' & Hin & Hlen & Hall').
      { by rewrite lookup_insert_ne. }
      exists a', new. split; [done|]. split; [done|]. split; [|done].
      rewrite decide_False by congruence. done.
Qed.

(** X10: a queue of [n] start-of-day announcements of the warehouse is
    resolved round robin over a ring of [R] distinct registered agents:
    the index advances by [n], and every ring member gets, at the end of
    its inbox, only decisions that name it, [n / R] or [n / R + 1] of
    them, and exactly one when [n = R]. *)
Theorem X10_sod_round_robin_fair (w : MeshSimulator.t) (sim_time : Z) :
  NoDup (MeshSimulator.ring w) →
  MeshSimulator.ring w ≠ [] →
  (∀ k, k ∈ MeshSimulator.ring w → is_Some (MeshSimulator.agents w !! k)) →
  Forall is_sod_entry (MeshSimulator.message_queue w) →
  let n := length (MeshSimulator.message_queue w) in
  let R := length (MeshSimulator.ring w) in
  ∃ w', MeshSimulator.deliver_messages w sim_time = Some w'
    ∧ MeshSimulator.sod_assign_index w'
      = (MeshSimulator.sod_assign_index w + Z.of_nat n)%Z
    ∧ ∀ k a, k ∈ MeshSimulator.ring w → MeshSimulator.agents w !! k = Some a →
        ∃ a' new,
          MeshSimulator.agents w' !! k = Some a'
          ∧ VehicleAgent.inbox a' = VehicleAgent.inbox a ++ new
          ∧ Forall (λ m, is_decision m ∧ m !! "winner" = Some (PStr k)) new
          ∧ length new
            = sod_wins (MeshSimulator.ring w) (MeshSimulator.sod_assign_index w)
                n k
          ∧ n / R ≤ length new ≤ n / R + 1
          ∧ (n = R → length new = 1).
Proof.
  intros Hnd Hring Hreg Hall n R.
  destruct (deliver_queue_sod _ w sim_time Hring Hreg Hall)
    as (w' & Hrun & Hidx & _ & Hag).
  exists w'. split; [exact Hrun|]. split; [exact Hidx|].
  intros k a Hk Ha. destruct (Hag k a Ha) as (a' & new & Ha' & Hin & Hlen & Hf).
  exists a', new. repeat (split; [done|]). rewrite Hlen. split.
  - by apply sod_wins_fair.
  - unfold n, R. intros ->. by apply sod_wins_round.
Qed.

Lemma X10_sod_round_robin_fair_witness :
  let w := MeshSimulator.send
             (MeshSimulator.send
                (MeshSimulator.send Sample.fleet2 "warehouse"
                   (ODict (Sample.announcement "SOD-1" 1)) None)
                "warehouse" (ODict (Sample.announcement "SOD-2" 1)) None)
             "warehouse" (ODict (Sample.announcement "SOD-3" 1)) None in
  ∃ w', MeshSimulator.deliver_messages w 0 = Some w'
        ∧ MeshSimulator.sod_assign_index w' = 3%Z
        ∧ (length <$> (VehicleAgent.inbox <$> MeshSimulator.agents w' !! "A"))
          = Some 2
        ∧ (length <$> (VehicleAgent.inbox <$> MeshSimulator.agents w' !! "B"))
          = Some 1.
Proof.
  intros w.
  destruct (X10_sod_round_robin_fair w 0) as (w' & Hrun & Hidx & Hag).
  - change (NoDup ["A"; "B"]).
    apply NoDup_cons. split; [by intros [=]%list_elem_of_singleton|].
    apply NoDup_singleton.
  - discriminate.
  - intros k Hk. change (k ∈ ["A"; "B"]) in Hk.
    apply elem_of_cons in Hk as [-> | ->%list_elem_of_singleton]; by eexists.
  - repeat (apply Forall_cons; split;
            [split; [reflexivity|split; [reflexivity|eexists; split; reflexivity]]|]).
    apply Forall_nil_2.
  - exists w'. split; [exact Hrun|]. split; [exact Hidx|].
    destruct (Hag "A" (Sample.vehicle "A" 10))
      as (a' & new & Ha & Hin & _ & Hl & _);
      [change ("A" ∈ ["A"; "B"]); apply list_elem_of_here | reflexivity |].
    destruct (Hag "B" (Sample.vehicle "B" 10))
      as (b' & new' & Hb & Hin' & _ & Hl' & _);
      [change ("B" ∈ ["A"; "B"]); apply list_elem_of_further, list_elem_of_here
      | reflexivity |].
    rewrite Ha, Hb. cbn [fmap option_fmap option_map].
    rewrite Hin, Hin', !length_app, Hl, Hl'. split; reflexivity.
Defined.

(** ** The traversal follows the ring and keeps the lowest bid *)

Lemma protocol_bid_static (a a0 : VehicleAgent.t) (wt : Q) :
  static a = static a0 → protocol_bid a wt = protocol_bid a0 wt.
Proof.
  unfold static. intros [= _ Hl Hc].
  unfold protocol_bid, VehicleAgent.has_capacity,
    VehicleAgent._calculate_capacity_penalty,
    VehicleAgent._calculate_priority_multiplier.
  by rewrite Hl, Hc.
Qed.

(** The next agent after a path that is a prefix of the ring is the next
    ring member; there is none exactly when the path is the whole ring. *)
Lemma next_follows_ring (self : MeshSimulator.t) (rest : list string)
    (la : string) :
  NoDup (MeshSimulator.ring self) → "warehouse" ∉ MeshSimulator.ring self →
  rest `prefix_of` MeshSimulator.ring self →
  last ("warehouse" :: rest) = Some la →
  match MeshSimulator._find_next_in_ring self la ("warehouse" :: rest) with
  | Some next => (rest ++ [next]) `prefix_of` MeshSimulator.ring self
  | None => rest = MeshSimulator.ring self
  end.
Proof.
  intros Hnd Hw [tail Hr] Hl.
  destruct rest as [|x rest' _] using rev_ind.
  - simpl in Hl. injection Hl as <-. rewrite find_next_in_ring_warehouse.
    simpl in Hr. rewrite Hr. destruct tail as [|t0 tl]; [done|].
    simpl. rewrite bool_decide_eq_false_2.
    + simpl. by exists tl.
    + rewrite list_elem_of_singleton. intros ->. apply Hw.
      rewrite Hr. by left.
  - rewrite app_comm_cons, last_snoc in Hl. injection Hl as <-.
    rewrite <- app_assoc in Hr. simpl in Hr.
    assert (x ≠ "warehouse") as Hx.
    { intros ->. apply Hw. rewrite Hr. apply elem_of_app. right. by left. }
    pose proof Hnd as Hnd'. rewrite Hr in Hnd'.
    apply NoDup_app in Hnd' as (Hnd1 & Hnd2 & Hnd3).
    apply NoDup_cons in Hnd3 as [Hnd3 Hnd4].
    assert (x ∉ rest') as Hxr by (intros Hin; apply (Hnd2 x Hin); by left).
    rewrite (find_next_in_ring_rotation self x _ rest' tail Hx Hr Hxr).
    destruct tail as [|t0 tl].
    + simpl.
      assert (find (λ agent, negb (bool_decide
                (agent ∈ "warehouse" :: rest' ++ [x]))) (rest' ++ [x]) = None)
        as -> by (apply find_unvisited_none; intros r Hin; by right).
      by rewrite Hr.
    + simpl. rewrite bool_decide_eq_false_2.
      * simpl. exists tl. by rewrite Hr, <- !app_assoc.
      * intros [-> | [Hin | ->%list_elem_of_singleton]%elem_of_app]%elem_of_cons.
        -- apply Hw. rewrite Hr. apply elem_of_app. right. right. by left.
        -- apply (Hnd2 t0 Hin). right. by left.
        -- apply Hnd3. by left.
Qed.

(** The fabric's handler starts the backtrace only when no ring member
    is left (or the next one has the empty id). *)
Lemma mesh_forward_backtrace (self self' : MeshSimulator.t) (sender : string)
    (msg : Message) (t : Z) :
  MeshSimulator._handle_forward_announcement self sender msg t = Some self' →
  (truthy (get msg "path" (PList [])) = false ∧ self' = self)
  ∨ (∃ p last_agent next,
       get msg "path" (PList []) = PList p
       ∧ last p = Some last_agent
       ∧ MeshSimulator._find_next_in_ring self last_agent p = Some next
       ∧ next ≠ ""
       ∧ self' = MeshSimulator.deliver_to self next
                   (<["path" := PList (p ++ [next])]> msg))
  ∨ (∃ p last_agent,
       get msg "path" (PList []) = PList p
       ∧ last p = Some last_agent
       ∧ (MeshSimulator._find_next_in_ring self last_agent p = None
          ∨ MeshSimulator._find_next_in_ring self last_agent p = Some "")
       ∧ MeshSimulator._start_backtrace self msg t = Some self').
Proof.
  unfold MeshSimulator._handle_forward_announcement. intros H.
  destruct (truthy (get msg "path" (PList []))) eqn:Et; simpl in H;
    [|left; split; [done | congruence]].
  right.
  destruct (get msg "path" (PList [])) as [x | p | d] eqn:Ep; try done.
  destruct (last p) as [last_agent|] eqn:El; simpl in H; [|done].
  destruct (MeshSimulator._find_next_in_ring self last_agent p)
    as [next|] eqn:En.
  - destruct (String.eqb next "") eqn:Ee.
    + right. exists p, last_agent. apply String.eqb_eq in Ee as ->. auto.
    + left. exists p, last_agent, next. apply String.eqb_neq in Ee.
      repeat split; try done. congruence.
  - right. exists p, last_agent. auto.
Qed.

Section OptimalityProofs.
Variable fleet : gmap string VehicleAgent.t.
Variable ring0 : list string.
Hypothesis keyed : ∀ k a, fleet !! k = Some a → VehicleAgent.id a = k.
Hypothesis ring_NoDup : NoDup ring0.
Hypothesis ring_no_warehouse : "warehouse" ∉ ring0.
Hypothesis ring_no_empty : "" ∉ ring0.

(** *** The fabric *)

Lemma set_message_queue_best w q :
  world_best fleet ring0 w →
  (∀ s m t, (s, m, t) ∈ q → queued_best fleet ring0 m) →
  world_best fleet ring0 (MeshSimulator.set_message_queue w q).
Proof. intros [H1 H2] Hq. by constructor. Qed.

Lemma deliver_to_best w k m :
  world_best fleet ring0 w → delivered_best fleet ring0 k m →
  world_best fleet ring0 (MeshSimulator.deliver_to w k m).
Proof.
  intros Hw Hm. unfold MeshSimulator.deliver_to.
  destruct (MeshSimulator.agents w !! k) as [a|] eqn:Ea; [|done].
  destruct Hw as [H1 H2]. constructor; simpl; [done|].
  intros k' a' m'. destruct (decide (k = k')) as [<- | Hne].
  - rewrite lookup_insert_eq. intros [= <-] Hin.
    apply (receive_inbox a m m') in Hin as [Hin | ->]; [by eapply H2 | done].
  - rewrite lookup_insert_ne by done. apply H2.
Qed.

Lemma decision_delivered_best k m :
  is_decision m → decision_best fleet ring0 m →
  delivered_best fleet ring0 k m.
Proof.
  intros Hd Hok. split; [|done].
  intros Hf. by destruct (forward_not_decision m Hf).
Qed.

Lemma relay_best w bp m :
  world_best fleet ring0 w → is_decision m → decision_best fleet ring0 m →
  world_best fleet ring0 (MeshSimulator.relay w bp m).
Proof.
  intros Hw Hd Hok. unfold MeshSimulator.relay.
  generalize (drop 1 bp). intros receivers. revert w Hw.
  induction receivers as [|r receivers IH]; simpl; intros w Hw; [done|].
  apply IH. apply deliver_to_best; [done|]. by apply decision_delivered_best.
Qed.

Lemma assign_sod_task_best w msg t :
  world_best fleet ring0 w →
  world_best fleet ring0 (MeshSimulator._assign_sod_task w msg t).
Proof.
  intros Hw. unfold MeshSimulator._assign_sod_task.
  destruct (MeshSimulator.ring w) as [|r0 ring'] eqn:Er; [done|].
  destruct ((r0 :: ring') !! _) as [winner|] eqn:Ew; [|done].
  apply deliver_to_best.
  - destruct Hw as [H1 H2]. by constructor.
  - apply decision_delivered_best; [reflexivity|].
    intros [x Hx]. done.
Qed.

Lemma forward_to_ring_best w msg t :
  MeshSimulator.ring w = ring0 →
  world_best fleet ring0 w →
  world_best fleet ring0 (MeshSimulator._forward_to_ring w msg t).
Proof.
  intros Hr Hw. unfold MeshSimulator._forward_to_ring.
  destruct (MeshSimulator.ring w) as [|first_agent ring'] eqn:Er; [done|].
  apply deliver_to_best; [done|]. split; [|intros [=]].
  intros _. eexists [], _, MeshSimulator.VERY_HIGH_BID, SNone.
  split; [reflexivity|]. split; [rewrite <- Hr; by exists ring'|].
  split; [reflexivity|]. split; [reflexivity|]. split; [reflexivity|].
  split; [by eexists|].
  intros wt _. split; [|reflexivity].
  intros k a Hk. by apply elem_of_nil in Hk.
Qed.

Lemma start_backtrace_best w w' msg t :
  world_best fleet ring0 w → sent_best fleet ring0 msg →
  msg !! "path" = Some (PList ("warehouse" :: ring0)) →
  MeshSimulator._start_backtrace w msg t = Some w' →
  world_best fleet ring0 w'.
Proof.
  intros Hw (rest & b & q & h & wt & Hp & Hpre & Hb & Hq & Hh & Hwt & Hbest)
    Hfull.
  rewrite Hfull in Hp. injection Hp as <-.
  unfold MeshSimulator._start_backtrace.
  rewrite (get_lookup _ _ _ _ Hb), (get_lookup _ _ _ _ Hfull). unfold sget.
  rewrite Hh. destruct h as [| h | x]; simpl.
  - by intros [= <-].
  - destruct (String.eqb h ""); simpl; intros [= <-]; [done|].
    apply relay_best; [done | reflexivity |].
    intros _. exists b, q, h, wt.
    split; [reflexivity|]. split; [reflexivity|].
    split; [done|]. split; [done|]. split; [|done].
    change (Some (get msg "weight" PNone) = Some (PNum wt)).
    by rewrite (get_lookup _ _ _ _ Hwt).
  - by destruct Hbest as [_ []].
Qed.

Lemma mesh_handle_forward_best w w' sender msg t :
  MeshSimulator.ring w = ring0 →
  world_best fleet ring0 w → queued_best fleet ring0 msg → is_forward msg →
  MeshSimulator._handle_forward_announcement w sender msg t = Some w' →
  world_best fleet ring0 w'.
Proof.
  intros Hring Hw [Hmf _] Hf H. specialize (Hmf Hf).
  pose proof Hmf
    as (rest & b & q & h & wt & Hpath & Hpre & Hb & Hq & Hh & Hwt & Hbest).
  destruct (mesh_forward_backtrace _ _ _ _ _ H)
    as [[_ ->] | [(p & la & next & Hp & Hl & Hn & Hne & ->)
                 | (p & la & Hp & Hl & Hn & Hbt)]];
    [done | |];
    rewrite (get_lookup _ _ _ _ Hpath) in Hp; injection Hp as <-;
    pose proof (next_follows_ring w rest la) as Hnext;
    rewrite Hring in Hnext; specialize (Hnext ring_NoDup ring_no_warehouse
                                          Hpre Hl).
  - rewrite Hn in Hnext.
    assert (is_forward (<["path" := PList (("warehouse" :: rest) ++ [next])]> msg))
      as Hf'.
    { unfold is_forward, get in *. by rewrite lookup_insert_ne. }
    apply deliver_to_best; [done|]. split.
    + intros _. exists rest, b, q, h.
      split; [by rewrite lookup_insert_eq|]. split; [done|].
      split; [by rewrite lookup_insert_ne|]. split; [done|]. split; [done|].
      split; [rewrite lookup_insert_ne by done; by eexists|].
      intros wt'. unfold get. rewrite lookup_insert_ne, Hwt by done.
      by intros [= <-].
    + intros Hd. by destruct (forward_not_decision _ Hf').
  - destruct Hn as [Hn | Hn].
    + rewrite Hn in Hnext. subst rest.
      by eapply start_backtrace_best.
    + apply find_next_in_ring_spec in Hn as [Hn _].
      rewrite Hring in Hn. by destruct ring_no_empty.
Qed.

Lemma mesh_handle_winner_best w w' msg :
  world_best fleet ring0 w → queued_best fleet ring0 msg → is_decision msg →
  MeshSimulator._handle_winner_decision w msg = Some w' →
  world_best fleet ring0 w'.
Proof.
  intros Hw [_ Hmd] Hd. unfold MeshSimulator._handle_winner_decision.
  destruct (get msg "winner" (PStr "")) as [[| winner | q] | l | d];
    try done; intros [= <-]; try done.
  apply deliver_to_best; [done|]. apply decision_delivered_best; auto.
Qed.

Lemma process_message_best w w' sender msg t :
  MeshSimulator.ring w = ring0 →
  world_best fleet ring0 w → queued_best fleet ring0 msg →
  MeshSimulator._process_message w sender msg t = Some w' →
  world_best fleet ring0 w'.
Proof.
  intros Hring Hw Hm. unfold MeshSimulator._process_message.
  destruct (py_eq_str _ "TASK_ANNOUNCEMENT" && _).
  { unfold MeshSimulator._handle_warehouse_announcement.
    destruct (get msg "task_id" (PStr "")) as [[| task_id | q] | l | d];
      try done.
    destruct (startswith task_id "SOD-"); intros [= <-].
    - by apply assign_sod_task_best.
    - by apply forward_to_ring_best. }
  destruct (py_eq_str _ "FORWARD_ANNOUNCEMENT") eqn:Ef.
  { apply py_eq_str_true in Ef. by apply mesh_handle_forward_best. }
  destruct (py_eq_str _ "WINNER_DECISION") eqn:Ed.
  { apply py_eq_str_true in Ed. by apply mesh_handle_winner_best. }
  by intros [= <-].
Qed.

Lemma deliver_queue_best pending w w' sim_time :
  world_ok fleet ring0 w → world_best fleet ring0 w →
  (∀ s m t, (s, m, t) ∈ pending → message_ok fleet ring0 m) →
  (∀ s m t, (s, m, t) ∈ pending → queued_best fleet ring0 m) →
  MeshSimulator.deliver_queue pending w sim_time = Some w' →
  world_best fleet ring0 w'.
Proof.
  revert w. induction pending as [|[[sender msg] msg_time] rest IH];
    simpl; intros w Hok Hw Hqok Hq H; [by injection H as <-|].
  destruct (MeshSimulator._process_message _ sender msg _) as [w1|] eqn:E;
    simpl in H; [|done].
  apply (IH w1); [| | | |done].
  - eapply (process_message_ok fleet ring0); [| |exact E].
    + apply set_message_queue_ok; [done|].
      intros s m t Hin. eapply Hqok. by right.
    + eapply Hqok. by left.
  - eapply process_message_best; [| | |exact E].
    + apply (ok_ring _ _ _ Hok).
    + apply set_message_queue_best; [done|].
      intros s m t Hin. eapply Hq. by right.
    + eapply Hq. by left.
  - intros s m t Hin. eapply Hqok. by right.
  - intros s m t Hin. eapply Hq. by right.
Qed.

Lemma deliver_messages_best w w' sim_time :
  world_ok fleet ring0 w → world_best fleet ring0 w →
  MeshSimulator.deliver_messages w sim_time = Some w' →
  world_best fleet ring0 w'.
Proof.
  intros Hok Hw. apply deliver_queue_best; [done | done | |].
  - apply (ok_queue _ _ _ Hok).
  - apply (best_queue _ _ _ Hw).
Qed.

(** *** The agents *)

Lemma send_best w sender m t :
  world_best fleet ring0 w → queued_best fleet ring0 m →
  world_best fleet ring0 (MeshSimulator.send w sender (ODict m) t).
Proof.
  intros Hw Hm. unfold MeshSimulator.send. destruct (negb _); [done|].
  apply set_message_queue_best; [done|].
  intros s m' t' [Hin | [= -> -> ->]%list_elem_of_singleton]%elem_of_app;
    [by eapply (best_queue _ _ _ Hw) | done].
Qed.

Lemma best_of_snoc (before : list string) (k : string) (a0 : VehicleAgent.t)
    (q : Q) (h : scalar) (wt : Q) :
  fleet !! k = Some a0 → best_of fleet before q h wt →
  best_of fleet (before ++ [k])
    (if Qlt_bool (protocol_bid a0 wt) q then protocol_bid a0 wt else q)
    (if Qlt_bool (protocol_bid a0 wt) q then SStr k else h) wt.
Proof.
  intros Hk [Hlow Hh].
  assert (q <= VehicleAgent.VERY_HIGH_BID)%Q as Hle.
  { destruct h as [| h | x]; [rewrite Hh; apply Qle_refl | | done].
    destruct Hh as [Hh _]. lra. }
  destruct (Qlt_bool (protocol_bid a0 wt) q) eqn:Elt.
  - apply Qlt_bool_true in Elt. split.
    + intros k' a' [Hin | ->%list_elem_of_singleton]%elem_of_app Hk'.
      * specialize (Hlow k' a' Hin Hk'). lra.
      * rewrite Hk in Hk'. injection Hk' as <-. apply Qle_refl.
    + split; [lra|]. exists before, [], a0.
      split; [done|]. split; [done|]. split; [done|].
      intros k' a' Hin Hk'. specialize (Hlow k' a' Hin Hk'). lra.
  - apply Qlt_bool_false in Elt. split.
    + intros k' a' [Hin | ->%list_elem_of_singleton]%elem_of_app Hk'.
      * by apply (Hlow k' a').
      * rewrite Hk in Hk'. by injection Hk' as <-.
    + destruct h as [| h | x]; [done | | done].
      destruct Hh as (Hlt & pre & suf & a & -> & Ha & Hqa & Hpre).
      split; [done|]. exists pre, (suf ++ [k]), a.
      split; [by rewrite <- app_assoc|]. done.
Qed.

Lemma agent_reply_best (a a0 : VehicleAgent.t) (k : string) (m m' : Message)
    (t : Z) :
  fleet !! k = Some a0 → static a = static a0 →
  delivered_best fleet ring0 k m → is_forward m →
  VehicleAgent.forward_msg a m t = Some m' →
  queued_best fleet ring0 m'.
Proof.
  intros Hk Hst [Hmf _] Hf H.
  destruct (Hmf Hf)
    as (before & b & q & h & Hp & Hpre & Hb & Hq & Hh & Hws & Hbest).
  assert (VehicleAgent.id a = k) as Hid.
  { unfold static in Hst. injection Hst as -> _ _. by apply keyed. }
  destruct (forward_msg_inv _ _ _ _ H)
    as (wt & bid & cur & b' & Hwt & Hbid & Hb' & Hcur & Hty & Hw' & Hbest'
        & Hpath).
  rewrite (get_lookup _ _ _ _ Hb) in Hb'. injection Hb' as <-.
  rewrite (best_bid_lookup _ _ _ Hb Hq) in Hcur. injection Hcur as <-.
  specialize (Hpath _ (get_lookup _ _ _ _ Hp)).
  rewrite bool_decide_eq_true_2 in Hpath
    by (rewrite Hid; right; apply elem_of_app; right; by left).
  rewrite (bid_for_protocol a m t wt Hwt) in Hbid. injection Hbid as <-.
  rewrite (protocol_bid_static a a0 wt Hst) in Hbest'.
  pose proof (best_of_snoc before k a0 q h wt Hk (Hbest wt Hwt)) as Hnew.
  split.
  - intros _. destruct (Qlt_bool (protocol_bid a0 wt) q).
    + eexists (before ++ [k]), _, _, _, wt.
      split; [done|]. split; [done|]. split; [exact Hbest'|].
      split; [reflexivity|]. split; [by rewrite Hid|]. done.
    + by exists (before ++ [k]), b, q, h, wt.
  - intros Hd. unfold is_decision in Hd. by rewrite Hty in Hd.
Qed.

Lemma handle_message_best (self self' a0 : VehicleAgent.t) (k : string)
    (msg : Message) (t : Z) (mesh mesh' : MeshSimulator.t) :
  world_best fleet ring0 mesh →
  fleet !! k = Some a0 → static self = static a0 →
  delivered_best fleet ring0 k msg →
  VehicleAgent._handle_message MeshSimulator.send self msg t mesh
  = Some (self', mesh') →
  world_best fleet ring0 mesh'.
Proof.
  intros Hw Hk Hst Hdel. unfold VehicleAgent._handle_message.
  destruct (py_eq_str _ "TASK_ANNOUNCEMENT"); [by intros [= <- <-]|].
  destruct (py_eq_str _ "FORWARD_ANNOUNCEMENT") eqn:Ef.
  { apply py_eq_str_true in Ef.
    unfold VehicleAgent._handle_forward_announcement.
    destruct (VehicleAgent.forward_msg self msg t) as [m'|] eqn:Em;
      simpl; [|done].
    intros [= <- <-]. apply send_best; [done|]. by eapply agent_reply_best. }
  destruct (py_eq_str _ "WINNER_DECISION"); by intros [= <- <-].
Qed.

Lemma process_inbox_best (pending : list Message)
    (self self' a0 : VehicleAgent.t) (k : string) (t : Z)
    (mesh mesh' : MeshSimulator.t) :
  (∀ m, m ∈ pending → delivered_ok fleet ring0 k m) →
  (∀ m, m ∈ pending → delivered_best fleet ring0 k m) →
  world_ok fleet ring0 mesh → world_best fleet ring0 mesh →
  fleet !! k = Some a0 → static self = static a0 →
  VehicleAgent.process_inbox MeshSimulator.send pending self t mesh
  = Some (self', mesh') →
  world_best fleet ring0 mesh'.
Proof.
  revert self mesh.
  induction pending as [|msg rest IH]; simpl;
    intros self mesh Hpok Hp Hok Hw Hk Hst H; [by injection H as <- <-|].
  destruct (VehicleAgent._handle_message MeshSimulator.send _ msg t mesh)
    as [[self1 mesh1]|] eqn:E; simpl in H; [|done].
  assert (static (VehicleAgent.set_inbox self rest) = static a0) as Hst'
    by done.
  assert (delivered_ok fleet ring0 k msg) as Hmok by (apply Hpok; by left).
  assert (delivered_best fleet ring0 k msg) as Hmsg by (apply Hp; by left).
  destruct (handle_message_ok fleet ring0 keyed _ _ _ _ _ _ _ _
              Hok Hk Hst' Hmok E) as (Hok1 & Hst1 & _).
  pose proof (handle_message_best _ _ _ _ _ _ _ _ Hw Hk Hst' Hmsg E) as Hw1.
  eapply (IH self1 mesh1); try done.
  - intros m Hm. apply Hpok. by right.
  - intros m Hm. apply Hp. by right.
Qed.

Lemma agent_turn_best w w' k t :
  world_ok fleet ring0 w → world_best fleet ring0 w →
  agent_turn w k t = Some w' →
  world_best fleet ring0 w'.
Proof.
  intros Hok Hw Hturn.
  pose proof (agent_turn_ok fleet ring0 keyed _ _ _ _ Hok Hturn) as Hok'.
  revert Hturn. unfold agent_turn.
  destruct (MeshSimulator.agents w !! k) as [a|] eqn:Ea; simpl; [|done].
  destruct (VehicleAgent.process_messages MeshSimulator.send a t w)
    as [[a' w1]|] eqn:E; simpl; [|done].
  intros [= <-].
  pose proof (ok_static _ _ _ Hok k) as Hs. rewrite Ea in Hs.
  destruct (fleet !! k) as [a0|] eqn:Ek; [|done].
  unfold VehicleAgent.process_messages in E.
  assert (static a = static a0) as Hst
    by (cbn [fmap option_fmap option_map] in Hs; congruence).
  destruct (process_inbox_ok fleet ring0 keyed _ _ _ _ _ _ _ _
              (λ m Hm, ok_inbox _ _ _ Hok k a m Ea Hm) Hok Ek Hst eq_refl E)
    as (_ & _ & Hin1).
  pose proof (process_inbox_best _ _ _ _ _ _ _ _
                (λ m Hm, ok_inbox _ _ _ Hok k a m Ea Hm)
                (λ m Hm, best_inbox _ _ _ Hw k a m Ea Hm) Hok Hw Ek Hst E)
    as [H1 H2].
  constructor; simpl; [done|].
  intros k' a1 m. destruct (decide (k = k')) as [<- | Hne].
  - rewrite lookup_insert_eq. intros [= <-]. rewrite Hin1.
    by intros ?%elem_of_nil.
  - rewrite lookup_insert_ne by done. apply H2.
Qed.

Lemma do_action_best w w' act :
  world_ok fleet ring0 w → world_best fleet ring0 w →
  do_action w act = Some w' →
  world_best fleet ring0 w'.
Proof.
  intros Hok Hw. destruct act as [sender task sim_time | sim_time | k t]; simpl.
  - intros [= <-]. apply send_best; [done|]. split.
    + intros Hf. unfold is_forward, get in Hf.
      by rewrite lookup_insert_eq in Hf.
    + intros Hd. unfold is_decision, get in Hd.
      by rewrite lookup_insert_eq in Hd.
  - by apply deliver_messages_best.
  - by apply agent_turn_best.
Qed.

Lemma run_best trace w w' :
  world_ok fleet ring0 w → world_best fleet ring0 w →
  run w trace = Some w' → world_best fleet ring0 w'.
Proof.
  revert w. induction trace as [|act rest IH]; simpl; intros w Hok Hw H;
    [by injection H as <-|].
  destruct (do_action w act) as [w1|] eqn:E; simpl in H; [|done].
  eapply IH; [| |exact H].
  - by eapply (do_action_ok fleet ring0 keyed).
  - by eapply do_action_best.
Qed.

End OptimalityProofs.

Lemma reachable_best (items : list (string * VehicleAgent.t)) (comm_range : Q)
    (trace : list action) (w : MeshSimulator.t) :
  fresh_fleet items → NoDup items.*1 →
  "warehouse" ∉ items.*1 → "" ∉ items.*1 →
  run (MeshSimulator.__init__ items comm_range) trace = Some w →
  world_best (list_to_map items) items.*1 w.
Proof.
  intros Hfresh Hnd Hw He Hrun.
  destruct (init_ok items comm_range Hfresh) as [Hkeyed H0].
  eapply run_best; [done | done | done | done | exact H0 | | exact Hrun].
  constructor; simpl.
  - intros s m t Hin. by apply elem_of_nil in Hin.
  - intros k a m Hk Hin. apply elem_of_list_to_map_2 in Hk.
    apply Hfresh in Hk as [_ Hk]. rewrite Hk in Hin.
    by apply elem_of_nil in Hin.
Qed.


Lemma fleet_lookup_items (items : list (string * VehicleAgent.t)) (k : string)
    (a : VehicleAgent.t) :
  NoDup items.*1 →
  (k, a) ∈ items ↔ (list_to_map items : gmap string VehicleAgent.t) !! k = Some a.
Proof.
  intros Hnd. split.
  - by apply elem_of_list_to_map_1.
  - apply elem_of_list_to_map_2.
Qed.

(** X11: in every run from a fresh fabric whose ring has neither the
    sentinel "warehouse" nor the empty id as a member, a task goes round
    the ring in ring order and carries the lowest bid so far: the path of
    every FORWARD_ANNOUNCEMENT in flight is the sentinel followed by an
    initial segment of the ring, and the best bid of one that an agent
    has sent to the queue is at most the bid of every agent on its
    path. *)
Theorem X11_traversal_follows_ring_order
    (items : list (string * VehicleAgent.t)) (comm_range : Q)
    (trace : list action) (w : MeshSimulator.t) :
  fresh_fleet items → NoDup items.*1 →
  "warehouse" ∉ items.*1 → "" ∉ items.*1 →
  run (MeshSimulator.__init__ items comm_range) trace = Some w →
  ∀ m, in_flight w m → is_forward m →
    ∃ rest,
      m !! "path" = Some (PList ("warehouse" :: rest))
      ∧ rest `prefix_of` MeshSimulator.ring w
      ∧ ((∃ s t, (s, m, t) ∈ MeshSimulator.message_queue w) →
         ∃ q wt,
           best_bid m = Some q
           ∧ m !! "weight" = Some (PNum wt)
           ∧ ∀ k a, k ∈ rest → (k, a) ∈ items →
                    (q <= protocol_bid a wt)%Q).
Proof.
  intros Hfresh Hnd Hw He Hrun m Hm Hf.
  destruct (reachable_ok items comm_range trace w Hfresh Hrun) as [_ Hok].
  pose proof (reachable_best items comm_range trace w Hfresh Hnd Hw He Hrun)
    as Hbest.
  rewrite (ok_ring _ _ _ Hok).
  assert (∀ s t, (s, m, t) ∈ MeshSimulator.message_queue w →
    ∃ rest,
      m !! "path" = Some (PList ("warehouse" :: rest))
      ∧ rest `prefix_of` items.*1
      ∧ ∃ q wt,
           best_bid m = Some q
           ∧ m !! "weight" = Some (PNum wt)
           ∧ ∀ k a, k ∈ rest → (k, a) ∈ items →
                    (q <= protocol_bid a wt)%Q) as Hqueue.
  { intros s t Hq.
    destruct (best_queue _ _ _ Hbest s m t Hq) as [Hs _].
    destruct (Hs Hf)
      as (rest & b & q & h & wt & Hp & Hpre & Hb & Hbid & Hh & Hwt & Hlow & _).
    exists rest. split; [done|]. split; [done|]. exists q, wt.
    split; [by eapply best_bid_lookup|]. split; [done|].
    intros k a Hk Hka. apply (Hlow k a Hk). by apply fleet_lookup_items. }
  destruct Hm as [(s & t & Hq) | (k & a & Hk & Hin)].
  - destruct (Hqueue s t Hq) as (rest & Hp & Hpre & Hrest).
    exists rest. by repeat split.
  - destruct (best_inbox _ _ _ Hbest k a m Hk Hin) as [Hs _].
    destruct (Hs Hf) as (before & b & q & h & Hp & Hpre & _).
    exists (before ++ [k]). split; [done|]. split; [done|].
    intros (s & t & Hq).
    destruct (Hqueue s t Hq) as (rest & Hp' & _ & Hrest).
    rewrite Hp in Hp'. by injection Hp' as <-.
Qed.

Lemma X11_traversal_follows_ring_order_witness :
  match run (MeshSimulator.__init__ Sample.items3 600) Sample.trace3_round with
  | Some w =>
      (∀ m, in_flight w m → is_forward m →
         ∃ rest,
           m !! "path" = Some (PList ("warehouse" :: rest))
           ∧ rest `prefix_of` MeshSimulator.ring w
           ∧ ((∃ s t, (s, m, t) ∈ MeshSimulator.message_queue w) →
              ∃ q wt,
                best_bid m = Some q
                ∧ m !! "weight" = Some (PNum wt)
                ∧ ∀ k a, k ∈ rest → (k, a) ∈ Sample.items3 →
                         (q <= protocol_bid a wt)%Q))
      ∧ queued w
        = [("C", (PStr "FORWARD_ANNOUNCEMENT",
                  PList ["warehouse"; "A"; "B"; "C"], Some (SStr "A"), PNone))]
  | None => False
  end.
Proof.
  assert (fresh_fleet Sample.items3) as Hfresh by fresh_items.
  assert (NoDup Sample.items3.*1) as Hnd
    by (apply (bool_decide_unpack _); by vm_compute).
  assert ("warehouse" ∉ Sample.items3.*1) as Hw
    by (apply (bool_decide_unpack _); by vm_compute).
  assert ("" ∉ Sample.items3.*1) as He
    by (apply (bool_decide_unpack _); by vm_compute).
  assert (queued <$> run (MeshSimulator.__init__ Sample.items3 600)
                       Sample.trace3_round
          = Some [("C", (PStr "FORWARD_ANNOUNCEMENT",
                         PList ["warehouse"; "A"; "B"; "C"], Some (SStr "A"),
                         PNone))]) as Hobs
    by (vm_compute; reflexivity).
  destruct (run _ Sample.trace3_round) as [w|] eqn:E.
  - split.
    + exact (X11_traversal_follows_ring_order Sample.items3 600
               Sample.trace3_round w Hfresh Hnd Hw He E).
    + injection Hobs as ->. reflexivity.
  - discriminate Hobs.
Defined.

(** X12: the winner of a traversal is the lowest bidder of the whole ring.
    In every run from a fresh fabric whose ring has neither "warehouse"
    nor the empty id as a member, every WINNER_DECISION in flight that
    has a [backtrace_route] names a registered agent whose bid for the
    task's weight is the best bid of the message, is below VERY_HIGH_BID,
    is at most the bid of every agent of the fleet, and is strictly below
    the bid of every agent before it in the ring: ties go to the agent
    that comes first. *)
Theorem X12_winner_has_lowest_bid
    (items : list (string * VehicleAgent.t)) (comm_range : Q)
    (trace : list action) (w : MeshSimulator.t) :
  fresh_fleet items → NoDup items.*1 →
  "warehouse" ∉ items.*1 → "" ∉ items.*1 →
  run (MeshSimulator.__init__ items comm_range) trace = Some w →
  ∀ m, in_flight w m → is_decision m → is_Some (m !! "backtrace_route") →
    ∃ h a wt pre suf,
      m !! "winner" = Some (PStr h)
      ∧ (h, a) ∈ items
      ∧ m !! "weight" = Some (PNum wt)
      ∧ best_bid m = Some (protocol_bid a wt)
      ∧ best_holder m = Some (SStr h)
      ∧ (protocol_bid a wt < VehicleAgent.VERY_HIGH_BID)%Q
      ∧ (∀ k a', (k, a') ∈ items →
                 (protocol_bid a wt <= protocol_bid a' wt)%Q)
      ∧ MeshSimulator.ring w = pre ++ h :: suf
      ∧ ∀ k a', k ∈ pre → (k, a') ∈ items →
                (protocol_bid a wt < protocol_bid a' wt)%Q.
Proof.
  intros Hfresh Hnd Hw He Hrun m Hm Hd Hroute.
  destruct (reachable_ok items comm_range trace w Hfresh Hrun) as [_ Hok].
  pose proof (reachable_best items comm_range trace w Hfresh Hnd Hw He Hrun)
    as Hbest.
  rewrite (ok_ring _ _ _ Hok).
  assert (decision_best (list_to_map items) items.*1 m) as Hdec.
  { destruct Hm as [(s & t & Hq) | (k & a & Hk & Hin)].
    - destruct (best_queue _ _ _ Hbest s m t Hq) as [_ H]. by apply H.
    - destruct (best_inbox _ _ _ Hbest k a m Hk Hin) as [_ H]. by apply H. }
  destruct (Hdec Hroute)
    as (b & q & h & wt & Hwin & Hb & Hq & Hh & Hwt & Hlow & Hlt
        & pre & suf & a & Hring & Ha & -> & Hpre).
  exists h, a, wt, pre, suf.
  split; [done|]. split; [by apply fleet_lookup_items|]. split; [done|].
  split; [by eapply best_bid_lookup|].
  split; [by eapply best_holder_lookup|].
  split; [done|]. split; [|split; [done|]].
  - intros k a' Hka. apply (Hlow k a'); [|by apply fleet_lookup_items].
    apply list_elem_of_fmap. by exists (k, a').
  - intros k a' Hk Hka. apply (Hpre k a' Hk). by apply fleet_lookup_items.
Qed.

Lemma X12_winner_has_lowest_bid_witness :
  match run (MeshSimulator.__init__ Sample.items3 600)
          (Sample.trace3_round ++ [Deliver 3]) with
  | Some w =>
      (∀ m, in_flight w m → is_decision m → is_Some (m !! "backtrace_route") →
         ∃ h a wt pre suf,
           m !! "winner" = Some (PStr h)
           ∧ (h, a) ∈ Sample.items3
           ∧ m !! "weight" = Some (PNum wt)
           ∧ best_bid m = Some (protocol_bid a wt)
           ∧ best_holder m = Some (SStr h)
           ∧ (protocol_bid a wt < VehicleAgent.VERY_HIGH_BID)%Q
           ∧ (∀ k a', (k, a') ∈ Sample.items3 →
                      (protocol_bid a wt <= protocol_bid a' wt)%Q)
           ∧ MeshSimulator.ring w = pre ++ h :: suf
           ∧ ∀ k a', k ∈ pre → (k, a') ∈ Sample.items3 →
                     (protocol_bid a wt < protocol_bid a' wt)%Q)
      ∧ (λ a, (λ m, (get m "message_type" PNone, m !! "winner",
                     m !! "backtrace_route")) <$> VehicleAgent.inbox a)
          <$> MeshSimulator.agents w !! "B"
        = Some [(PStr "WINNER_DECISION", Some (PStr "A"),
                 Some (PList ["C"; "B"; "A"]))]
  | None => False
  end.
Proof.
  assert (fresh_fleet Sample.items3) as Hfresh by fresh_items.
  assert (NoDup Sample.items3.*1) as Hnd
    by (apply (bool_decide_unpack _); by vm_compute).
  assert ("warehouse" ∉ Sample.items3.*1) as Hw
    by (apply (bool_decide_unpack _); by vm_compute).
  assert ("" ∉ Sample.items3.*1) as He
    by (apply (bool_decide_unpack _); by vm_compute).
  assert ((λ w, (λ a, (λ m, (get m "message_type" PNone, m !! "winner",
                             m !! "backtrace_route")) <$> VehicleAgent.inbox a)
                  <$> MeshSimulator.agents w !! "B")
            <$> run (MeshSimulator.__init__ Sample.items3 600)
                  (Sample.trace3_round ++ [Deliver 3])
          = Some (Some [(PStr "WINNER_DECISION", Some (PStr "A"),
                         Some (PList ["C"; "B"; "A"]))])) as Hobs
    by (vm_compute; reflexivity).
  destruct (run _ (Sample.trace3_round ++ [Deliver 3])) as [w|] eqn:E.
  - split.
    + exact (X12_winner_has_lowest_bid Sample.items3 600
               (Sample.trace3_round ++ [Deliver 3]) w Hfresh Hnd Hw He E).
    + by injection Hobs.
  - discriminate Hobs.
Defined.

(** ** Well-typed runs do not raise *)



Section TypedProofs.
Variable fleet : gmap string VehicleAgent.t.
Variable ring0 : list string.
Hypothesis keyed : ∀ k a, fleet !! k = Some a → VehicleAgent.id a = k.
Hypothesis registered : ∀ k, k ∈ ring0 → is_Some (fleet !! k).

(** *** The fabric *)










(** *** The agents *)







End TypedProofs.



(** ** What raises *)

Lemma deliver_queue_raises (pending : list (string * Message * option Z))
    (self : MeshSimulator.t) (sim_time : Z) (msg : Message) (t : option Z) :
  ("warehouse", msg, t) ∈ pending → is_task msg →
  (∀ task_id, get msg "task_id" (PStr "") ≠ PStr task_id) →
  MeshSimulator.deliver_queue pending self sim_time = None.
Proof.
  intros Hin Ht Hid. revert self.
  induction pending as [|[[sender m] msg_time] rest IH]; intros self;
    [by apply elem_of_nil in Hin|].
  simpl. apply elem_of_cons in Hin as [[= <- <- <-] | Hin].
  - unfold MeshSimulator._process_message. rewrite Ht.
    change (py_eq_str _ _ && _) with true. cbv iota.
    unfold MeshSimulator._handle_warehouse_announcement.
    destruct (get msg "task_id" (PStr "")) as [[| task_id | q] | l | d];
      try done.
    by destruct (Hid task_id).
  - destruct (MeshSimulator._process_message _ sender m _) as [w1|];
      simpl; [by apply IH | done].
Qed.

(** X14: a TASK_ANNOUNCEMENT of the warehouse whose [task_id] is not a
    string makes [deliver_messages] raise, wherever it stands in the
    queue: the fabric calls [startswith] on it.  [send] has accepted such
    a message without complaint. *)
Theorem X14_task_id_not_a_string_raises (self : MeshSimulator.t)
    (msg : Message) (t : option Z) (sim_time : Z) :
  is_task msg →
  (∀ task_id, get msg "task_id" (PStr "") ≠ PStr task_id) →
  MeshSimulator.deliver_messages
    (MeshSimulator.send self "warehouse" (ODict msg) t) sim_time = None.
Proof.
  intros Ht Hid. unfold MeshSimulator.deliver_messages.
  apply (deliver_queue_raises _ _ _ msg t); [|done|done].
  unfold MeshSimulator.send.
  assert (is_Some (msg !! "message_type")) as Hty.
  { unfold is_task, get in Ht. by destruct (msg !! "message_type"). }
  rewrite (bool_decide_eq_true_2 _ Hty). simpl.
  apply elem_of_app. right. by left.
Qed.

Lemma X14_task_id_not_a_string_raises_witness :
  let msg := <["task_id" := PNum 7]> (Sample.announcement "T1" 3) in
  is_task msg
  ∧ MeshSimulator.deliver_messages
      (MeshSimulator.send Sample.fleet2 "warehouse" (ODict msg) None) 0 = None.
Proof.
  split; [reflexivity|].
  apply X14_task_id_not_a_string_raises; [reflexivity|].
  intros task_id. vm_compute. discriminate.
Defined.

Section AgentRaises.
Context {M : Type} (send : M → string → pyobj → option Z → M).

Lemma process_inbox_raises (pending : list Message) (self : VehicleAgent.t)
    (t : Z) (mesh : M) (msg : Message) :
  msg ∈ pending → is_forward msg →
  match get msg "weight" (PNum 0) with
  | PS (SNum _) | PS (SStr _) => False
  | _ => True
  end →
  VehicleAgent.process_inbox send pending self t mesh = None.
Proof.
  intros Hin Hf Hwt. revert self mesh.
  induction pending as [|m rest IH]; intros self mesh;
    [by apply elem_of_nil in Hin|].
  simpl. apply elem_of_cons in Hin as [<- | Hin].
  - unfold VehicleAgent._handle_message. rewrite Hf.
    change (py_eq_str _ "TASK_ANNOUNCEMENT") with false. cbv iota.
    change (py_eq_str _ "FORWARD_ANNOUNCEMENT") with true. cbv iota.
    unfold VehicleAgent._handle_forward_announcement,
      VehicleAgent.forward_msg.
    by destruct (get msg "weight" (PNum 0)) as [[| s | q] | l | d].
  - destruct (VehicleAgent._handle_message send _ m t mesh)
      as [[self1 mesh1]|]; simpl; [by apply IH | done].
Qed.

End AgentRaises.

(** X15: a FORWARD_ANNOUNCEMENT in the inbox whose [weight] is [None], a
    list or a dict makes [process_messages] raise (the handler calls
    [float] on it), whatever else the inbox holds and whatever the
    fabric is. *)
Theorem X15_weight_not_a_number_raises {M : Type}
    (send : M → string → pyobj → option Z → M) (self : VehicleAgent.t)
    (msg : Message) (t : Z) (mesh : M) :
  msg ∈ VehicleAgent.inbox self → is_forward msg →
  match get msg "weight" (PNum 0) with
  | PS (SNum _) | PS (SStr _) => False
  | _ => True
  end →
  VehicleAgent.process_messages send self t mesh = None.
Proof. apply process_inbox_raises. Qed.

Lemma X15_weight_not_a_number_raises_witness :
  let msg : Message :=
    {[ "message_type" := PStr "FORWARD_ANNOUNCEMENT";
       "task_id" := PStr "T1"; "weight" := PNone;
       "path" := PList ["warehouse"; "A"] ]} in
  let a := VehicleAgent.set_inbox (Sample.vehicle "A" 10) [msg] in
  msg ∈ VehicleAgent.inbox a
  ∧ VehicleAgent.process_messages MeshSimulator.send a 0 Sample.fleet1 = None.
Proof.
  intros msg a.
  assert (msg ∈ VehicleAgent.inbox a) as Hin by apply list_elem_of_here.
  split; [exact Hin|].
  apply (X15_weight_not_a_number_raises MeshSimulator.send a msg 0
           Sample.fleet1 Hin); [reflexivity | exact I].
Defined.

(** ** Who is told the decision *)

Lemma drop_1_reverse {A} (l : list A) :
  drop 1 (reverse l) = reverse (removelast l).
Proof.
  destruct l as [|x l' _] using rev_ind; [done|].
  by rewrite reverse_snoc, removelast_last.
Qed.

Lemma NoDup_removelast {A} (l : list A) : NoDup l → NoDup (removelast l).
Proof.
  destruct l as [|x l' _] using rev_ind; [done|].
  rewrite removelast_last. by intros [? _]%NoDup_app.
Qed.

(** X16: who is told the decision.  When the holder of the best bid is
    on the path (once, its entries from the holder on being distinct),
    [_start_backtrace] hands one copy of the WINNER_DECISION to every
    registered agent that stands on the path from the holder on, except
    to the last entry of the path, and to nobody else; the decision
    carries the reversed path from the holder on as its
    [backtrace_route].  So the winner is told exactly when it is not the
    last entry of the path. *)
Theorem X16_backtrace_recipients (self : MeshSimulator.t) (msg : Message)
    (b : gmap string scalar) (holder : string) (pre suf : list string)
    (t : Z) :
  msg !! "best" = Some (PDict b) →
  b !! "holder" = Some (SStr holder) →
  holder ≠ "" →
  msg !! "path" = Some (PList (pre ++ holder :: suf)) →
  holder ∉ pre → NoDup (holder :: suf) →
  ∃ self' decision,
    MeshSimulator._start_backtrace self msg t = Some self'
    ∧ decision !! "message_type" = Some (PStr "WINNER_DECISION")
    ∧ decision !! "winner" = Some (PStr holder)
    ∧ decision !! "backtrace_route" = Some (PList (reverse (holder :: suf)))
    ∧ MeshSimulator.message_queue self' = MeshSimulator.message_queue self
    ∧ ∀ k a, MeshSimulator.agents self !! k = Some a →
        ∃ a', MeshSimulator.agents self' !! k = Some a'
              ∧ VehicleAgent.inbox a'
                = VehicleAgent.inbox a
                  ++ (if bool_decide (k ∈ removelast (holder :: suf))
                      then [decision] else []).
Proof.
  intros Hb Hh Hne Hp Hpre Hnd.
  erewrite start_backtrace_route by done.
  rewrite backtrace_path_suffix by done.
  set (decision := MeshSimulator.winner_msg msg holder (PDict b)
                     (reverse (holder :: suf))).
  exists (MeshSimulator.relay self (reverse (holder :: suf)) decision),
    decision.
  split; [reflexivity|]. split; [reflexivity|]. split; [reflexivity|].
  split; [reflexivity|]. split.
  - unfold MeshSimulator.relay. generalize (drop 1 (reverse (holder :: suf))).
    intros receivers. revert self.
    induction receivers as [|r receivers IH]; intros self; simpl; [done|].
    rewrite IH. unfold MeshSimulator.deliver_to.
    by destruct (MeshSimulator.agents self !! r).
  - intros k a Ha. unfold MeshSimulator.relay.
    destruct (relay_inbox (drop 1 (reverse (holder :: suf))) self k a
                decision Ha) as (a' & Ha' & Hin); [by eexists|].
    exists a'. split; [exact Ha'|]. rewrite Hin. f_equal.
    rewrite drop_1_reverse.
    assert (NoDup (reverse (removelast (holder :: suf)))) as Hnd'
      by (rewrite reverse_Permutation; by apply NoDup_removelast).
    case_bool_decide as Hk.
    + rewrite occurrences_NoDup; [done | done | by apply elem_of_reverse].
    + rewrite filter_absent; [done|]. by rewrite elem_of_reverse.
Qed.

Lemma X16_backtrace_recipients_witness :
  let msg : Message :=
    {[ "message_type" := PStr "FORWARD_ANNOUNCEMENT";
       "task_id" := PStr "T1"; "weight" := PNum 3;
       "path" := PList ["warehouse"; "A"; "B"; "C"];
       "best" := PDict {[ "bid" := SNum 100; "holder" := SStr "B" ]} ]} in
  ∃ self' decision,
    MeshSimulator._start_backtrace Sample.fleet3 msg 0 = Some self'
    ∧ decision !! "message_type" = Some (PStr "WINNER_DECISION")
    ∧ decision !! "winner" = Some (PStr "B")
    ∧ decision !! "backtrace_route" = Some (PList (reverse ["B"; "C"]))
    ∧ MeshSimulator.message_queue self'
      = MeshSimulator.message_queue Sample.fleet3
    ∧ ∀ k a, MeshSimulator.agents Sample.fleet3 !! k = Some a →
        ∃ a', MeshSimulator.agents self' !! k = Some a'
              ∧ VehicleAgent.inbox a'
                = VehicleAgent.inbox a
                  ++ (if bool_decide (k ∈ removelast ["B"; "C"])
                      then [decision] else []).
Proof.
  intros msg.
  apply (X16_backtrace_recipients Sample.fleet3 msg
           {[ "bid" := SNum 100; "holder" := SStr "B" ]} "B"
           ["warehouse"; "A"] ["C"] 0).
  - reflexivity.
  - reflexivity.
  - discriminate.
  - reflexivity.
  - apply (bool_decide_unpack _); by vm_compute.
  - apply (bool_decide_unpack _); by vm_compute.
Defined.
